(** * TheNumberOne: registries, dispatch engine and cast utility

    A shallow embedding of [TheNumberOne.py]: the cast utility
    [cast_using_type_hints], the metaclass [DispatcherMeta] with its two
    [ChainMap] registries, and the message handler [TheNumberOne.on_message].

    Conventions of the embedding.
    - A Python [str] is a [string]; every character stands for one code point
      below 256.
    - A [dict] used through lookups only is a [gmap]; a [dict] whose iteration
      order is observed ([kwargs.items()]) is an association list.
    - Objects that the program shares and mutates (the layers of a [ChainMap],
      the per-channel lists of the forward registry) live in a store and are
      referred to by their address.
    - Code that may raise runs in an error-and-state monad [M]; logging,
      replies and handler calls are recorded, in order, in a trace.
    - A handler is known by its signature and by how a call of it ends; what
      it does in between is its own business.  [await f(x)] and [f(x)] both
      run the call to its end before the next statement; the trace keeps
      which of the two it was.
    - [PREFIX] and the way Python prints a container of channels or roles
      are parameters of the engine. *)

From Stdlib Require Import String Ascii List Bool Arith Lia ZArith.
From Stdlib Require Import FunctionalExtensionality.
From stdpp Require Import base option list gmap strings.

Import ListNotations.
Local Open Scope string_scope.
Local Open Scope list_scope.

Set Default Proof Using "Type".

(** ** Python strings *)

Definition chr (n : nat) : string := String (ascii_of_nat n) EmptyString.

(** The double quote, which string literals of this file never contain. *)
Definition dquote : string := chr 34.

Definition str_drop1 (s : string) : string :=
  match s with
  | EmptyString => EmptyString
  | String _ s' => s'
  end.

(** [s.startswith(p)] *)
Definition startswith (s p : string) : bool := String.prefix p s.

(** [s.split(sep, maxsplit)] for a one-character separator. *)
Fixpoint split_on (sep : ascii) (maxsplit : nat) (s : string) : list string :=
  match s with
  | EmptyString => [EmptyString]
  | String c s' =>
      if Ascii.eqb c sep && (0 <? maxsplit)%nat
      then EmptyString :: split_on sep (pred maxsplit) s'
      else match split_on sep maxsplit s' with
           | w :: ws => String c w :: ws
           | [] => [String c EmptyString]
           end
  end.

Fixpoint lstrip_by (p : ascii -> bool) (s : string) : string :=
  match s with
  | String d s' => if p d then lstrip_by p s' else s
  | EmptyString => EmptyString
  end.

Fixpoint rstrip_by (p : ascii -> bool) (s : string) : string :=
  match s with
  | EmptyString => EmptyString
  | String d s' =>
      match rstrip_by p s' with
      | EmptyString => if p d then EmptyString else String d EmptyString
      | r => String d r
      end
  end.

(** [s.strip(chars)], [chars] given by its membership test. *)
Definition strip_by (p : ascii -> bool) (s : string) : string :=
  rstrip_by p (lstrip_by p s).

(** Unicode white space among the code points below 256: what [\s] matches
    in a [str] pattern and what [str.isspace] accepts. *)
Definition is_space (c : ascii) : bool :=
  let n := nat_of_ascii c in
  (((9 <=? n) && (n <=? 13)) || ((28 <=? n) && (n <=? 32))
   || (n =? 133) || (n =? 160))%nat.

Definition is_digit (c : ascii) : bool :=
  let n := nat_of_ascii c in ((48 <=? n) && (n <=? 57))%nat.

(** ** Python values and exceptions *)

Inductive pyval : Type :=
| VNone
| VStr (s : string)
| VInt (z : Z)
| VBool (b : bool).

(** The two [ValueError]s raised by [set_command] differ by their message
    only; the other ones come from unpacking and from the [int]
    constructor. *)
Inductive value_error : Type :=
| IncorrectSignature
| GroupsDontFit (missings : gset string)
| NotEnoughValues
| InvalidLiteral (s : string).

Inductive Exn : Type :=
| ValueError (why : value_error)
| NameError (name : string)
| ReError
| OutsideFragment
| OtherError (what : string).

Inductive outcome (A : Type) : Type :=
| Ret (a : A)
| Raise (e : Exn).
Arguments Ret {A} a.
Arguments Raise {A} e.

(** A type object, as [cast_using_type_hints] uses it: something to call on
    a string. *)
Definition PyType : Type := string -> outcome pyval.

(** ** The cast utility *)

Definition cast_one (type_hints : gmap string PyType)
    (key : string) (value : option string) : outcome pyval :=
  match value with
  | None => Ret VNone
  | Some s =>
      match type_hints !! key with
      | None => Ret (VStr s)
      | Some ty => ty s
      end
  end.

(** The dictionary comprehension: entries are evaluated in the order of
    [kwargs.items()], and the first constructor that raises ends it. *)
Fixpoint cast_using_type_hints (type_hints : gmap string PyType)
    (kwargs : list (string * option string)) : outcome (list (string * pyval)) :=
  match kwargs with
  | [] => Ret []
  | (key, value) :: rest =>
      match cast_one type_hints key value with
      | Raise e => Raise e
      | Ret v =>
          match cast_using_type_hints type_hints rest with
          | Raise e => Raise e
          | Ret vs => Ret ((key, v) :: vs)
          end
      end
  end.

(** The white space that [int] skips around a literal: the ASCII white
    space of C ([\t \n \v \f \r] and the space) and, among the code
    points from 127 on, those that are Unicode white space.  The
    separators U+001C to U+001F, which [\s] and [str.isspace] accept, are
    not skipped. *)
Definition is_int_space (c : ascii) : bool :=
  let n := nat_of_ascii c in
  (((9 <=? n) && (n <=? 13)) || (n =? 32) || (n =? 133) || (n =? 160))%nat.

(** The constructors [str], [bool] and [int] on a string argument.  [int]
    reads a decimal literal: optional white space around it, an optional
    sign, digits with single underscores between them. *)
Definition py_str : PyType := fun s => Ret (VStr s).

Definition py_bool : PyType :=
  fun s => Ret (VBool (negb (String.eqb s EmptyString))).

Inductive digit_state : Type := AtStart | AfterDigit | AfterUnderscore.

Fixpoint read_digits (st : digit_state) (acc : Z) (s : string) : option Z :=
  match s with
  | EmptyString =>
      match st with AfterDigit => Some acc | _ => None end
  | String c s' =>
      if is_digit c
      then read_digits AfterDigit (acc * 10 + Z.of_nat (nat_of_ascii c - 48)) s'
      else if Ascii.eqb c "_"
           then match st with
                | AfterDigit => read_digits AfterUnderscore acc s'
                | _ => None
                end
           else None
  end.

Definition py_int : PyType :=
  fun s =>
    let body := strip_by is_int_space s in
    let r :=
      match body with
      | String "-" ds => option_map Z.opp (read_digits AtStart 0 ds)
      | String "+" ds => read_digits AtStart 0 ds
      | _ => read_digits AtStart 0 body
      end in
    match r with
    | Some z => Ret (VInt z)
    | None => Raise (ValueError (InvalidLiteral s))
    end.

(** ** The fragment of [re] that the program relies on

    Patterns are kept as syntax trees and matched by backtracking, the
    alternatives tried in the order of the [re] module: left branch first,
    one more iteration first for a greedy repetition, the exit first for a
    lazy one.  A repetition takes another iteration only from a place
    other than the one where its last iteration started: an iteration
    that consumes nothing runs once, its groups are set, and the
    repetition ends there. *)
Module Re.

Inductive charset : Type :=
| CLit (c : ascii)
| CAny
| CSpace
| CNonSpace
| CDigit
| CNonDigit.

Definition charset_mem (cs : charset) (c : ascii) : bool :=
  match cs with
  | CLit d => Ascii.eqb c d
  | CAny => negb (Ascii.eqb c (ascii_of_nat 10))
  | CSpace => is_space c
  | CNonSpace => negb (is_space c)
  | CDigit => is_digit c
  | CNonDigit => negb (is_digit c)
  end.

Inductive regex : Type :=
| REmpty
| RSet (cs : charset)
| RSeq (r1 r2 : regex)
| RAlt (r1 r2 : regex)
| RStar (greedy : bool) (r : regex)
| RPlus (greedy : bool) (r : regex)
| RGroup (idx : nat) (name : option string) (r : regex)
| REnd.

(** Captured text by group number. *)
Abbreviation captures := (gmap nat string).

(** The part of [s] that was consumed when [rest] is what remains. *)
Definition consumed (s rest : string) : string :=
  String.substring 0 (String.length s - String.length rest) s.

(** [$] without [MULTILINE]: the end, or the newline that ends the text. *)
Definition at_end (s : string) : bool :=
  match s with
  | EmptyString => true
  | String c EmptyString => Ascii.eqb c (ascii_of_nat 10)
  | _ => false
  end.

Section Matcher.
Context {A : Type}.

Definition cont : Type := string -> captures -> option A.

Definition or_else (x y : option A) : option A :=
  match x with Some a => Some a | None => y end.

(** Zero or more iterations of a body matcher [m], then [k].  An
    iteration that consumes nothing is the last one: what it captured is
    kept, and only what follows the repetition is tried after it. *)
Fixpoint star_loop (m : string -> captures -> cont -> option A)
    (greedy : bool) (k : cont) (fuel : nat) (s : string) (caps : captures)
    : option A :=
  match fuel with
  | 0 => k s caps
  | S fuel' =>
      let again :=
        m s caps (fun s' caps' =>
          if (String.length s' <? String.length s)%nat
          then star_loop m greedy k fuel' s' caps'
          else k s' caps') in
      if greedy then or_else again (k s caps) else or_else (k s caps) again
  end.

Fixpoint rmatch (r : regex) (s : string) (caps : captures) (k : cont)
    : option A :=
  match r with
  | REmpty => k s caps
  | RSet cs =>
      match s with
      | String c s' => if charset_mem cs c then k s' caps else None
      | EmptyString => None
      end
  | RSeq r1 r2 => rmatch r1 s caps (fun s' caps' => rmatch r2 s' caps' k)
  | RAlt r1 r2 => or_else (rmatch r1 s caps k) (rmatch r2 s caps k)
  | RStar greedy r1 =>
      star_loop (rmatch r1) greedy k (S (String.length s)) s caps
  | RPlus greedy r1 =>
      rmatch r1 s caps (fun s' caps' =>
        star_loop (rmatch r1) greedy k (S (String.length s')) s' caps')
  | RGroup idx _ r1 =>
      rmatch r1 s caps (fun s' caps' =>
        k s' (<[idx := consumed s s']> caps'))
  | REnd => if at_end s then k s caps else None
  end.
End Matcher.

(** A match object: the text after the match and the groups that took
    part in it. *)
Record Match : Type := { m_rest : string; m_groups : captures }.

(** [pattern.match(s)]: the match starts at position zero and may end
    anywhere. *)
Definition re_match (r : regex) (s : string) : option Match :=
  rmatch r s ∅ (fun rest caps => Some {| m_rest := rest; m_groups := caps |}).

(** [pattern.fullmatch(s)], for comparison: the match must end at the end. *)
Definition re_fullmatch (r : regex) (s : string) : option Match :=
  rmatch r s ∅ (fun rest caps =>
    match rest with
    | EmptyString => Some {| m_rest := rest; m_groups := caps |}
    | _ => None
    end).

(** The groups of a pattern in the order of their opening parentheses. *)
Fixpoint groups (r : regex) : list (nat * option string) :=
  match r with
  | REmpty | RSet _ | REnd => []
  | RSeq r1 r2 | RAlt r1 r2 => groups r1 ++ groups r2
  | RStar _ r1 | RPlus _ r1 => groups r1
  | RGroup idx name r1 => (idx, name) :: groups r1
  end.

(** [match.groupdict()]: every named group, [None] for those that did not
    take part in the match. *)
Definition groupdict (r : regex) (m : Match) : list (string * option string) :=
  omap (fun g : nat * option string =>
          match g.2 with
          | Some name => Some (name, m_groups m !! g.1)
          | None => None
          end) (groups r).

(** [pattern.findall(s)] for a pattern with at most one group: the texts of
    that group (of the whole match when there is none) over the
    non-overlapping matches, scanning from the left.  After an empty match
    the next one at the same place must not be empty. *)
Fixpoint findall_from (r : regex) (fuel : nat) (allow_empty : bool)
    (s : string) : list string :=
  match fuel with
  | 0 => []
  | S fuel' =>
      let next :=
        match s with
        | EmptyString => []
        | String _ s' => findall_from r fuel' true s'
        end in
      match rmatch r s ∅ (fun rest caps =>
              if negb allow_empty && (String.length rest =? String.length s)%nat
              then None
              else Some {| m_rest := rest; m_groups := caps |}) with
      | None => next
      | Some m =>
          let item :=
            match groups r with
            | [] => consumed s (m_rest m)
            | (idx, _) :: _ => default EmptyString (m_groups m !! idx)
            end in
          item ::
            (if (String.length (m_rest m) <? String.length s)%nat
             then findall_from r fuel' true (m_rest m)
             else findall_from r fuel' false s)
      end
  end.

Definition findall (r : regex) (s : string) : list string :=
  findall_from r (2 * String.length s + 2) true s.

(** What a pattern matches, as a relation: [Matches r s t] when [r] can
    match the text [s] in front of the remaining text [t]. *)
Inductive Matches : regex -> string -> string -> Prop :=
| MEmpty t : Matches REmpty EmptyString t
| MSet cs c t :
    charset_mem cs c = true -> Matches (RSet cs) (String c EmptyString) t
| MSeq r1 r2 s1 s2 t :
    Matches r1 s1 (s2 +:+ t) -> Matches r2 s2 t ->
    Matches (RSeq r1 r2) (s1 +:+ s2) t
| MAltL r1 r2 s t : Matches r1 s t -> Matches (RAlt r1 r2) s t
| MAltR r1 r2 s t : Matches r2 s t -> Matches (RAlt r1 r2) s t
| MStarStop g r t : Matches (RStar g r) EmptyString t
| MStarStep g r s1 s2 t :
    s1 <> EmptyString ->
    Matches r s1 (s2 +:+ t) -> Matches (RStar g r) s2 t ->
    Matches (RStar g r) (s1 +:+ s2) t
| MPlus g r s1 s2 t :
    Matches r s1 (s2 +:+ t) -> Matches (RStar g r) s2 t ->
    Matches (RPlus g r) (s1 +:+ s2) t
| MGroup idx name r s t : Matches r s t -> Matches (RGroup idx name r) s t
| MEnd t : at_end t = true -> Matches REnd EmptyString t.


(** *** [re.compile]

    The concrete syntax that is modelled: literals, [.], [$], the classes
    [\s \S \d \D], escaped punctuation and [\n \t \r \f \v], groups
    [(...)], [(?:...)] and [(?P<name>...)], alternation, and the
    repetitions [*], [+], [?] with their lazy forms.  Within this syntax
    a pattern that [re] rejects raises [ReError].  Any other syntax ends
    the model with [OutsideFragment], which says nothing about what [re]
    does with the pattern. *)

Definition is_ascii_letter (c : ascii) : bool :=
  let n := nat_of_ascii c in
  (((65 <=? n) && (n <=? 90)) || ((97 <=? n) && (n <=? 122)))%nat.

Definition is_name_start (c : ascii) : bool :=
  is_ascii_letter c || Ascii.eqb c "_".

Definition is_name_char (c : ascii) : bool :=
  is_name_start c || is_digit c.

(** Reads a group name up to the closing [>]. *)
Fixpoint read_name (s : string) : outcome (string * string) :=
  match s with
  | EmptyString => Raise ReError
  | String c s' =>
      if Ascii.eqb c ">" then Ret (EmptyString, s')
      else if (128 <=? nat_of_ascii c)%nat then Raise OutsideFragment
      else if negb (is_name_char c) then Raise ReError
      else match read_name s' with
           | Ret (n, rest) => Ret (String c n, rest)
           | Raise e => Raise e
           end
  end.

Definition valid_name (n : string) : bool :=
  match n with
  | EmptyString => false
  | String c _ => is_name_start c
  end.

Definition parse_escape (c : ascii) : outcome regex :=
  if Ascii.eqb c "s" then Ret (RSet CSpace)
  else if Ascii.eqb c "S" then Ret (RSet CNonSpace)
  else if Ascii.eqb c "d" then Ret (RSet CDigit)
  else if Ascii.eqb c "D" then Ret (RSet CNonDigit)
  else if Ascii.eqb c "n" then Ret (RSet (CLit (ascii_of_nat 10)))
  else if Ascii.eqb c "t" then Ret (RSet (CLit (ascii_of_nat 9)))
  else if Ascii.eqb c "r" then Ret (RSet (CLit (ascii_of_nat 13)))
  else if Ascii.eqb c "f" then Ret (RSet (CLit (ascii_of_nat 12)))
  else if Ascii.eqb c "v" then Ret (RSet (CLit (ascii_of_nat 11)))
  else if is_digit c then Raise OutsideFragment
  else if existsb (Ascii.eqb c)
            ["w"; "W"; "b"; "B"; "A"; "Z"; "a"; "x"; "u"; "U"; "N"]%char
       then Raise OutsideFragment
  else if is_ascii_letter c then Raise ReError
  else Ret (RSet (CLit c)).

Definition is_repeat_char (c : ascii) : bool :=
  Ascii.eqb c "*" || Ascii.eqb c "+" || Ascii.eqb c "?".

Definition repeat_of (q : ascii) (greedy : bool) (atom : regex) : regex :=
  if Ascii.eqb q "*" then RStar greedy atom
  else if Ascii.eqb q "+" then RPlus greedy atom
  else if greedy then RAlt atom REmpty else RAlt REmpty atom.

(** The repetition that follows an atom, if any.  [bare_anchor] says that
    the atom is [$] itself, which cannot be repeated (nothing to repeat),
    unlike a group around it.  A repetition of a repetition is rejected
    (multiple repeat); [+] directly after a greedy repetition is left out
    of the fragment. *)
Definition parse_repeat (bare_anchor : bool) (atom : regex) (s : string)
    : outcome (regex * string) :=
  match s with
  | String q s1 =>
      if is_repeat_char q then
        if bare_anchor then Raise ReError else
        let '(greedy, s2) :=
          match s1 with
          | String "?" s2 => (false, s2)
          | _ => (true, s1)
          end in
        match s2 with
        | String c _ =>
            if Ascii.eqb c "*" || Ascii.eqb c "?" then Raise ReError
            else if Ascii.eqb c "+"
            then (if greedy then Raise OutsideFragment else Raise ReError)
            else if Ascii.eqb c "{" then Raise OutsideFragment
            else Ret (repeat_of q greedy atom, s2)
        | EmptyString => Ret (repeat_of q greedy atom, s2)
        end
      else if Ascii.eqb q "{" then Raise OutsideFragment
      else Ret (atom, s)
  | EmptyString => Ret (atom, s)
  end.

Definition seq (r1 r2 : regex) : regex :=
  match r2 with REmpty => r1 | _ => RSeq r1 r2 end.

Definition expect_close (s : string) : outcome string :=
  match s with
  | String ")" s' => Ret s'
  | _ => Raise ReError
  end.

(** The parser proper; [n] counts the groups opened so far. *)
Fixpoint parse_alt (fuel : nat) (s : string) (n : nat)
    : outcome (regex * string * nat) :=
  match fuel with
  | 0 => Raise OutsideFragment
  | S fuel' =>
      match parse_seq fuel' s n with
      | Raise e => Raise e
      | Ret (r1, s1, n1) =>
          match s1 with
          | String "|" s2 =>
              match parse_alt fuel' s2 n1 with
              | Raise e => Raise e
              | Ret (r2, s3, n2) => Ret (RAlt r1 r2, s3, n2)
              end
          | _ => Ret (r1, s1, n1)
          end
      end
  end
with parse_seq (fuel : nat) (s : string) (n : nat)
    : outcome (regex * string * nat) :=
  match fuel with
  | 0 => Raise OutsideFragment
  | S fuel' =>
      match s with
      | EmptyString => Ret (REmpty, s, n)
      | String c _ =>
          if Ascii.eqb c "|" || Ascii.eqb c ")" then Ret (REmpty, s, n)
          else
            match parse_atom fuel' s n with
            | Raise e => Raise e
            | Ret (a, s1, n1) =>
                match parse_repeat (Ascii.eqb c "$") a s1 with
                | Raise e => Raise e
                | Ret (q, s2) =>
                    match parse_seq fuel' s2 n1 with
                    | Raise e => Raise e
                    | Ret (rest, s3, n3) => Ret (seq q rest, s3, n3)
                    end
                end
            end
      end
  end
with parse_atom (fuel : nat) (s : string) (n : nat)
    : outcome (regex * string * nat) :=
  match fuel with
  | 0 => Raise OutsideFragment
  | S fuel' =>
      match s with
      | EmptyString => Raise ReError
      | String "(" (String "?" (String "P" (String "<" s1))) =>
          match read_name s1 with
          | Raise e => Raise e
          | Ret (name, s2) =>
              if negb (valid_name name) then Raise ReError else
              match parse_alt fuel' s2 (S n) with
              | Raise e => Raise e
              | Ret (body, s3, n3) =>
                  match expect_close s3 with
                  | Raise e => Raise e
                  | Ret s4 => Ret (RGroup (S n) (Some name) body, s4, n3)
                  end
              end
          end
      | String "(" (String "?" (String ":" s1)) =>
          match parse_alt fuel' s1 n with
          | Raise e => Raise e
          | Ret (body, s3, n3) =>
              match expect_close s3 with
              | Raise e => Raise e
              | Ret s4 => Ret (body, s4, n3)
              end
          end
      | String "(" (String "?" _) => Raise OutsideFragment
      | String "(" s1 =>
          match parse_alt fuel' s1 (S n) with
          | Raise e => Raise e
          | Ret (body, s3, n3) =>
              match expect_close s3 with
              | Raise e => Raise e
              | Ret s4 => Ret (RGroup (S n) None body, s4, n3)
              end
          end
      | String "\" EmptyString => Raise ReError
      | String "\" (String c s1) =>
          match parse_escape c with
          | Raise e => Raise e
          | Ret r => Ret (r, s1, n)
          end
      | String "." s1 => Ret (RSet CAny, s1, n)
      | String "$" s1 => Ret (REnd, s1, n)
      | String c s1 =>
          if is_repeat_char c then Raise ReError
          else if Ascii.eqb c "^" || Ascii.eqb c "[" || Ascii.eqb c "{"
          then Raise OutsideFragment
          else Ret (RSet (CLit c), s1, n)
      end
  end.

Fixpoint group_names (gs : list (nat * option string)) : list string :=
  match gs with
  | [] => []
  | (_, Some name) :: gs' => name :: group_names gs'
  | (_, None) :: gs' => group_names gs'
  end.

Fixpoint has_dup (l : list string) : bool :=
  match l with
  | [] => false
  | x :: l' => existsb (String.eqb x) l' || has_dup l'
  end.

(** A compiled pattern keeps its source text ([regexp.pattern]). *)
Record Pattern : Type := { pattern : string; prog : regex }.

Definition compile (src : string) : outcome Pattern :=
  match parse_alt (3 * String.length src + 3) src 0 with
  | Raise e => Raise e
  | Ret (r, rest, _) =>
      match rest with
      | EmptyString =>
          if has_dup (group_names (groups r)) then Raise ReError
          else Ret {| pattern := src; prog := r |}
      | _ => Raise ReError
      end
  end.

End Re.

(** ** Messages, handlers and registry entries *)

Record Message : Type := {
  author_id : string;
  author_roles : list string;
  channel_name : string;
  (** [isinstance(message.channel, discord.Channel)] *)
  channel_is_server : bool;
  content : string
}.

(** A handler, by what the program asks of it: its [__name__], its
    [getfullargspec], its [get_type_hints], whether it is a coroutine
    function, and how a call (awaited when it is a coroutine) ends: [None]
    when it returns, the exception when it raises. *)
Record Callback : Type := {
  cb_name : string;
  fap_args : list string;
  fap_varargs : option string;
  fap_varkw : option string;
  fap_kwonlyargs : list string;
  cb_type_hints : gmap string PyType;
  cb_coroutine : bool;
  cb_call : Message -> list (string * pyval) -> option Exn
}.

Record Command : Type := {
  channels : option (list string);
  roles : option (list string);
  regexp : option Re.Pattern;
  callback : Callback
}.

Record SubBot : Type := {
  allow_commands : bool;
  fw_callback : Callback
}.

(** ** The world: shared objects and the trace *)

Inductive Level : Type := DEBUG | INFO | WARNING | ERROR.

(** A log record keeps its level and its format string; the values
    interpolated into it are not rendered. *)
Inductive Event : Type :=
| Log (lvl : Level) (fmt : string)
| Forwarded (awaited : bool) (cb : Callback) (m : Message)
| Dispatched (awaited : bool) (cb : Callback) (m : Message)
    (kwargs : list (string * pyval))
| Sent (channel : string) (text : string).

(** The [dict]s that serve as layers of the [__commands__] chains, those of
    the [__forwards__] chains (whose values are references to lists), and
    the list objects themselves, each by address. *)
Record World : Type := {
  command_layers : list (gmap string Command);
  forward_layers : list (gmap string nat);
  forward_lists : list (list SubBot);
  trace : list Event
}.

Definition M (A : Type) : Type := World -> outcome A * World.

Definition ret {A : Type} (a : A) : M A := fun w => (Ret a, w).

Definition raise {A : Type} (e : Exn) : M A := fun w => (Raise e, w).

Definition bind {A B : Type} (m : M A) (f : A -> M B) : M B :=
  fun w =>
    match m w with
    | (Ret a, w') => f a w'
    | (Raise e, w') => (Raise e, w')
    end.

Notation "x <- m ;; k" := (bind m (fun x => k))
  (at level 100, m at next level, right associativity).
Notation "m ;;; k" := (bind m (fun _ => k))
  (at level 100, right associativity).

Definition lift {A : Type} (o : outcome A) : M A := fun w => (o, w).

Definition get_world : M World := fun w => (Ret w, w).

(** The world after the events [evs], its objects untouched. *)
Definition with_trace (w : World) (evs : list Event) : World :=
  {| command_layers := command_layers w;
     forward_layers := forward_layers w;
     forward_lists := forward_lists w;
     trace := trace w ++ evs |}.

Definition emit (e : Event) : M unit := fun w => (Ret tt, with_trace w [e]).

(** [try: body except Exception as exc: handler] *)
Definition try_except {A : Type} (body : M A) (handler : Exn -> M A) : M A :=
  fun w =>
    match body w with
    | (Ret a, w') => (Ret a, w')
    | (Raise e, w') => handler e w'
    end.

(** ** [ChainMap] over a store of layers *)

Section ChainMap.
Context {V : Type}.

Definition layer (store : list (gmap string V)) (l : nat) : gmap string V :=
  default ∅ (store !! l).

(** [chain[key]]: the first layer that has the key wins. *)
Fixpoint chain_getitem (store : list (gmap string V)) (maps : list nat)
    (key : string) : option V :=
  match maps with
  | [] => None
  | l :: ls =>
      match layer store l !! key with
      | Some v => Some v
      | None => chain_getitem store ls key
      end
  end.

(** [key in chain] *)
Definition chain_contains (store : list (gmap string V)) (maps : list nat)
    (key : string) : bool :=
  existsb (fun l => bool_decide (is_Some (layer store l !! key))) maps.

(** [chain.get(key)]: [self[key] if key in self else default] *)
Definition chain_get (store : list (gmap string V)) (maps : list nat)
    (key : string) : option V :=
  if chain_contains store maps key then chain_getitem store maps key
  else None.

(** [chain[key] = v]: always into the first layer. *)
Definition chain_setitem (store : list (gmap string V)) (maps : list nat)
    (key : string) (v : V) : list (gmap string V) :=
  match maps with
  | l :: _ => <[l := <[key := v]> (layer store l)]> store
  | [] => store
  end.
End ChainMap.

(** ** [DispatcherMeta] *)

(** A class made by the metaclass, by its two chains:
    [__commands__.maps] and [__forwards__.maps]. *)
Record Dispatcher : Type := {
  commands_maps : list nat;
  forwards_maps : list nat
}.

Inductive Base : Type :=
| PlainClass
| DispatcherClass (d : Dispatcher).

(** [DispatcherMeta.__new__]: two fresh chains of one empty layer each,
    extended by the layers of every base that is itself a dispatcher. *)
Definition DispatcherMeta_new (bases : list Base) : M Dispatcher :=
  fun w =>
    let maps :=
      fold_left (fun acc b =>
                   match b with
                   | DispatcherClass d => acc ++ commands_maps d
                   | PlainClass => acc
                   end) bases [length (command_layers w)] in
    let maps_fw :=
      fold_left (fun acc b =>
                   match b with
                   | DispatcherClass d => acc ++ forwards_maps d
                   | PlainClass => acc
                   end) bases [length (forward_layers w)] in
    (Ret {| commands_maps := maps; forwards_maps := maps_fw |},
     {| command_layers := command_layers w ++ [∅];
        forward_layers := forward_layers w ++ [∅];
        forward_lists := forward_lists w;
        trace := trace w |}).

(** [args_re = re.compile(r"\(\?P<(\S+?)>")] *)
Definition args_re_source : string := "\(\?P<(\S+?)>".

Definition args_re : Re.regex :=
  Re.RSeq (Re.RSet (Re.CLit "("))
    (Re.RSeq (Re.RSet (Re.CLit "?"))
       (Re.RSeq (Re.RSet (Re.CLit "P"))
          (Re.RSeq (Re.RSet (Re.CLit "<"))
             (Re.RSeq
                (Re.RGroup 1 None (Re.RPlus false (Re.RSet Re.CNonSpace)))
                (Re.RSet (Re.CLit ">")))))).

Definition is_underscore (c : ascii) : bool := Ascii.eqb c "_".

(** [callback.__name__.strip("_")]: the name under which [set_command]
    files a handler. *)
Definition command_name (callback : Callback) : string :=
  strip_by is_underscore (cb_name callback).

(** Truth value of [pattern] in [if pattern]: neither [None] nor empty. *)
Definition pattern_given (pattern : option string) : option string :=
  match pattern with
  | Some EmptyString | None => None
  | Some src => Some src
  end.

(** [re.compile(pattern) if pattern else None] *)
Definition compile_pattern (pattern : option string)
    : outcome (option Re.Pattern) :=
  match pattern_given pattern with
  | Some src =>
      match Re.compile src with
      | Ret p => Ret (Some p)
      | Raise e => Raise e
      end
  | None => Ret None
  end.

Definition store_commands (cl : list (gmap string Command)) : M unit :=
  fun w =>
    (Ret tt,
     {| command_layers := cl;
        forward_layers := forward_layers w;
        forward_lists := forward_lists w;
        trace := trace w |}).

(** The check of the pattern's named groups against the handler's
    keyword-only parameters.  The warning branch formats its message with
    the name [unused], which is bound nowhere (the local is spelled
    [unsued]): evaluating it raises [NameError]. *)
Definition check_pattern_args (src : string) (callback : Callback) : M unit :=
  let pargs : gset string := list_to_set (Re.findall args_re src) in
  let kwoargs : gset string := list_to_set (fap_kwonlyargs callback) in
  let missings := pargs ∖ kwoargs in
  if bool_decide (missings ≠ ∅) then
    raise (ValueError (GroupsDontFit missings))
  else
    let unsued := kwoargs ∖ pargs in
    if bool_decide (unsued ≠ ∅) then raise (NameError "unused")
    else ret tt.

(** The record that [set_command] logs first. *)
Definition registering : Event :=
  Log INFO "Register command '%s' in %s usable by %s with%s for callback %s.".

Definition set_command (cls : Dispatcher) (channels roles : option (list string))
    (pattern : option string) (callback : Callback) : M unit :=
  let cmd_name := command_name callback in
  emit registering ;;;
  (if (length (fap_args callback) <? 1)%nat
      && negb (bool_decide (is_Some (fap_varargs callback)))
   then raise (ValueError IncorrectSignature)
   else ret tt) ;;;
  (match pattern_given pattern, fap_varkw callback with
   | Some src, None => check_pattern_args src callback
   | _, _ => ret tt
   end) ;;;
  compiled <- lift (compile_pattern pattern) ;;
  w <- get_world ;;
  store_commands
    (chain_setitem (command_layers w) (commands_maps cls) cmd_name
       {| channels := channels; roles := roles;
          regexp := compiled; callback := callback |}).

(** [cls.__forwards__[channel] = []]: a new list object, bound in the
    first layer. *)
Definition bind_new_list (cls : Dispatcher) (channel : string) : M unit :=
  fun w =>
    (Ret tt,
     {| command_layers := command_layers w;
        forward_layers :=
          chain_setitem (forward_layers w) (forwards_maps cls) channel
            (length (forward_lists w));
        forward_lists := forward_lists w ++ [[]];
        trace := trace w |}).

(** [cls.__forwards__[channel].append(sub)]: the list that the chain
    resolves the channel to is extended in place. *)
Definition append_to_list (cls : Dispatcher) (channel : string) (sub : SubBot)
    : M unit :=
  fun w =>
    match chain_getitem (forward_layers w) (forwards_maps cls) channel with
    | None => (Raise (OtherError "KeyError"), w)
    | Some a =>
        (Ret tt,
         {| command_layers := command_layers w;
            forward_layers := forward_layers w;
            forward_lists :=
              <[a := default [] (forward_lists w !! a) ++ [sub]]>
                (forward_lists w);
            trace := trace w |})
    end.

Fixpoint add_forward (cls : Dispatcher) (channels : list string)
    (allow_commands : bool) (callback : Callback) : M unit :=
  match channels with
  | [] => ret tt
  | channel :: rest =>
      emit (Log INFO "Forward message from {channel} to {callback}.") ;;;
      w <- get_world ;;
      (if chain_contains (forward_layers w) (forwards_maps cls) channel
       then ret tt
       else bind_new_list cls channel) ;;;
      append_to_list cls channel
        {| allow_commands := allow_commands; fw_callback := callback |} ;;;
      add_forward cls rest allow_commands callback
  end.


(** ** The dispatch engine *)

Record Client : Type := {
  (** [self.user.id] *)
  user_id : string;
  (** the class of the client: [self.dispatcher] and [self.forwarder] are
      the chains of that class *)
  cls_of : Dispatcher
}.

(** [x in container] for a container of strings. *)
Definition str_in (x : string) (l : list string) : bool :=
  existsb (String.eqb x) l.

(** [cmd_name, *payload = parts] followed by
    [payload = payload[0] if payload else ""]. *)
Definition unpack (parts : list string) : outcome (string * string) :=
  match parts with
  | [] => Raise (ValueError NotEnoughValues)
  | cmd_name :: payload =>
      Ret (cmd_name, match payload with p :: _ => p | [] => EmptyString end)
  end.

(** Calling a handler: the call is recorded, then it returns or raises. *)
Definition call_forward (cb : Callback) (message : Message) : M unit :=
  emit (Forwarded (cb_coroutine cb) cb message) ;;;
  match cb_call cb message [] with
  | Some e => raise e
  | None => ret tt
  end.

Definition call_command (cb : Callback) (message : Message)
    (kwargs : list (string * pyval)) : M unit :=
  emit (Dispatched (cb_coroutine cb) cb message kwargs) ;;;
  match cb_call cb message kwargs with
  | Some e => raise e
  | None => ret tt
  end.

(** The forwarding loop; [false] when a subscription without
    [allow_commands] ended the handling of the message. *)
Fixpoint forward_loop (subs : list SubBot) (message : Message) : M bool :=
  match subs with
  | [] => ret true
  | subbot :: rest =>
      emit (Log INFO "Forward to '{subbot.callback}'") ;;;
      call_forward (fw_callback subbot) message ;;;
      if negb (allow_commands subbot) then ret false
      else forward_loop rest message
  end.

(** [self.forwarder.get(message.channel.name, [])] *)
Definition forwarder_get (w : World) (cls : Dispatcher) (channel : string)
    : list SubBot :=
  match chain_get (forward_layers w) (forwards_maps cls) channel with
  | Some a => default [] (forward_lists w !! a)
  | None => []
  end.

(** [self.dispatcher.get(cmd_name)] *)
Definition dispatcher_get (w : World) (cls : Dispatcher) (cmd_name : string)
    : option Command :=
  chain_get (command_layers w) (commands_maps cls) cmd_name.

(** The log record of a pattern that does not match. *)
Definition syntax_warning : Event :=
  Log WARNING ("Syntaxe error in command " +:+ dquote +:+ "{cmd_name}"
               +:+ dquote +:+ ".").

(** The first record that [on_message] logs. *)
Definition received : Event :=
  Log DEBUG
    "Message from {message.author} on {message.channel}: {message.content}".

Section Engine.
(** [PREFIX] comes from the configuration; [show_scope] is how Python
    prints the container that holds a command's channels or roles. *)
Variable PREFIX : string.
Variable show_scope : list string -> string.

Definition mention (self : Client) : string :=
  "<@" +:+ user_id self +:+ ">".

(** How the text invokes a command: [Ret None] when it does not. *)
Definition detect (self : Client) (message : Message)
    : outcome (option (string * string)) :=
  if startswith (content message) PREFIX then
    match unpack (split_on " " 1 (str_drop1 (content message))) with
    | Ret c => Ret (Some c)
    | Raise e => Raise e
    end
  else if startswith (content message) (mention self) then
    match unpack (tail (split_on " " 2 (content message))) with
    | Ret c => Ret (Some c)
    | Raise e => Raise e
    end
  else if channel_is_server message then Ret None
  else
    match unpack (split_on " " 1 (content message)) with
    | Ret c => Ret (Some c)
    | Raise e => Raise e
    end.

Definition addressed (message : Message) (cmd_name : string) : string :=
  "<@" +:+ author_id message +:+ ">, la commande " +:+ dquote
    +:+ cmd_name +:+ dquote.

Definition unknown_text (message : Message) (cmd_name : string) : string :=
  addressed message cmd_name
    +:+ " n'existe pas. Faites `!help` pour la liste des commandes.".

Definition channel_text (message : Message) (cmd_name : string)
    (cmd : Command) : string :=
  addressed message cmd_name
    +:+ " n'est disponible que dans les salons suivants: "
    +:+ show_scope (default [] (channels cmd)) +:+ ".".

Definition role_text (message : Message) (cmd_name : string)
    (cmd : Command) : string :=
  addressed message cmd_name
    +:+ " n'est disponible que pour les roles suivants: "
    +:+ show_scope (default [] (roles cmd)) +:+ ".".

Definition usage_text (message : Message) (cmd_name : string)
    (p : Re.Pattern) : string :=
  addressed message cmd_name
    +:+ " n'a pas pu " +:+ chr 234 +:+ "tre ex" +:+ chr 233 +:+ "cut"
    +:+ chr 233 +:+ "e car elle r" +:+ chr 233
    +:+ "pond au pattern suivant: ```" +:+ Re.pattern p +:+ dquote +:+ "```".

Definition channel_allowed (cmd : Command) (message : Message) : bool :=
  match channels cmd with
  | None => true
  | Some cs => str_in (channel_name message) cs
  end.

Definition role_allowed (cmd : Command) (message : Message) : bool :=
  match roles cmd with
  | None => true
  | Some rs => existsb (fun role => str_in role rs) (author_roles message)
  end.

(** Lines 142 to 164: pattern match, cast, guarded call. *)
Definition run_command (cmd_name payload : string) (cmd : Command)
    (message : Message) : M unit :=
  match regexp cmd with
  | Some p =>
      match Re.re_match (Re.prog p) payload with
      | None =>
          emit syntax_warning ;;;
          emit (Sent (channel_name message) (usage_text message cmd_name p))
      | Some m =>
          kwargs <- lift (cast_using_type_hints
                            (cb_type_hints (callback cmd))
                            (Re.groupdict (Re.prog p) m)) ;;
          emit (Log DEBUG "Dispatch to '%s' with kwargs %s") ;;;
          try_except (call_command (callback cmd) message kwargs)
            (fun exc =>
               emit (Log ERROR "Error in dispatched command.") ;;;
               emit (Sent (channel_name message) "Internal error..."))
      end
  | None =>
      emit (Log DEBUG "Dispatch to '%s' with payload '%s'") ;;;
      try_except (call_command (callback cmd) message [])
        (fun exc =>
           emit (Log ERROR "Error in dispatched command.") ;;;
           emit (Sent (channel_name message) "Internal error..."))
  end.

(** Lines 126 to 140: resolution and the two scope checks. *)
Definition resolve_and_run (self : Client) (cmd_name payload : string)
    (message : Message) : M unit :=
  w <- get_world ;;
  match dispatcher_get w (cls_of self) cmd_name with
  | None =>
      emit (Log WARNING ("Command " +:+ dquote +:+ "{cmd_name}" +:+ dquote
                         +:+ " not found.")) ;;;
      emit (Sent (channel_name message) (unknown_text message cmd_name))
  | Some cmd =>
      if negb (channel_allowed cmd message) then
        emit (Log WARNING
                ("The command " +:+ dquote +:+ "{cmd_name}" +:+ dquote
                 +:+ " is not available in the channel '{message.channel}'.")) ;;;
        emit (Sent (channel_name message)
                (channel_text message cmd_name cmd))
      else if negb (role_allowed cmd message) then
        emit (Log WARNING
                ("The user {message.author} doesn't have the role needed to execute the command "
                 +:+ dquote +:+ "{cmd_name}" +:+ dquote +:+ ".")) ;;;
        emit (Sent (channel_name message) (role_text message cmd_name cmd))
      else run_command cmd_name payload cmd message
  end.

Definition on_message (self : Client) (message : Message) : M unit :=
  if String.eqb (author_id message) (user_id self) then ret tt else
  emit received ;;;
  w <- get_world ;;
  go <- forward_loop (forwarder_get w (cls_of self) (channel_name message))
          message ;;
  if negb go then ret tt else
  invocation <- lift (detect self message) ;;
  match invocation with
  | None => ret tt
  | Some (cmd_name, payload) => resolve_and_run self cmd_name payload message
  end.
End Engine.

(** * Vocabulary of the statements *)

(** ** The forwarding loop as functions of the list

    [invoked subs message] is the initial segment of [subs] that gets
    called: it ends with the first subscription whose call raises or that
    does not allow commands. *)

Definition raises (sub : SubBot) (message : Message) : bool :=
  bool_decide (is_Some (cb_call (fw_callback sub) message [])).

Fixpoint invoked (subs : list SubBot) (message : Message) : list SubBot :=
  match subs with
  | [] => []
  | sub :: rest =>
      sub :: (if raises sub message || negb (allow_commands sub) then []
              else invoked rest message)
  end.

Fixpoint forward_result (subs : list SubBot) (message : Message)
    : outcome bool :=
  match subs with
  | [] => Ret true
  | sub :: rest =>
      match cb_call (fw_callback sub) message [] with
      | Some e => Raise e
      | None =>
          if negb (allow_commands sub) then Ret false
          else forward_result rest message
      end
  end.

Definition forward_events (subs : list SubBot) (message : Message)
    : list Event :=
  flat_map (fun sub =>
              [Log INFO "Forward to '{subbot.callback}'";
               Forwarded (cb_coroutine (fw_callback sub)) (fw_callback sub)
                 message]) subs.

(** The events of a guarded call of a command's handler. *)
Definition call_events (cmd : Command) (message : Message)
    (kwargs : list (string * pyval)) : list Event :=
  Dispatched (cb_coroutine (callback cmd)) (callback cmd) message kwargs
    :: match cb_call (callback cmd) message kwargs with
       | Some _ =>
           [Log ERROR "Error in dispatched command.";
            Sent (channel_name message) "Internal error..."]
       | None => []
       end.

Definition is_forwarded (e : Event) : bool :=
  match e with Forwarded _ _ _ => true | _ => false end.

Definition is_dispatched (e : Event) : bool :=
  match e with Dispatched _ _ _ _ => true | _ => false end.

Definition is_sent (e : Event) : bool :=
  match e with Sent _ _ => true | _ => false end.

Definition not_forwarded (e : Event) : Prop := is_forwarded e = false.

(** A computation all of whose new events satisfy [P]. *)
Definition emits_only {A : Type} (P : Event -> Prop) (m : M A) : Prop :=
  forall w, exists evs, (m w).2 = with_trace w evs /\ Forall P evs.

(** ** Registrations *)

(** A sequence of [@cls.forward(channel, allow_commands=...)] decorations,
    in program order. *)
Fixpoint register_forwards (cls : Dispatcher) (channel : string)
    (regs : list (bool * Callback)) : M unit :=
  match regs with
  | [] => ret tt
  | (allow, cb) :: rest =>
      add_forward cls [channel] allow cb ;;;
      register_forwards cls channel rest
  end.

Definition subbot_of (reg : bool * Callback) : SubBot :=
  {| allow_commands := reg.1; fw_callback := reg.2 |}.

(** The class has a first layer in the store, and the list that the
    channel resolves to, if any, is in the store. *)
Definition forward_ready (w : World) (cls : Dispatcher) (channel : string)
    : Prop :=
  (exists own rest,
      forwards_maps cls = own :: rest /\ own < length (forward_layers w))
  /\ (forall a,
        chain_getitem (forward_layers w) (forwards_maps cls) channel = Some a ->
        a < length (forward_lists w)).

Definition entry (channels roles : option (list string))
    (re : option Re.Pattern) (callback : Callback) : Command :=
  {| channels := channels; roles := roles; regexp := re; callback := callback |}.

(** The named groups that [set_command] finds in a pattern and that are
    not among the keyword-only parameters of the handler. *)
Definition missings_of (src : string) (callback : Callback) : gset string :=
  list_to_set (Re.findall args_re src) ∖ list_to_set (fap_kwonlyargs callback).

(** The signature check of [set_command] passes. *)
Definition accepts_message (callback : Callback) : Prop :=
  fap_args callback <> [] \/ is_Some (fap_varargs callback).

(** The first layer of a class's command chain: its own command table. *)
Definition own_commands (cls : Dispatcher) : nat := hd 0 (commands_maps cls).

(** [d] is the class [a] or was made from bases that descend from it: the
    own table of [a] is one of the layers of [d]. *)
Definition inherits (d a : Dispatcher) : Prop :=
  own_commands a ∈ commands_maps d.

Definition base_inherits (b : Base) (a : Dispatcher) : Prop :=
  match b with
  | DispatcherClass d => inherits d a
  | PlainClass => False
  end.

(** ** The cast and the text *)

(** How one entry of the result of the cast relates to the captured value
    it comes from. *)
Definition cast_entry (type_hints : gmap string PyType)
    (raw : string * option string) (typed : string * pyval) : Prop :=
  typed.1 = raw.1
  /\ match raw.2 with
     | None => typed.2 = VNone
     | Some s =>
         match type_hints !! raw.1 with
         | Some ty => ty s = Ret typed.2
         | None => typed.2 = VStr s
         end
     end.

(** [" " in s] *)
Fixpoint has_space (s : string) : bool :=
  match s with
  | EmptyString => false
  | String c s' => Ascii.eqb c " " || has_space s'
  end.

(** The first whitespace-delimited token after the prefix, as the
    specification words it: the text after the prefix, without the white
    space in front of it, up to the next white space. *)
Fixpoint take_token (s : string) : string :=
  match s with
  | EmptyString => EmptyString
  | String c s' => if is_space c then EmptyString else String c (take_token s')
  end.

Fixpoint str_drop (n : nat) (s : string) : string :=
  match n, s with
  | S n', String _ s' => str_drop n' s'
  | _, _ => s
  end.

Definition first_token_after (prefix text : string) : string :=
  take_token (lstrip_by is_space (str_drop (String.length prefix) text)).

(** * Test inputs *)

(** ** Handlers *)

(** [async def name(message, *, kwonly...)] with the given type hints; a
    call returns, or raises when [result] says so. *)
Definition handler (name : string) (kwonly : list string)
    (hints : gmap string PyType) (result : option Exn) : Callback :=
  {| cb_name := name;
     fap_args := ["message"];
     fap_varargs := None;
     fap_varkw := None;
     fap_kwonlyargs := kwonly;
     cb_type_hints := hints;
     cb_coroutine := true;
     cb_call := fun _ _ => result |}.

Definition spy (name : string) : Callback := handler name [] ∅ None.

(** [async def add(message, *, n: int)] registered with the pattern
    [(?P<n>\S+)]. *)
Definition add_handler : Callback :=
  handler "add" ["n"] {[ "n" := py_int ]} None.

Definition add_pattern : string := "(?P<n>\S+)".

Definition add_compiled : Re.Pattern :=
  {| Re.pattern := add_pattern;
     Re.prog := Re.RGroup 1 (Some "n") (Re.RPlus true (Re.RSet Re.CNonSpace)) |}.

(** The same signature with a body that raises. *)
Definition failing_handler : Callback :=
  handler "add" ["n"] {[ "n" := py_int ]} (Some (OtherError "RuntimeError")).

(** [async def kick(message, *, user, reason)] registered with a pattern
    that names [user] only. *)
Definition kick_handler : Callback := handler "kick" ["user"; "reason"] ∅ None.

Definition kick_pattern : string := "(?P<user>\S+)".

(** [def nop(): ...] *)
Definition no_parameter_handler : Callback :=
  {| cb_name := "nop"; fap_args := []; fap_varargs := None;
     fap_varkw := None; fap_kwonlyargs := []; cb_type_hints := ∅;
     cb_coroutine := false; cb_call := fun _ _ => None |}.

(** [async def help_(message, *_, cmd_name: str = "")] and its pattern, as
    the program registers them. *)
Definition help_handler : Callback :=
  {| cb_name := "help_"; fap_args := ["message"]; fap_varargs := Some "_";
     fap_varkw := None; fap_kwonlyargs := ["cmd_name"];
     cb_type_hints := {[ "cmd_name" := py_str ]};
     cb_coroutine := true; cb_call := fun _ _ => None |}.

Definition help_pattern : string := "(?P<cmd_name>\S+)?".

Definition help_compiled : Re.Pattern :=
  {| Re.pattern := help_pattern;
     Re.prog :=
       Re.RAlt
         (Re.RGroup 1 (Some "cmd_name") (Re.RPlus true (Re.RSet Re.CNonSpace)))
         Re.REmpty |}.


(** [ping] as a parent class defines it and as a child redefines it. *)
Definition parent_ping : Callback := handler "ping" [] ∅ None.

Definition child_ping : Callback :=
  handler "_ping_" [] ∅ (Some (OtherError "NotImplementedError")).

(** ** Classes, clients and messages *)

Definition empty_world : World :=
  {| command_layers := []; forward_layers := [];
     forward_lists := []; trace := [] |}.

(** The world with one class, [TheNumberOne(discord.Client)], and nothing
    registered yet. *)
Definition fresh_world : World :=
  {| command_layers := [∅]; forward_layers := [∅];
     forward_lists := []; trace := [] |}.

Definition the_class : Dispatcher :=
  {| commands_maps := [0]; forwards_maps := [0] |}.

(** A child class of [the_class], as [DispatcherMeta.__new__] makes it in
    [fresh_world], and the world after that. *)
Definition child_class : Dispatcher :=
  {| commands_maps := [1; 0]; forwards_maps := [1; 0] |}.

Definition two_class_world : World :=
  {| command_layers := [∅; ∅]; forward_layers := [∅; ∅];
     forward_lists := []; trace := [] |}.

Definition the_bot : Client := {| user_id := "42"; cls_of := the_class |}.

(** A client whose own id is that of the author of the test messages. *)
Definition pong_bot : Client := {| user_id := "7"; cls_of := the_class |}.

Definition text_in (channel text : string) : Message :=
  {| author_id := "7"; author_roles := ["member"];
     channel_name := channel; channel_is_server := true; content := text |}.


Definition show_nothing (scope : list string) : string := EmptyString.


(** ** Worlds after some registrations *)

Definition add_registered : World :=
  (set_command the_class None None (Some add_pattern) add_handler
     fresh_world).2.

Definition failing_registered : World :=
  (set_command the_class None None (Some add_pattern) failing_handler
     fresh_world).2.

Definition help_registered : World :=
  (set_command the_class None None (Some help_pattern) help_handler
     fresh_world).2.

(** The two-class world after the parent, respectively the child, has
    registered its [ping]. *)
Definition parent_registered : World :=
  (set_command the_class None None None parent_ping two_class_world).2.

Definition child_registered : World :=
  (set_command child_class None None None child_ping two_class_world).2.

(** Three subscriptions registered on [general], the second one without
    [allow_commands]. *)
Definition three_forwards : World :=
  (register_forwards the_class "general"
     [(true, spy "s1"); (false, spy "s2"); (true, spy "s3")] fresh_world).2.

(** A parent class with one forward on [general], then a child class that
    registers its own forward on the same channel. *)
Definition parent_then_child (parent_cb child_cb : Callback)
    : M (Dispatcher * Dispatcher) :=
  parent <- DispatcherMeta_new [PlainClass] ;;
  add_forward parent ["general"] true parent_cb ;;;
  child <- DispatcherMeta_new [DispatcherClass parent] ;;
  add_forward child ["general"] true child_cb ;;;
  ret (parent, child).

Definition family_world : World :=
  (parent_then_child (spy "parent_spy") (spy "child_spy") empty_world).2.

(** * Further vocabulary: the remaining stages of the engine *)

(** The log records of the three denials and of a call without pattern. *)
Definition not_found_warning : Event :=
  Log WARNING ("Command " +:+ dquote +:+ "{cmd_name}" +:+ dquote
               +:+ " not found.").

Definition channel_warning : Event :=
  Log WARNING
    ("The command " +:+ dquote +:+ "{cmd_name}" +:+ dquote
     +:+ " is not available in the channel '{message.channel}'.").

Definition role_warning : Event :=
  Log WARNING
    ("The user {message.author} doesn't have the role needed to execute the command "
     +:+ dquote +:+ "{cmd_name}" +:+ dquote +:+ ".").

Definition payload_dispatch : Event :=
  Log DEBUG "Dispatch to '%s' with payload '%s'".

Definition kwargs_dispatch : Event :=
  Log DEBUG "Dispatch to '%s' with kwargs %s".

(** How many events of a list satisfy a test. *)
Definition count_events (p : Event -> bool) (evs : list Event) : nat :=
  length (List.filter p evs).

(** A reply of the engine goes to the channel of the message. *)
Definition replies_to (message : Message) (e : Event) : Prop :=
  forall channel text, e = Sent channel text -> channel = channel_name message.

(** What [on_message] returns when only the forwards ran. *)
Definition after_forwards (r : outcome bool) : outcome unit :=
  match r with
  | Raise e => Raise e
  | Ret _ => Ret tt
  end.

(** [kick], usable in [staff] only and by [admin] only. *)
Definition kick_entry : Command :=
  entry (Some ["staff"]) (Some ["admin"]) None (spy "kick").

Definition scoped_registered : World :=
  (set_command the_class (Some ["staff"]) (Some ["admin"]) None (spy "kick")
     fresh_world).2.

(** A text sent to the client in a private channel. *)
Definition dm_text (text : string) : Message :=
  {| author_id := "7"; author_roles := [];
     channel_name := "dm"; channel_is_server := false; content := text |}.

(** A subscription whose handler raises, and the world where it stands
    between two others on [general]. *)
Definition broken_spy : Callback :=
  handler "broken" [] ∅ (Some (OtherError "RuntimeError")).

Definition broken_forwards : World :=
  (register_forwards the_class "general"
     [(true, spy "s1"); (true, broken_spy); (true, spy "s3")] fresh_world).2.

(** A subscription is passed by the loop: its call returns and it allows
    commands. *)
Definition passes (message : Message) (sub : SubBot) : Prop :=
  raises sub message = false /\ allow_commands sub = true.

(** * Further vocabulary: the registries *)

(** The first layer of a class's forward chain. *)
Definition own_forwards (cls : Dispatcher) : nat := hd 0 (forwards_maps cls).

(** The first of two lookups that succeeds. *)
Definition first_some {A : Type} (x y : option A) : option A :=
  match x with Some a => Some a | None => y end.

(** What the bases of a class resolve a command name to, the bases taken
    in the order of the class statement. *)
Fixpoint bases_get (w : World) (bases : list Base) (name : string)
    : option Command :=
  match bases with
  | [] => None
  | PlainClass :: rest => bases_get w rest name
  | DispatcherClass d :: rest =>
      first_some (dispatcher_get w d name) (bases_get w rest name)
  end.

(** The same for the list of a channel. *)
Fixpoint bases_forward (w : World) (bases : list Base) (channel : string)
    : option nat :=
  match bases with
  | [] => None
  | PlainClass :: rest => bases_forward w rest channel
  | DispatcherClass d :: rest =>
      first_some (chain_get (forward_layers w) (forwards_maps d) channel)
        (bases_forward w rest channel)
  end.

(** A class whose layers are all in the stores of the world. *)
Definition class_in (w : World) (cls : Dispatcher) : Prop :=
  commands_maps cls <> [] /\ forwards_maps cls <> []
  /\ Forall (fun l => l < length (command_layers w)) (commands_maps cls)
  /\ Forall (fun l => l < length (forward_layers w)) (forwards_maps cls).

(** The forward store is sound: every list that a layer refers to is in
    the store, and no list is referred to from two places. *)
Definition lists_ok (w : World) : Prop :=
  (forall l m c a,
      forward_layers w !! l = Some m -> m !! c = Some a ->
      a < length (forward_lists w))
  /\ (forall l l' m m' c c' a,
        forward_layers w !! l = Some m -> forward_layers w !! l' = Some m' ->
        m !! c = Some a -> m' !! c' = Some a ->
        l = l' /\ c = c').

(** How often a channel is named in a call of [forward]. *)
Definition times_named (channel : string) (channels : list string) : nat :=
  length (List.filter (String.eqb channel) channels).

Definition base_in (w : World) (b : Base) : Prop :=
  match b with
  | DispatcherClass d => class_in w d
  | PlainClass => True
  end.

(** The list object behind an address of the forward store. *)
Definition list_at (w : World) (a : option nat) : list SubBot :=
  match a with
  | Some a => default [] (forward_lists w !! a)
  | None => []
  end.

(** The one-class world after the class has registered [ping]. *)
Definition parent_seeded : World :=
  (set_command the_class None None None parent_ping fresh_world).2.

(** The log record of [add_forward] for one channel. *)
Definition forwarding : Event :=
  Log INFO "Forward message from {channel} to {callback}.".

(** The named groups of the pattern and the keyword-only parameters of
    the handler are the same names, where [set_command] compares them: for
    a non-empty pattern and a handler without [**kwargs]. *)
Definition groups_fit (pattern : option string) (callback : Callback) : Prop :=
  match pattern_given pattern, fap_varkw callback with
  | Some src, None =>
      (list_to_set (Re.findall args_re src) : gset string)
      = list_to_set (fap_kwonlyargs callback)
  | _, _ => True
  end.

(** The world after [set_command] has written its entry. *)
Definition stored (cls : Dispatcher) (cmd : Command) (w : World) : World :=
  {| command_layers :=
       chain_setitem (command_layers w) (commands_maps cls)
         (command_name (callback cmd)) cmd;
     forward_layers := forward_layers w;
     forward_lists := forward_lists w;
     trace := trace w ++ [registering] |}.

(** Why a registration can fail, by the stage that raises. *)
Inductive refusal (pattern : option string) (callback : Callback)
    : Exn -> Prop :=
| refused_signature :
    ~ accepts_message callback ->
    refusal pattern callback (ValueError IncorrectSignature)
| refused_groups (src : string) :
    accepts_message callback ->
    pattern_given pattern = Some src -> fap_varkw callback = None ->
    missings_of src callback <> ∅ ->
    refusal pattern callback
      (ValueError (GroupsDontFit (missings_of src callback)))
| refused_warning (src : string) :
    accepts_message callback ->
    pattern_given pattern = Some src -> fap_varkw callback = None ->
    missings_of src callback = ∅ ->
    ~ groups_fit pattern callback ->
    refusal pattern callback (NameError "unused")
| refused_compile (e : Exn) :
    accepts_message callback -> groups_fit pattern callback ->
    compile_pattern pattern = Raise e ->
    refusal pattern callback e.

(** Every character of the string passes the test. *)
Fixpoint all_by (p : ascii -> bool) (s : string) : bool :=
  match s with
  | EmptyString => true
  | String c s' => p c && all_by p s'
  end.

(** * The built-in commands *)

(** [sep.join(parts)] *)
Fixpoint join (sep : string) (parts : list string) : string :=
  match parts with
  | [] => EmptyString
  | [x] => x
  | x :: rest => x +:+ sep +:+ join sep rest
  end.

(** Truth value of a keyword argument in [if cmd_name]. *)
Definition truthy (v : pyval) : bool :=
  match v with
  | VNone => false
  | VStr s => negb (String.eqb s EmptyString)
  | VInt z => negb (z =? 0)%Z
  | VBool b => b
  end.

(** The usage line that [help_] builds from the named groups of a
    pattern: a group whose parameter has a default is shown in square
    brackets, any other in angle brackets.  [kwonlydefaults] is [None]
    for a handler without defaults. *)
Definition cli_of (kwonlydefaults : option (list string))
    (args : list string) : string :=
  match kwonlydefaults with
  | Some (d :: ds) =>
      join " "
        (map (fun arg =>
                if str_in arg (d :: ds) then "[" +:+ arg +:+ "]"
                else "<" +:+ arg +:+ ">") args)
  | _ => join " " (map (fun arg => "<" +:+ arg +:+ ">") args)
  end.

Section Builtins.
(** [kwonlydefaults] is [getfullargspec(callback).kwonlydefaults] by its
    keys; [help_text] stands for the formatted and dedented text of the
    help of one command, given the name asked for, the entry and the usage
    line; [listing] for [" ".join(thenumberone.dispatcher.keys())]. *)
Variable kwonlydefaults : Callback -> option (list string).
Variable help_text : pyval -> Command -> string -> string.
Variable listing : World -> Dispatcher -> string.

(** [thenumberone.dispatcher.get(cmd_name)]: the tables have strings as
    keys, any other key is not found. *)
Definition dispatcher_get_value (w : World) (cls : Dispatcher)
    (cmd_name : pyval) : option Command :=
  match cmd_name with
  | VStr s => dispatcher_get w cls s
  | _ => None
  end.

(** [help_]: the body of the handler.  The reply for an unknown command
    is formatted with the name [command], which is bound nowhere; the
    pattern of the entry is read through [cmd.regexp.pattern] without a
    test of [cmd.regexp]; [cli] is bound only under [if
    cmd.regexp.pattern]. *)
Definition help_ (thenumberone : Client) (message : Message)
    (cmd_name : pyval) : M unit :=
  if truthy cmd_name then
    w <- get_world ;;
    match dispatcher_get_value w (cls_of thenumberone) cmd_name with
    | None => raise (NameError "command")
    | Some cmd =>
        match regexp cmd with
        | None => raise (OtherError "AttributeError")
        | Some p =>
            let cli :=
              if negb (String.eqb (Re.pattern p) EmptyString)
              then Some (cli_of (kwonlydefaults (callback cmd))
                           (Re.findall args_re (Re.pattern p)))
              else None in
            match cli with
            | None => raise (OtherError "UnboundLocalError")
            | Some cli =>
                emit (Sent (channel_name message)
                        (help_text cmd_name cmd cli))
            end
        end
    end
  else
    w <- get_world ;;
    emit (Sent (channel_name message)
            ("Commandes disponibles: " +:+ listing w (cls_of thenumberone))).
End Builtins.

(** [async def ping(message)], as the program registers it. *)
Definition ping_handler : Callback := handler "ping" [] ∅ None.

(** The world after the two registrations of the module:
    [@TheNumberOne.register(None, None, None)] on [ping], then
    [@TheNumberOne.register(None, None, pattern)] on [help_]. *)
Definition module_world : World :=
  (set_command the_class None None (Some help_pattern) help_handler
     (set_command the_class None None None ping_handler fresh_world).2).2.

(** * Start-up: [on_ready] *)

(** [s.endswith(suffix)] *)
Fixpoint endswith (s suffix : string) : bool :=
  String.eqb s suffix
  || match s with
     | String _ s' => endswith s' suffix
     | EmptyString => false
     end.

Fixpoint str_take (n : nat) (s : string) : string :=
  match n, s with
  | S n', String c s' => String c (str_take n' s')
  | _, _ => EmptyString
  end.

(** [s[:-n]] for [n > 0] *)
Definition drop_end (n : nat) (s : string) : string :=
  str_take (String.length s - n) s.

(** What [on_ready] does to the outside, in order: the call of
    [change_presence], log records (with the file or module they name),
    calls of [__import__], and the call of [purge_from] with the channel
    that was found. *)
Inductive Startup : Type :=
| Presence (game : string)
| Note (lvl : Level) (fmt : string) (arg : string)
| Import (module : string)
| Purge (channel : option string).

Record Bot : Type := {
  connected_ : bool;
  startup_log : list Startup
}.

(** The modules that [__import__] was called on. *)
Definition imports (log : list Startup) : list string :=
  omap (fun e => match e with Import m => Some m | _ => None end) log.

Section Startup.
(** The surroundings of [on_ready]: the prefix and the path separator,
    what [listdir("plugins")] gives or raises, [isfile], how the import
    of a module ends given the modules imported before it, the channel
    names of each server, and how [purge_from] ends. *)
Variable PREFIX : string.
Variable sep : string.
Variable listdir : outcome (list string).
Variable isfile : string -> bool.
Variable import_ : list string -> string -> option Exn.
Variable servers : list (list string).
Variable purge_from : option string -> option Exn.

(** The module name of a file that [on_ready] takes for a plugin. *)
Definition plugin_of (file : string) : option string :=
  if isfile ("plugins" +:+ sep +:+ file)
     && negb (String.eqb file "__init__.py")
     && endswith file ".py"
  then Some ("plugins." +:+ drop_end 3 file)
  else None.

(** The loop over the directory: it ends with the first import that
    raises. *)
Fixpoint load_plugins (files : list string) (log : list Startup)
    : outcome unit * list Startup :=
  match files with
  | [] => (Ret tt, log)
  | file :: rest =>
      match plugin_of file with
      | Some module =>
          let log1 :=
            log ++ [Note INFO "Load plugin '{file[:-3]}'" (drop_end 3 file);
                    Import module] in
          match import_ (imports log) module with
          | Some e => (Raise e, log1)
          | None => load_plugins rest log1
          end
      | None => load_plugins rest (log ++ [Note INFO "Skip {file}" file])
      end
  end.

Definition on_ready (self : Bot) : outcome unit * Bot :=
  if connected_ self then (Ret tt, self)
  else
    let log0 :=
      startup_log self
        ++ [Presence (PREFIX +:+ "help");
            Note INFO "Connected. Loading plugins..." EmptyString] in
    let loaded :=
      match listdir with
      | Ret files => load_plugins files log0
      | Raise e => (Raise e, log0)
      end in
    let log1 :=
      match loaded.1 with
      | Ret _ => loaded.2
      | Raise _ => loaded.2 ++ [Note ERROR ":(" EmptyString]
      end in
    let log2 := log1 ++ [Note INFO "Done in %ss" EmptyString] in
    match servers with
    | [] =>
        (Raise (OtherError "IndexError"),
         {| connected_ := true; startup_log := log2 |})
    | channels :: _ =>
        let target := List.find (String.eqb "test-bot") channels in
        (match purge_from target with
         | Some e => Raise e
         | None => Ret tt
         end,
         {| connected_ := true; startup_log := log2 ++ [Purge target] |})
    end.
End Startup.

(** The imports that are attempted among the modules [modules], in
    order: up to and including the first one that raises. *)
Fixpoint attempted (import_ : list string -> string -> option Exn)
    (before : list string) (modules : list string) : list string :=
  match modules with
  | [] => []
  | m :: rest =>
      m :: match import_ before m with
           | Some _ => []
           | None => attempted import_ (before ++ [m]) rest
           end
  end.

(** How [on_ready] ends: by its last statement alone. *)
Definition purge_result (servers : list (list string))
    (purge_from : option string -> option Exn) : outcome unit :=
  match servers with
  | [] => Raise (OtherError "IndexError")
  | channels :: _ =>
      match purge_from (List.find (String.eqb "test-bot") channels) with
      | Some e => Raise e
      | None => Ret tt
      end
  end.

(** * The states that the program can reach *)

(** The worlds that class statements, registrations, forwards and
    messages lead to from the empty world, with the classes made so far.
    A registration counts whether it returns or raises. *)
Inductive built : list Dispatcher -> World -> Prop :=
| built_empty : built [] empty_world
| built_class (classes : list Dispatcher) (w w' : World) (bases : list Base)
    (cls : Dispatcher) :
    built classes w ->
    (forall d, DispatcherClass d ∈ bases -> d ∈ classes) ->
    DispatcherMeta_new bases w = (Ret cls, w') ->
    built (cls :: classes) w'
| built_command (classes : list Dispatcher) (w w' : World) (cls : Dispatcher)
    (channels roles : option (list string)) (pattern : option string)
    (callback : Callback) (r : outcome unit) :
    built classes w -> cls ∈ classes ->
    set_command cls channels roles pattern callback w = (r, w') ->
    built classes w'
| built_forward (classes : list Dispatcher) (w w' : World) (cls : Dispatcher)
    (channels : list string) (allow : bool) (callback : Callback)
    (r : outcome unit) :
    built classes w -> cls ∈ classes ->
    add_forward cls channels allow callback w = (r, w') ->
    built classes w'
| built_message (classes : list Dispatcher) (w w' : World) (PREFIX : string)
    (show_scope : list string -> string) (self : Client) (message : Message)
    (r : outcome unit) :
    built classes w ->
    on_message PREFIX show_scope self message w = (r, w') ->
    built classes w'.

(** * Properties *)

(** ** Strings *)

Lemma append_cons (c : ascii) (s t : string) :
  String c s +:+ t = String c (s +:+ t).
Proof. reflexivity. Qed.

Lemma append_nil_l (t : string) : EmptyString +:+ t = t.
Proof. reflexivity. Qed.

Lemma append_nil_r (s : string) : s +:+ EmptyString = s.
Proof.
  induction s as [|c s IH]; [reflexivity | by rewrite append_cons, IH].
Qed.

Lemma append_assoc (s t u : string) : (s +:+ t) +:+ u = s +:+ (t +:+ u).
Proof.
  induction s as [|c s IH]; [reflexivity | by rewrite !append_cons, IH].
Qed.

Lemma length_append (s t : string) :
  String.length (s +:+ t) = String.length s + String.length t.
Proof.
  induction s as [|c s IH]; [reflexivity | rewrite append_cons; cbn; by rewrite IH].
Qed.

Lemma length_zero (s : string) : String.length s = 0 -> s = EmptyString.
Proof. destruct s; [reflexivity | discriminate]. Qed.

Lemma substring_prefix (s t : string) :
  String.substring 0 (String.length s) (s +:+ t) = s.
Proof.
  induction s as [|c s IH]; [by destruct t |].
  rewrite append_cons. cbn. by rewrite IH.
Qed.

Lemma consumed_append (s t : string) : Re.consumed (s +:+ t) t = s.
Proof.
  unfold Re.consumed. rewrite length_append.
  replace (String.length s + String.length t - String.length t)
    with (String.length s) by lia.
  apply substring_prefix.
Qed.

Lemma consumed_empty (rest : string) :
  Re.consumed EmptyString rest = EmptyString.
Proof. reflexivity. Qed.

(** ** The matcher against the relation *)

Module ReFacts.
Import Re.

Section Loop.
Context {A : Type}.
Implicit Types (k : @cont A) (m : string -> captures -> @cont A -> option A).

Lemma star_loop_step m g k (n : nat) (s : string) (caps : captures) :
  star_loop m g k (S n) s caps
  = let again :=
      m s caps (fun s' caps' =>
        if (String.length s' <? String.length s)%nat
        then star_loop m g k n s' caps' else k s' caps') in
    if g then or_else again (k s caps) else or_else (k s caps) again.
Proof. reflexivity. Qed.

(** More fuel than the text is long is never used up. *)
Lemma star_loop_fuel m g k (n1 n2 : nat) (s : string) (caps : captures) :
  String.length s < n1 -> String.length s < n2 ->
  star_loop m g k n1 s caps = star_loop m g k n2 s caps.
Proof.
  revert n2 s caps. induction n1 as [|n1 IH]; intros n2 s caps H1 H2; [lia |].
  destruct n2 as [|n2]; [lia |]. rewrite !star_loop_step.
  assert (Hk : (fun (s' : string) (caps' : captures) =>
                  if (String.length s' <? String.length s)%nat
                  then star_loop m g k n1 s' caps' else k s' caps')
               = (fun (s' : string) (caps' : captures) =>
                  if (String.length s' <? String.length s)%nat
                  then star_loop m g k n2 s' caps' else k s' caps')).
  { extensionality s'. extensionality caps'.
    destruct (String.length s' <? String.length s)%nat eqn:Hlt; [|reflexivity].
    apply Nat.ltb_lt in Hlt. apply IH; lia. }
  cbv zeta. by rewrite Hk.
Qed.
Lemma or_else_some (x y : option A) (a : A) :
  or_else x y = Some a -> x = Some a \/ (x = None /\ y = Some a).
Proof. destruct x; cbn; intros H; [left | right]; by rewrite ?H. Qed.

Lemma or_else_not_none_l (x y : option A) : x <> None -> or_else x y <> None.
Proof. by destruct x. Qed.

Lemma or_else_not_none_r (x y : option A) : y <> None -> or_else x y <> None.
Proof. by destruct x. Qed.

(** Soundness of the loop, given soundness of its body. *)
Lemma star_loop_sound (r : regex) (g : bool) k :
  (forall k' p caps x,
      rmatch r p caps k' = Some x ->
      exists s t caps', p = s +:+ t /\ Matches r s t /\ k' t caps' = Some x) ->
  forall (n : nat) (p : string) (caps : captures) (x : A),
    star_loop (rmatch r) g k n p caps = Some x ->
    exists s t caps',
      p = s +:+ t /\ Matches (RStar g r) s t /\ k t caps' = Some x.
Proof.
  intros Hbody n. induction n as [|n IH]; intros p caps x H.
  - exists EmptyString, p, caps. split; [reflexivity |]. split; [constructor | exact H].
  - rewrite star_loop_step in H. cbv zeta in H.
    assert (Hstop : k p caps = Some x ->
              exists s t caps',
                p = s +:+ t /\ Matches (RStar g r) s t /\ k t caps' = Some x).
    { intros Hk. exists EmptyString, p, caps.
      split; [reflexivity |]. split; [constructor | exact Hk]. }
    assert (Hagain :
              rmatch r p caps
                (fun s' caps' =>
                   if (String.length s' <? String.length p)%nat
                   then star_loop (rmatch r) g k n s' caps' else k s' caps')
              = Some x ->
              exists s t caps',
                p = s +:+ t /\ Matches (RStar g r) s t /\ k t caps' = Some x).
    { intros Hm. apply Hbody in Hm as (s1 & t1 & c1 & -> & Hr & Hc).
      destruct (String.length t1 <? String.length (s1 +:+ t1))%nat eqn:Hlt.
      - apply Nat.ltb_lt in Hlt. rewrite length_append in Hlt.
        apply IH in Hc as (s2 & t & c2 & -> & Hstar & Hk).
        exists (s1 +:+ s2), t, c2. split; [by rewrite append_assoc |].
        split; [| exact Hk]. apply MStarStep; [| exact Hr | exact Hstar].
        intros ->. cbn in Hlt. lia.
      - apply Nat.ltb_ge in Hlt. rewrite length_append in Hlt.
        assert (s1 = EmptyString) as ->
          by (destruct s1; [done | cbn in Hlt; lia]).
        exists EmptyString, t1, c1. split; [reflexivity |].
        split; [constructor | exact Hc]. }
    destruct g; apply or_else_some in H as [H | [_ H]]; auto.
Qed.
End Loop.

Lemma rmatch_sound (r : regex) :
  forall (A : Type) (k : @cont A) (p : string) (caps : captures) (x : A),
    rmatch r p caps k = Some x ->
    exists s t caps', p = s +:+ t /\ Matches r s t /\ k t caps' = Some x.
Proof.
  induction r as [| cs | r1 IH1 r2 IH2 | r1 IH1 r2 IH2 | g r IH | g r IH
                 | idx name r IH |]; intros A k p caps x H; cbn - [star_loop] in H.
  - exists EmptyString, p, caps. split; [reflexivity |]. split; [constructor | exact H].
  - destruct p as [|c p']; [discriminate |].
    destruct (charset_mem cs c) eqn:Hc; [| discriminate].
    exists (String c EmptyString), p', caps.
    split; [reflexivity |]. split; [by constructor | exact H].
  - apply IH1 in H as (s1 & t1 & c1 & -> & Hr1 & H).
    apply IH2 in H as (s2 & t & c2 & -> & Hr2 & H).
    exists (s1 +:+ s2), t, c2. split; [by rewrite append_assoc |].
    split; [by constructor | exact H].
  - apply or_else_some in H as [H | [_ H]].
    + apply IH1 in H as (s & t & c & -> & Hr & H).
      exists s, t, c. split; [reflexivity |]. split; [by apply MAltL | exact H].
    + apply IH2 in H as (s & t & c & -> & Hr & H).
      exists s, t, c. split; [reflexivity |]. split; [by apply MAltR | exact H].
  - eapply star_loop_sound; [| exact H]. intros k'. apply IH.
  - apply IH in H as (s1 & t1 & c1 & -> & Hr & H).
    eapply star_loop_sound in H as (s2 & t & c2 & -> & Hstar & H);
      [| intros k'; apply IH].
    exists (s1 +:+ s2), t, c2. split; [by rewrite append_assoc |].
    split; [by econstructor | exact H].
  - apply IH in H as (s & t & c & -> & Hr & H).
    exists s, t, (<[idx := consumed (s +:+ t) t]> c).
    split; [reflexivity |]. split; [by constructor | exact H].
  - destruct (at_end p) eqn:He; [| discriminate].
    exists EmptyString, p, caps. split; [reflexivity |]. split; [by constructor | exact H].
Qed.

Lemma rmatch_complete (r : regex) (s t : string) :
  Matches r s t ->
  forall (A : Type) (k : @cont A),
    (forall caps, k t caps <> None) ->
    forall caps, rmatch r (s +:+ t) caps k <> None.
Proof.
  induction 1 as [ t | cs c t Hc | r1 r2 s1 s2 t _ IH1 _ IH2
                 | r1 r2 s t _ IH | r1 r2 s t _ IH | g r t
                 | g r s1 s2 t Hne _ IH1 _ IH2 | g r s1 s2 t _ IH1 _ IH2
                 | idx name r s t _ IH | t He ];
    intros A k Hk caps.
  - apply Hk.
  - rewrite append_cons, append_nil_l. cbn. rewrite Hc. apply Hk.
  - rewrite append_assoc. cbn. apply IH1. intros c. by apply IH2.
  - cbn. apply or_else_not_none_l. by apply IH.
  - cbn. apply or_else_not_none_r. by apply IH.
  - rewrite append_nil_l. cbn - [star_loop]. rewrite star_loop_step. cbv zeta.
    destruct g.
    + apply or_else_not_none_r, Hk.
    + apply or_else_not_none_l, Hk.
  - rewrite append_assoc. cbn - [star_loop]. rewrite star_loop_step. cbv zeta.
    assert (Hagain :
      rmatch r (s1 +:+ s2 +:+ t) caps
        (fun s' caps' =>
           if (String.length s' <? String.length (s1 +:+ s2 +:+ t))%nat
           then star_loop (rmatch r) g k (String.length (s1 +:+ s2 +:+ t)) s' caps'
           else k s' caps') <> None).
    { apply IH1. intros c.
      assert (Hlt : String.length (s2 +:+ t) < String.length (s1 +:+ s2 +:+ t)).
      { rewrite (length_append s1). destruct s1; [done | cbn; lia]. }
      apply Nat.ltb_lt in Hlt as Hlt'. rewrite Hlt'.
      rewrite (star_loop_fuel _ _ _ _ (S (String.length (s2 +:+ t)))); [| lia | lia].
      by apply (IH2 A k Hk c). }
    destruct g.
    + by apply or_else_not_none_l.
    + by apply or_else_not_none_r.
  - rewrite append_assoc. cbn - [star_loop]. apply IH1. intros c.
    by apply (IH2 A k Hk c).
  - cbn. apply IH. intros c. apply Hk.
  - rewrite append_nil_l. cbn. rewrite He. apply Hk.
Qed.


End ReFacts.

(** ** The monad and the trace *)

Lemma with_trace_nil (w : World) : with_trace w [] = w.
Proof. destruct w. unfold with_trace. cbn. by rewrite app_nil_r. Qed.

Lemma with_trace_app (w : World) (a b : list Event) :
  with_trace (with_trace w a) b = with_trace w (a ++ b).
Proof. unfold with_trace. cbn. by rewrite app_assoc. Qed.

Lemma bind_emit {B : Type} (e : Event) (k : unit -> M B) (w : World) :
  bind (emit e) k w = k tt (with_trace w [e]).
Proof. reflexivity. Qed.

Lemma bind_ret {A B : Type} (a : A) (k : A -> M B) (w : World) :
  bind (ret a) k w = k a w.
Proof. reflexivity. Qed.

Lemma bind_get_world {B : Type} (k : World -> M B) (w : World) :
  bind get_world k w = k w w.
Proof. reflexivity. Qed.

Lemma bind_lift {A B : Type} (o : outcome A) (k : A -> M B) (w : World) :
  bind (lift o) k w
  = match o with Ret a => k a w | Raise e => (Raise e, w) end.
Proof. by destruct o. Qed.

Lemma bind_eq {A B : Type} (m : M A) (k : A -> M B) (w w' : World)
    (r : outcome A) :
  m w = (r, w') ->
  bind m k w = match r with Ret a => k a w' | Raise e => (Raise e, w') end.
Proof. unfold bind. by intros ->. Qed.

Create HintDb trace_db.

Section EmitsOnly.
Context (P : Event -> Prop).

Lemma emits_only_ret {A : Type} (a : A) : emits_only P (ret a).
Proof. intros w. exists []. by rewrite with_trace_nil. Qed.

Lemma emits_only_raise {A : Type} (e : Exn) : emits_only P (@raise A e).
Proof. intros w. exists []. by rewrite with_trace_nil. Qed.

Lemma emits_only_lift {A : Type} (o : outcome A) : emits_only P (lift o).
Proof. intros w. exists []. by rewrite with_trace_nil. Qed.

Lemma emits_only_get_world : emits_only P get_world.
Proof. intros w. exists []. by rewrite with_trace_nil. Qed.

Lemma emits_only_emit (e : Event) : P e -> emits_only P (emit e).
Proof. intros He w. exists [e]. split; [reflexivity | by constructor]. Qed.

Lemma emits_only_bind {A B : Type} (m : M A) (k : A -> M B) :
  emits_only P m -> (forall a, emits_only P (k a)) -> emits_only P (bind m k).
Proof.
  intros Hm Hk w. destruct (Hm w) as (evs & Hw & Hevs).
  unfold bind. destruct (m w) as [[a | e] w1]; cbn in Hw; subst w1.
  - destruct (Hk a (with_trace w evs)) as (evs' & Hw' & Hevs').
    exists (evs ++ evs'). rewrite Hw', with_trace_app.
    split; [reflexivity | by apply Forall_app].
  - by exists evs.
Qed.

Lemma emits_only_try {A : Type} (m : M A) (h : Exn -> M A) :
  emits_only P m -> (forall e, emits_only P (h e)) ->
  emits_only P (try_except m h).
Proof.
  intros Hm Hh w. destruct (Hm w) as (evs & Hw & Hevs).
  unfold try_except. destruct (m w) as [[a | e] w1]; cbn in Hw; subst w1.
  - by exists evs.
  - destruct (Hh e (with_trace w evs)) as (evs' & Hw' & Hevs').
    exists (evs ++ evs'). rewrite Hw', with_trace_app.
    split; [reflexivity | by apply Forall_app].
Qed.
End EmitsOnly.

#[local] Hint Resolve emits_only_ret emits_only_raise emits_only_lift
  emits_only_get_world emits_only_emit emits_only_bind emits_only_try
  : trace_db.

(** ** The forwarding loop *)

Lemma call_forward_spec (cb : Callback) (message : Message) (w : World) :
  call_forward cb message w
  = (match cb_call cb message [] with Some e => Raise e | None => Ret tt end,
     with_trace w [Forwarded (cb_coroutine cb) cb message]).
Proof.
  unfold call_forward. rewrite bind_emit. by destruct (cb_call cb message []).
Qed.

Lemma call_command_spec (cb : Callback) (message : Message)
    (kwargs : list (string * pyval)) (w : World) :
  call_command cb message kwargs w
  = (match cb_call cb message kwargs with Some e => Raise e | None => Ret tt end,
     with_trace w [Dispatched (cb_coroutine cb) cb message kwargs]).
Proof.
  unfold call_command. rewrite bind_emit. by destruct (cb_call cb message kwargs).
Qed.

Lemma forward_loop_spec (subs : list SubBot) (message : Message) (w : World) :
  forward_loop subs message w
  = (forward_result subs message,
     with_trace w (forward_events (invoked subs message) message)).
Proof.
  revert w. induction subs as [|sub rest IH]; intros w.
  - cbn. by rewrite with_trace_nil.
  - cbn [forward_loop forward_result invoked forward_events flat_map].
    rewrite bind_emit, (bind_eq _ _ _ _ _ (call_forward_spec _ _ _)).
    rewrite with_trace_app. unfold raises.
    destruct (cb_call (fw_callback sub) message []) as [e|]; cbn.
    + reflexivity.
    + destruct (allow_commands sub); cbn.
      * rewrite IH, with_trace_app. reflexivity.
      * reflexivity.
Qed.

Lemma invoked_prefix (subs : list SubBot) (message : Message) :
  invoked subs message `prefix_of` subs.
Proof.
  induction subs as [|sub rest IH]; cbn; [done |].
  destruct (raises sub message || negb (allow_commands sub)).
  - by apply prefix_cons, prefix_nil.
  - by apply prefix_cons.
Qed.

(** The loop goes through the whole list when no call raises and every
    subscription allows commands. *)
Lemma invoked_all (subs : list SubBot) (message : Message) :
  Forall (fun sub => raises sub message = false /\ allow_commands sub = true)
    subs ->
  invoked subs message = subs /\ forward_result subs message = Ret true.
Proof.
  induction 1 as [|sub rest [Hr Ha] _ [IH1 IH2]]; cbn; [done |].
  rewrite Hr, Ha. cbn. rewrite IH1. split; [done |].
  unfold raises in Hr. destruct (cb_call (fw_callback sub) message []); [| done].
  by rewrite bool_decide_eq_false in Hr; destruct Hr.
Qed.

(** A subscription that does not allow commands is the last one called,
    and the loop answers [false] or raises. *)
Lemma invoked_stops (subs : list SubBot) (message : Message)
    (pre post : list SubBot) (sub : SubBot) :
  invoked subs message = pre ++ sub :: post ->
  allow_commands sub = false ->
  post = [] /\ forward_result subs message <> Ret true.
Proof.
  revert pre. induction subs as [|s rest IH]; intros pre Hinv Hsub; cbn in *.
  - by destruct pre.
  - unfold raises in Hinv.
    destruct (cb_call (fw_callback s) message []) as [e|] eqn:Hcall; cbn in Hinv.
    + destruct pre as [|p pre]; injection Hinv as <- Hinv.
      * by split.
      * by destruct pre.
    + destruct (allow_commands s) eqn:Hs; cbn in Hinv.
      * destruct pre as [|p pre]; injection Hinv as <- Hinv; [congruence |].
        by apply (IH pre).
      * destruct pre as [|p pre]; injection Hinv as <- Hinv.
        -- by split.
        -- by destruct pre.
Qed.

(** ** [ChainMap] *)

Section ChainFacts.
Context {V : Type}.
Implicit Types (store : list (gmap string V)) (maps : list nat).

Lemma chain_contains_spec store maps (key : string) :
  chain_contains store maps key = true
  <-> is_Some (chain_getitem store maps key).
Proof.
  unfold chain_contains. induction maps as [|l ls IH]; cbn.
  - split; [done | by intros [? ?]].
  - destruct (layer store l !! key) as [v|] eqn:Hl.
    + rewrite bool_decide_eq_true_2 by eauto. cbn. split; eauto.
    + rewrite bool_decide_eq_false_2 by (by intros [? ?]). exact IH.
Qed.

(** [chain.get(key)] is [chain[key]] when the key is there. *)
Lemma chain_get_getitem store maps (key : string) :
  chain_get store maps key = chain_getitem store maps key.
Proof.
  unfold chain_get. destruct (chain_contains store maps key) eqn:Hc; [done |].
  destruct (chain_getitem store maps key) eqn:Hg; [| done].
  assert (chain_contains store maps key = true) by (apply chain_contains_spec; eauto).
  congruence.
Qed.

Lemma layer_insert_eq store (l : nat) (m : gmap string V) :
  l < length store -> layer (<[l := m]> store) l = m.
Proof. intros Hl. unfold layer. by rewrite list_lookup_insert_eq. Qed.

Lemma layer_insert_ne store (l l' : nat) (m : gmap string V) :
  l <> l' -> layer (<[l := m]> store) l' = layer store l'.
Proof. intros Hl. unfold layer. by rewrite list_lookup_insert_ne. Qed.

(** After [chain[key] = v], [chain[key]] is [v], whatever the other
    layers hold. *)
Lemma chain_getitem_setitem store (own : nat) (rest : list nat)
    (key : string) (v : V) :
  own < length store ->
  chain_getitem (chain_setitem store (own :: rest) key v) (own :: rest) key
  = Some v.
Proof.
  intros Hown. cbn. rewrite layer_insert_eq by done.
  by rewrite lookup_insert_eq.
Qed.

(** [chain[key] = v] writes to the first layer only. *)
Lemma layer_setitem_other store (own : nat) (rest : list nat)
    (key : string) (v : V) (l : nat) :
  l <> own -> layer (chain_setitem store (own :: rest) key v) l = layer store l.
Proof. intros Hl. cbn. by apply layer_insert_ne. Qed.

Lemma length_setitem store maps (key : string) (v : V) :
  length (chain_setitem store maps key v) = length store.
Proof. destruct maps; cbn; [done | by rewrite length_insert]. Qed.
End ChainFacts.

(** ** Registration of forwards *)

Lemma add_forward_one (cls : Dispatcher) (channel : string) (allow : bool)
    (cb : Callback) (w : World) :
  forward_ready w cls channel ->
  exists w',
    add_forward cls [channel] allow cb w = (Ret tt, w')
    /\ forward_ready w' cls channel
    /\ forwarder_get w' cls channel
       = forwarder_get w cls channel
           ++ [{| allow_commands := allow; fw_callback := cb |}]
    /\ command_layers w' = command_layers w.
Proof.
  intros [(own & rest & Hmaps & Hown) Haddr].
  cbn [add_forward]. rewrite bind_emit, bind_get_world.
  unfold forwarder_get. rewrite !chain_get_getitem.
  destruct (chain_contains (forward_layers (with_trace w [Log INFO "Forward message from {channel} to {callback}."]))
              (forwards_maps cls) channel) eqn:Hc.
  - apply chain_contains_spec in Hc as [a Ha]. cbn in Ha.
    specialize (Haddr a Ha) as Hlt.
    rewrite bind_ret. unfold bind, append_to_list, ret. cbn. rewrite Ha.
    eexists. split; [reflexivity |]. cbn. rewrite chain_get_getitem, Ha.
    repeat split.
    + exists own, rest. by split.
    + cbn. intros a' Ha'. rewrite length_insert. rewrite Ha in Ha'.
      by injection Ha' as <-.
    + by rewrite list_lookup_insert_eq.
  - assert (Hnone : chain_getitem (forward_layers w) (forwards_maps cls) channel
                    = None).
    { destruct (chain_getitem (forward_layers w) (forwards_maps cls) channel)
        eqn:Hg; [| done].
      assert (chain_contains (forward_layers w) (forwards_maps cls) channel = true)
        by (apply chain_contains_spec; eauto).
      cbn in Hc. congruence. }
    rewrite Hnone. unfold bind, bind_new_list, append_to_list, ret.
    cbn - [chain_setitem chain_getitem].
    rewrite Hmaps, chain_getitem_setitem by done.
    eexists. split; [reflexivity |]. cbn - [chain_setitem chain_getitem].
    rewrite chain_get_getitem, chain_getitem_setitem by done.
    repeat split.
    + exists own, rest. split; [done |]. cbn - [chain_setitem].
      by rewrite length_setitem.
    + cbn - [chain_setitem chain_getitem]. intros a' Ha'.
      rewrite ?Hmaps, chain_getitem_setitem in Ha' by done.
      injection Ha' as <-. rewrite length_insert, length_app. cbn. lia.
    + rewrite list_lookup_insert_eq by (rewrite length_app; cbn; lia).
      rewrite lookup_app_r by lia. by rewrite Nat.sub_diag.
Qed.

Lemma register_forwards_spec (cls : Dispatcher) (channel : string)
    (regs : list (bool * Callback)) (w : World) :
  forward_ready w cls channel ->
  exists w',
    register_forwards cls channel regs w = (Ret tt, w')
    /\ forwarder_get w' cls channel
       = forwarder_get w cls channel ++ map subbot_of regs.
Proof.
  revert w. induction regs as [|[allow cb] regs IH]; intros w Hw.
  - exists w. split; [done |]. by rewrite app_nil_r.
  - destruct (add_forward_one cls channel allow cb w Hw)
      as (w1 & Hrun & Hw1 & Hget & _).
    destruct (IH w1 Hw1) as (w2 & Hrun2 & Hget2).
    exists w2. split.
    + cbn [register_forwards]. by rewrite (bind_eq _ _ _ _ _ Hrun).
    + rewrite Hget2, Hget, <- app_assoc. reflexivity.
Qed.

(** ** The engine, stage by stage *)

Section EngineFacts.
Variable PREFIX : string.
Variable show_scope : list string -> string.

(** [on_message] once the author is not the client itself: the
    forwarding loop, then detection, then the command. *)
Lemma on_message_spec (self : Client) (message : Message) (w : World) :
  author_id message <> user_id self ->
  let subs := forwarder_get w (cls_of self) (channel_name message) in
  let w1 :=
    with_trace w (received :: forward_events (invoked subs message) message) in
  on_message PREFIX show_scope self message w
  = match forward_result subs message with
    | Raise e => (Raise e, w1)
    | Ret false => (Ret tt, w1)
    | Ret true =>
        match detect PREFIX self message with
        | Raise e => (Raise e, w1)
        | Ret None => (Ret tt, w1)
        | Ret (Some (cmd_name, payload)) =>
            resolve_and_run show_scope self cmd_name payload message w1
        end
    end.
Proof.
  intros Hauthor subs w1. unfold on_message.
  apply String.eqb_neq in Hauthor. rewrite Hauthor.
  rewrite bind_emit, bind_get_world.
  rewrite (bind_eq _ _ _ _ _ (forward_loop_spec _ _ _)).
  rewrite with_trace_app.
  change (forwarder_get (with_trace w _) (cls_of self) (channel_name message))
    with subs.
  change (with_trace w (_ ++ _)) with w1.
  destruct (forward_result subs message) as [[|]|e]; cbn [negb]; try reflexivity.
  rewrite bind_lift.
  destruct (detect PREFIX self message) as [[[cmd_name payload]|]|e];
    reflexivity.
Qed.

Lemma run_command_emits (cmd_name payload : string) (cmd : Command)
    (message : Message) :
  emits_only not_forwarded (run_command cmd_name payload cmd message).
Proof.
  unfold run_command.
  destruct (regexp cmd) as [p|];
    [destruct (Re.re_match (Re.prog p) payload) |];
    unfold call_command;
    repeat first
      [ apply emits_only_bind; [| intros ?]
      | apply emits_only_try; [| intros ?]
      | apply emits_only_emit; reflexivity
      | apply emits_only_lift
      | destruct (cb_call _ _ _)
      | apply emits_only_ret
      | apply emits_only_raise ].
Qed.

Lemma resolve_and_run_emits (self : Client) (cmd_name payload : string)
    (message : Message) :
  emits_only not_forwarded
    (resolve_and_run show_scope self cmd_name payload message).
Proof.
  unfold resolve_and_run. apply emits_only_bind; [apply emits_only_get_world |].
  intros w. destruct (dispatcher_get w (cls_of self) cmd_name) as [cmd|].
  - destruct (negb (channel_allowed cmd message));
      [| destruct (negb (role_allowed cmd message))];
      auto using run_command_emits with trace_db.
    + apply emits_only_bind; [| intros ?]; by apply emits_only_emit.
    + apply emits_only_bind; [| intros ?]; by apply emits_only_emit.
  - apply emits_only_bind; [| intros ?]; by apply emits_only_emit.
Qed.
End EngineFacts.

(** ** Forwarding order (C1) *)

(** C1. Subscriptions registered on a channel are appended to the list the
    registry resolves that channel to, in the order of the registrations.
    For every message that is not the client's own, [on_message] calls an
    initial segment of that list, in order, and nothing else is ever
    forwarded.  When a called subscription has [allow_commands = false] it
    is the last one called and no event follows its call: no later forward,
    no lookup, no reply, no command.  When no call raises and every
    subscription allows commands the whole list is called.  For the
    client's own messages nothing happens at all. *)
Theorem forwards_in_registration_order :
  (forall (cls : Dispatcher) (channel : string) (regs : list (bool * Callback))
          (w : World),
      forward_ready w cls channel ->
      exists w',
        register_forwards cls channel regs w = (Ret tt, w')
        /\ forwarder_get w' cls channel
           = forwarder_get w cls channel ++ map subbot_of regs)
  /\ (forall (PREFIX : string) (show_scope : list string -> string)
             (self : Client) (message : Message) (w : World),
        author_id message <> user_id self ->
        let subs := forwarder_get w (cls_of self) (channel_name message) in
        let called := invoked subs message in
        called `prefix_of` subs
        /\ exists rest,
            trace (on_message PREFIX show_scope self message w).2
            = trace w ++ received :: forward_events called message ++ rest
            /\ Forall not_forwarded rest
            /\ (forall pre sub post,
                   called = pre ++ sub :: post ->
                   allow_commands sub = false ->
                   post = [] /\ rest = [])
            /\ (Forall (fun sub => raises sub message = false
                                   /\ allow_commands sub = true) subs ->
                called = subs))
  /\ (forall (PREFIX : string) (show_scope : list string -> string)
             (self : Client) (message : Message) (w : World),
        author_id message = user_id self ->
        on_message PREFIX show_scope self message w = (Ret tt, w)).
Proof.
  split; [exact register_forwards_spec |]. split.
  2: { intros PREFIX show_scope self message w Hself. unfold on_message.
       by rewrite Hself, String.eqb_refl. }
  intros PREFIX show_scope self message w Hauthor subs called.
  split; [apply invoked_prefix |].
  rewrite (on_message_spec PREFIX show_scope self message w Hauthor).
  fold subs. fold called.
  assert (Hall : Forall (fun sub => raises sub message = false
                                    /\ allow_commands sub = true) subs ->
                 called = subs) by (intros H; by apply invoked_all).
  assert (Hquiet : forall r : outcome unit,
    (forall pre sub post,
        called = pre ++ sub :: post -> allow_commands sub = false -> post = []) ->
    exists rest,
      trace (r, with_trace w (received :: forward_events called message)).2
      = trace w ++ received :: forward_events called message ++ rest
      /\ Forall not_forwarded rest
      /\ (forall pre sub post,
             called = pre ++ sub :: post ->
             allow_commands sub = false ->
             post = [] /\ rest = [])
      /\ (Forall (fun sub => raises sub message = false
                             /\ allow_commands sub = true) subs ->
          called = subs)).
  { intros r Hpost. exists []. cbn. split; [by rewrite app_nil_r |].
    split; [done |]. split; [| done].
    intros pre sub post Hc Hs. split; [by eapply Hpost | done]. }
  assert (Hlast : forall pre sub post,
             called = pre ++ sub :: post -> allow_commands sub = false ->
             post = [] /\ forward_result subs message <> Ret true)
    by (intros pre sub post; apply invoked_stops).
  destruct (forward_result subs message) as [[|]|e] eqn:Hres.
  - assert (Hnostop : forall pre sub post,
              called = pre ++ sub :: post -> allow_commands sub = false -> False).
    { intros pre sub post Hc Hs. by destruct (Hlast pre sub post Hc Hs). }
    destruct (detect PREFIX self message) as [[[cmd_name payload]|]|e].
    + destruct (resolve_and_run_emits show_scope self cmd_name payload message
                  (with_trace w (received :: forward_events called message)))
        as (rest & -> & Hrest).
      exists rest. cbn. split; [by rewrite <- app_assoc |].
      split; [done |]. split; [| done].
      intros pre sub post Hc Hs. by destruct (Hnostop pre sub post Hc Hs).
    + apply Hquiet. intros pre sub post Hc Hs.
      by destruct (Hnostop pre sub post Hc Hs).
    + apply Hquiet. intros pre sub post Hc Hs.
      by destruct (Hnostop pre sub post Hc Hs).
  - apply Hquiet. intros pre sub post Hc Hs. by destruct (Hlast pre sub post Hc Hs).
  - apply Hquiet. intros pre sub post Hc Hs. by destruct (Hlast pre sub post Hc Hs).
Qed.

Lemma forwards_in_registration_order_witness :
  (forward_ready fresh_world the_class "general"
   /\ author_id (text_in "general" "!ping") <> user_id the_bot
   /\ invoked (forwarder_get three_forwards (cls_of the_bot)
                 (channel_name (text_in "general" "!ping")))
        (text_in "general" "!ping")
      = [subbot_of (true, spy "s1")] ++ subbot_of (false, spy "s2") :: []
   /\ allow_commands (subbot_of (false, spy "s2")) = false
   /\ author_id (text_in "general" "pong") = user_id pong_bot)
  /\ forwarder_get three_forwards the_class "general"
     = forwarder_get fresh_world the_class "general"
         ++ map subbot_of
              [(true, spy "s1"); (false, spy "s2"); (true, spy "s3")]
  /\ trace (on_message "!" show_nothing the_bot (text_in "general" "!ping")
              three_forwards).2
     = trace three_forwards
         ++ received
         :: forward_events
              [subbot_of (true, spy "s1"); subbot_of (false, spy "s2")]
              (text_in "general" "!ping")
  /\ on_message "!" show_nothing pong_bot (text_in "general" "pong")
       three_forwards
     = (Ret tt, three_forwards).
Proof.
  assert (Hready : forward_ready fresh_world the_class "general").
  { split.
    - exists 0, []. split; [reflexivity | cbn; lia].
    - intros a Ha. vm_compute in Ha. discriminate. }
  assert (Hauthor : author_id (text_in "general" "!ping") <> user_id the_bot)
    by discriminate.
  assert (Hcalled :
            invoked (forwarder_get three_forwards (cls_of the_bot)
                       (channel_name (text_in "general" "!ping")))
              (text_in "general" "!ping")
            = [subbot_of (true, spy "s1")] ++ subbot_of (false, spy "s2") :: [])
    by reflexivity.
  assert (Hdeny : allow_commands (subbot_of (false, spy "s2")) = false)
    by reflexivity.
  assert (Hself : author_id (text_in "general" "pong") = user_id pong_bot)
    by reflexivity.
  split; [exact (conj Hready (conj Hauthor (conj Hcalled (conj Hdeny Hself)))) |].
  destruct forwards_in_registration_order as (Hreg & Hrun & Hown).
  split; [| split].
  - destruct (Hreg the_class "general"
                [(true, spy "s1"); (false, spy "s2"); (true, spy "s3")]
                fresh_world Hready) as (w' & Hw' & Hget).
    unfold three_forwards. rewrite Hw'. exact Hget.
  - destruct (Hrun "!" show_nothing the_bot (text_in "general" "!ping")
                three_forwards Hauthor) as (_ & rest & Htrace & _ & Hstop & _).
    destruct (Hstop _ _ _ Hcalled Hdeny) as [_ ->].
    rewrite Htrace, Hcalled, app_nil_r. reflexivity.
  - exact (Hown "!" show_nothing pong_bot (text_in "general" "pong")
             three_forwards Hself).
Defined.

(** ** The cast utility (C3) *)

(** C3. When [cast_using_type_hints] returns, its result has the entries of
    [kwargs] in the same order under the same keys; an absent value stays
    [None], a string under a key with a recorded type is the result of that
    type called on the string, a string under any other key stays that
    string.  It returns as soon as every constructor it has to call
    returns.  With a type recorded for [a] only, [a = "5"] and [b] absent
    give [{a: ty("5"), b: None}]; for [int] that is [{a: 5, b: None}]. *)
Theorem cast_using_type_hints_spec :
  (forall (type_hints : gmap string PyType)
          (kwargs : list (string * option string))
          (res : list (string * pyval)),
      cast_using_type_hints type_hints kwargs = Ret res ->
      Forall2 (cast_entry type_hints) kwargs res)
  /\ (forall (type_hints : gmap string PyType)
             (kwargs : list (string * option string)),
        (forall key s ty,
            (key, Some s) ∈ kwargs -> type_hints !! key = Some ty ->
            exists v, ty s = Ret v) ->
        exists res, cast_using_type_hints type_hints kwargs = Ret res)
  /\ (forall (ty : PyType) (v : pyval),
        ty "5" = Ret v ->
        cast_using_type_hints {[ "a" := ty ]} [("a", Some "5"); ("b", None)]
        = Ret [("a", v); ("b", VNone)])
  /\ cast_using_type_hints {[ "a" := py_int ]} [("a", Some "5"); ("b", None)]
     = Ret [("a", VInt 5); ("b", VNone)].
Proof.
  split; [| split; [| split]].
  - intros type_hints kwargs. induction kwargs as [|[key value] rest IH];
      intros res H; cbn in H.
    + injection H as <-. constructor.
    + destruct (cast_one type_hints key value) as [v|e] eqn:Hone; [| discriminate].
      destruct (cast_using_type_hints type_hints rest) as [vs|e] eqn:Hrest;
        [| discriminate].
      injection H as <-. constructor; [| by apply IH].
      split; [reflexivity |]. cbn. unfold cast_one in Hone.
      destruct value as [s|]; [| by injection Hone as <-].
      destruct (type_hints !! key) as [ty|]; [exact Hone | by injection Hone as <-].
  - intros type_hints kwargs. induction kwargs as [|[key value] rest IH];
      intros Hty; cbn.
    + by exists [].
    + assert (Hone : exists v, cast_one type_hints key value = Ret v).
      { unfold cast_one. destruct value as [s|]; [| by exists VNone].
        destruct (type_hints !! key) as [ty|] eqn:Hk; [| by eexists].
        apply (Hty key s ty); [by left | exact Hk]. }
      destruct Hone as [v ->].
      destruct IH as [vs ->]; [| by eexists].
      intros k s ty Hin. apply Hty. by right.
  - intros ty v Hv. cbn. unfold cast_one.
    rewrite lookup_singleton_eq, Hv. reflexivity.
  - reflexivity.
Qed.

Lemma cast_using_type_hints_spec_witness :
  cast_using_type_hints {[ "a" := py_int ]} [("a", Some "5"); ("b", None)]
  = Ret [("a", VInt 5); ("b", VNone)]
  /\ Forall2 (cast_entry {[ "a" := py_int ]})
       [("a", Some "5"); ("b", None)] [("a", VInt 5); ("b", VNone)]
  /\ (exists res,
        cast_using_type_hints {[ "a" := py_str ]}
          [("a", Some "5"); ("b", None)] = Ret res)
  /\ py_int "5" = Ret (VInt 5)
  /\ cast_using_type_hints {[ "a" := py_int ]} [("a", Some "5"); ("b", None)]
     = Ret [("a", VInt 5); ("b", VNone)].
Proof.
  assert (Hrun : cast_using_type_hints {[ "a" := py_int ]}
                   [("a", Some "5"); ("b", None)]
                 = Ret [("a", VInt 5); ("b", VNone)]) by reflexivity.
  split; [exact Hrun |]. split; [| split; [| split]].
  - exact (proj1 cast_using_type_hints_spec _ _ _ Hrun).
  - apply (proj1 (proj2 cast_using_type_hints_spec)).
    intros key s ty _ Hty. destruct (decide (key = "a")) as [-> | Hne].
    + rewrite lookup_singleton_eq in Hty. injection Hty as <-. by eexists.
    + rewrite lookup_singleton_ne in Hty by done. discriminate.
  - reflexivity.
  - exact (proj1 (proj2 (proj2 cast_using_type_hints_spec)) py_int (VInt 5)
             eq_refl).
Defined.

(** ** Failures of the cast (C2) *)

(** What the engine does once a command with a pattern has been resolved
    and the pattern has matched: a failing cast leaves [run_command] at
    once, before the guarded call. *)
Lemma run_command_cast_raises (cmd_name payload : string) (cmd : Command)
    (message : Message) (p : Re.Pattern) (m : Re.Match) (e : Exn) (w : World) :
  regexp cmd = Some p ->
  Re.re_match (Re.prog p) payload = Some m ->
  cast_using_type_hints (cb_type_hints (callback cmd))
    (Re.groupdict (Re.prog p) m) = Raise e ->
  run_command cmd_name payload cmd message w = (Raise e, w).
Proof.
  intros Hp Hm Hcast. unfold run_command. rewrite Hp, Hm.
  by rewrite bind_lift, Hcast.
Qed.

(** A handler that raises is answered with the generic reply. *)
Lemma run_command_handler_raises (cmd_name payload : string) (cmd : Command)
    (message : Message) (e : Exn) (w : World) :
  regexp cmd = None ->
  cb_call (callback cmd) message [] = Some e ->
  run_command cmd_name payload cmd message w
  = (Ret tt,
     with_trace w
       [Log DEBUG "Dispatch to '%s' with payload '%s'";
        Dispatched (cb_coroutine (callback cmd)) (callback cmd) message [];
        Log ERROR "Error in dispatched command.";
        Sent (channel_name message) "Internal error..."]).
Proof.
  intros Hp Hcall. unfold run_command. rewrite Hp.
  rewrite bind_emit. unfold try_except. rewrite call_command_spec, Hcall.
  rewrite !bind_emit. unfold emit. by rewrite !with_trace_app.
Qed.

(** The same at the level of [on_message]: whenever the cast raises, the
    exception leaves [on_message] and the last event is the last forward. *)
Lemma on_message_cast_raises (PREFIX : string)
    (show_scope : list string -> string) (self : Client) (message : Message)
    (w : World) (cmd_name payload : string) (cmd : Command) (p : Re.Pattern)
    (m : Re.Match) (e : Exn) :
  let subs := forwarder_get w (cls_of self) (channel_name message) in
  author_id message <> user_id self ->
  forward_result subs message = Ret true ->
  detect PREFIX self message = Ret (Some (cmd_name, payload)) ->
  dispatcher_get w (cls_of self) cmd_name = Some cmd ->
  channel_allowed cmd message = true ->
  role_allowed cmd message = true ->
  regexp cmd = Some p ->
  Re.re_match (Re.prog p) payload = Some m ->
  cast_using_type_hints (cb_type_hints (callback cmd))
    (Re.groupdict (Re.prog p) m) = Raise e ->
  on_message PREFIX show_scope self message w
  = (Raise e,
     with_trace w (received :: forward_events (invoked subs message) message)).
Proof.
  intros subs Hauthor Hfw Hdetect Hget Hch Hrole Hp Hm Hcast.
  rewrite on_message_spec by done. fold subs. rewrite Hfw, Hdetect.
  unfold resolve_and_run. rewrite bind_get_world.
  change (dispatcher_get (with_trace w _) (cls_of self) cmd_name)
    with (dispatcher_get w (cls_of self) cmd_name).
  rewrite Hget, Hch, Hrole. cbn [negb].
  by apply run_command_cast_raises with (p := p) (m := m).
Qed.

(** C2, at the failing input: [add] is declared with [n: int] and the
    pattern [(?P<n>\S+)]; on the text [!add abc] the constructor [int]
    raises [ValueError], [on_message] ends with that exception, and nothing
    is sent.  The same command with a handler that raises instead is
    answered with [Internal error...]. *)
Theorem cast_failure_escapes_on_message :
  (set_command the_class None None (Some add_pattern) add_handler
     fresh_world).1 = Ret tt
  /\ (on_message "!" show_nothing the_bot (text_in "general" "!add abc")
        add_registered).1
     = Raise (ValueError (InvalidLiteral "abc"))
  /\ existsb is_sent
       (trace (on_message "!" show_nothing the_bot
                 (text_in "general" "!add abc") add_registered).2) = false
  /\ existsb is_dispatched
       (trace (on_message "!" show_nothing the_bot
                 (text_in "general" "!add abc") add_registered).2) = false
  /\ (set_command the_class None None (Some add_pattern) failing_handler
        fresh_world).1 = Ret tt
  /\ (on_message "!" show_nothing the_bot (text_in "general" "!add 3")
        failing_registered).1 = Ret tt
  /\ last (trace (on_message "!" show_nothing the_bot
                    (text_in "general" "!add 3") failing_registered).2)
     = Some (Sent "general" "Internal error...").
Proof. repeat split; vm_compute; reflexivity. Qed.

(** ** Forwards of a descendant (C5) *)

(** In general: when the channel is bound in an inherited layer only,
    [add_forward] binds nothing in the class's own layer and extends the
    inherited list object. *)
Lemma add_forward_into_inherited_list (cls : Dispatcher) (channel : string)
    (allow : bool) (cb : Callback) (w : World) (own a : nat)
    (rest : list nat) :
  forwards_maps cls = own :: rest ->
  layer (forward_layers w) own !! channel = None ->
  chain_getitem (forward_layers w) rest channel = Some a ->
  a < length (forward_lists w) ->
  exists w',
    add_forward cls [channel] allow cb w = (Ret tt, w')
    /\ layer (forward_layers w') own !! channel = None
    /\ forward_lists w' !! a
       = Some (default [] (forward_lists w !! a)
                 ++ [{| allow_commands := allow; fw_callback := cb |}]).
Proof.
  intros Hmaps Hown Hrest Ha.
  assert (Hget : chain_getitem (forward_layers w) (forwards_maps cls) channel
                 = Some a) by (rewrite Hmaps; cbn; by rewrite Hown).
  assert (Hin : chain_contains (forward_layers w) (forwards_maps cls) channel
                = true) by (apply chain_contains_spec; eauto).
  cbn [add_forward]. rewrite bind_emit, bind_get_world.
  change (forward_layers (with_trace w _)) with (forward_layers w).
  rewrite Hin, bind_ret. unfold bind, append_to_list, ret. cbn. rewrite Hget.
  eexists. split; [reflexivity |]. cbn. split; [exact Hown |].
  by rewrite list_lookup_insert_eq.
Qed.

(** C5, at the failing input: the parent class forwards [general] to
    [parent_spy]; a child class then registers [child_spy] on the same
    channel.  The child's registry resolves the channel to both
    subscriptions, and so does the parent's: the child's registration was
    appended to the parent's own list, and the child's own layer got no
    entry. *)
Theorem child_forward_lands_in_parent_list :
  (parent_then_child (spy "parent_spy") (spy "child_spy") empty_world).1
  = Ret (the_class, child_class)
  /\ forwarder_get family_world child_class "general"
     = [ {| allow_commands := true; fw_callback := spy "parent_spy" |};
         {| allow_commands := true; fw_callback := spy "child_spy" |} ]
  /\ forwarder_get family_world the_class "general"
     = [ {| allow_commands := true; fw_callback := spy "parent_spy" |};
         {| allow_commands := true; fw_callback := spy "child_spy" |} ]
  /\ layer (forward_layers family_world) (hd 0 (forwards_maps child_class))
       !! "general" = None.
Proof. repeat split; vm_compute; reflexivity. Qed.

(** ** Registration of commands (C7, C4) *)

(** [set_command] after its log record and its signature check. *)
Lemma set_command_checked (cls : Dispatcher)
    (channels roles : option (list string)) (pattern : option string)
    (callback : Callback) (w : World) :
  accepts_message callback ->
  set_command cls channels roles pattern callback w
  = bind (match pattern_given pattern, fap_varkw callback with
          | Some src, None => check_pattern_args src callback
          | _, _ => ret tt
          end)
      (fun _ =>
         compiled <- lift (compile_pattern pattern) ;;
         w <- get_world ;;
         store_commands
           (chain_setitem (command_layers w) (commands_maps cls)
              (command_name callback)
              {| channels := channels; roles := roles;
                 regexp := compiled; callback := callback |}))
      (with_trace w [registering]).
Proof.
  intros Hsig. unfold set_command. rewrite bind_emit.
  assert (Hcheck : (length (fap_args callback) <? 1)%nat
                   && negb (bool_decide (is_Some (fap_varargs callback)))
                   = false).
  { destruct Hsig as [Hargs | Hvar].
    - destruct (fap_args callback); [done | reflexivity].
    - rewrite (bool_decide_eq_true_2 _ Hvar). apply andb_false_r. }
  rewrite Hcheck. by rewrite bind_ret.
Qed.

Lemma set_command_bad_signature (cls : Dispatcher)
    (channels roles : option (list string)) (pattern : option string)
    (callback : Callback) (w : World) :
  fap_args callback = [] -> fap_varargs callback = None ->
  set_command cls channels roles pattern callback w
  = (Raise (ValueError IncorrectSignature), with_trace w [registering]).
Proof.
  intros Hargs Hvar. unfold set_command. rewrite bind_emit, Hargs, Hvar.
  reflexivity.
Qed.

(** C7, as the code has it: when the handler passes the signature check
    (it has a positional parameter or takes [*args]), takes no [**kwargs],
    and the pattern names a group that is not one of its keyword-only
    parameters, [set_command] raises the [ValueError] that lists the
    groups that do not fit, and both registries and all their lists are as
    they were: only the log record of the registration was added. *)
Theorem set_command_rejects_unfit_groups (cls : Dispatcher)
    (channels roles : option (list string)) (src : string)
    (callback : Callback) (w : World) (g : string) :
  accepts_message callback ->
  fap_varkw callback = None ->
  g ∈ Re.findall args_re src ->
  g ∉ fap_kwonlyargs callback ->
  set_command cls channels roles (Some src) callback w
  = (Raise (ValueError (GroupsDontFit (missings_of src callback))),
     with_trace w [registering])
  /\ command_layers
       (set_command cls channels roles (Some src) callback w).2
     = command_layers w
  /\ g ∈ missings_of src callback.
Proof.
  intros Hsig Hkw Hin Hnot.
  assert (Hg : g ∈ missings_of src callback).
  { unfold missings_of. apply elem_of_difference.
    split; [by apply elem_of_list_to_set |].
    by rewrite elem_of_list_to_set. }
  assert (Hsrc : pattern_given (Some src) = Some src).
  { destruct src as [|c src']; [| reflexivity].
    vm_compute in Hin. by apply elem_of_nil in Hin. }
  assert (Hrun : set_command cls channels roles (Some src) callback w
                 = (Raise (ValueError (GroupsDontFit (missings_of src callback))),
                    with_trace w [registering])).
  { rewrite set_command_checked by done. rewrite Hsrc, Hkw.
    unfold bind, check_pattern_args. fold (missings_of src callback).
    rewrite bool_decide_eq_true_2; [reflexivity |].
    intros Hempty. rewrite Hempty in Hg. by apply not_elem_of_empty in Hg. }
  split; [exact Hrun |]. split; [by rewrite Hrun | exact Hg].
Qed.

Lemma set_command_rejects_unfit_groups_witness :
  accepts_message (spy "ban")
  /\ fap_varkw (spy "ban") = None
  /\ "user" ∈ Re.findall args_re kick_pattern
  /\ ("user" ∉ fap_kwonlyargs (spy "ban"))
  /\ set_command the_class None None (Some kick_pattern) (spy "ban") fresh_world
     = (Raise (ValueError (GroupsDontFit (missings_of kick_pattern (spy "ban")))),
        with_trace fresh_world [registering])
  /\ command_layers
       (set_command the_class None None (Some kick_pattern) (spy "ban")
          fresh_world).2
     = command_layers fresh_world
  /\ "user" ∈ missings_of kick_pattern (spy "ban").
Proof.
  assert (H1 : accepts_message (spy "ban")) by (left; discriminate).
  assert (H2 : fap_varkw (spy "ban") = None) by reflexivity.
  assert (H3 : "user" ∈ Re.findall args_re kick_pattern)
    by (vm_compute; apply list_elem_of_here).
  assert (H4 : "user" ∉ fap_kwonlyargs (spy "ban")) by apply not_elem_of_nil.
  split; [exact H1 |]. split; [exact H2 |]. split; [exact H3 |].
  split; [exact H4 |].
  exact (set_command_rejects_unfit_groups the_class None None kick_pattern
           (spy "ban") fresh_world "user" H1 H2 H3 H4).
Defined.

(** C7 as stated fails where the signature check comes first: [def nop()]
    with a pattern that names [x] takes no [**kwargs] and has no parameter
    [x], yet the registration ends with the [ValueError] about the
    signature, not with the one about the groups. *)
Lemma unfit_groups_behind_signature_check :
  ~ (forall (cls : Dispatcher) (channels roles : option (list string))
            (src : string) (callback : Callback) (w : World) (g : string),
        fap_varkw callback = None ->
        g ∈ Re.findall args_re src ->
        g ∉ fap_kwonlyargs callback ->
        exists missings w',
          set_command cls channels roles (Some src) callback w
          = (Raise (ValueError (GroupsDontFit missings)), w')
          /\ command_layers w' = command_layers w).
Proof.
  intros H.
  destruct (H the_class None None "(?P<x>\S+)" no_parameter_handler
              fresh_world "x") as (missings & w' & Hrun & _).
  - reflexivity.
  - vm_compute. apply list_elem_of_here.
  - apply not_elem_of_nil.
  - rewrite set_command_bad_signature in Hrun by reflexivity. discriminate.
Qed.

(** ** Unused keyword-only parameters (C8) *)

(** In general: whenever the warning branch is reached, the registration
    ends with [NameError] and only the first log record was added. *)
Lemma set_command_unused_kwonly (cls : Dispatcher)
    (channels roles : option (list string)) (src : string)
    (callback : Callback) (w : World) (x : string) :
  src <> EmptyString ->
  accepts_message callback ->
  fap_varkw callback = None ->
  (forall g, g ∈ Re.findall args_re src -> g ∈ fap_kwonlyargs callback) ->
  x ∈ fap_kwonlyargs callback ->
  x ∉ Re.findall args_re src ->
  set_command cls channels roles (Some src) callback w
  = (Raise (NameError "unused"), with_trace w [registering]).
Proof.
  intros Hsrc Hsig Hkw Hfit Hx Hnot.
  rewrite set_command_checked by done.
  assert (Hgiven : pattern_given (Some src) = Some src)
    by (by destruct src).
  rewrite Hgiven, Hkw. unfold bind, check_pattern_args.
  rewrite bool_decide_eq_false_2.
  - rewrite bool_decide_eq_true_2; [reflexivity |].
    intros Hempty.
    assert (Hin : x ∈ (list_to_set (fap_kwonlyargs callback)
                         ∖ list_to_set (Re.findall args_re src) : gset string)).
    { apply elem_of_difference. rewrite !elem_of_list_to_set. by split. }
    rewrite Hempty in Hin. by apply not_elem_of_empty in Hin.
  - intros Hne. destruct Hne. apply set_eq. intros g.
    rewrite elem_of_difference, !elem_of_list_to_set.
    split; [intros [Hg Hng]; destruct Hng; by apply Hfit |].
    intros Hg. by apply not_elem_of_empty in Hg.
Qed.

(** C8, at the failing input: [kick] declares the keyword-only parameters
    [user] and [reason], its pattern names [user] only.  The registration
    raises [NameError], logs no warning and inserts nothing. *)
Theorem unused_kwonly_registration_raises :
  set_command the_class None None (Some kick_pattern) kick_handler fresh_world
  = (Raise (NameError "unused"),
     with_trace fresh_world [registering])
  /\ dispatcher_get
       (set_command the_class None None (Some kick_pattern) kick_handler
          fresh_world).2 the_class "kick" = None.
Proof. split; vm_compute; reflexivity. Qed.

(** A registration that returns has compiled the pattern and written one
    entry, into the first layer of the class's command chain. *)
Lemma set_command_ret (cls : Dispatcher) (channels roles : option (list string))
    (pattern : option string) (callback : Callback) (w w' : World) :
  set_command cls channels roles pattern callback w = (Ret tt, w') ->
  exists re,
    compile_pattern pattern = Ret re
    /\ command_layers w'
       = chain_setitem (command_layers w) (commands_maps cls)
           (command_name callback)
           {| channels := channels; roles := roles;
              regexp := re; callback := callback |}
    /\ forward_layers w' = forward_layers w
    /\ forward_lists w' = forward_lists w.
Proof.
  unfold set_command. rewrite bind_emit.
  destruct ((length (fap_args callback) <? 1)%nat
            && negb (bool_decide (is_Some (fap_varargs callback))));
    [discriminate |].
  rewrite bind_ret.
  assert (Hcheck : forall src w0 r w1,
             check_pattern_args src callback w0 = (r, w1) -> w1 = w0).
  { intros src w0 r w1. unfold check_pattern_args.
    repeat case_bool_decide; unfold ret, raise; congruence. }
  unfold bind at 1.
  destruct (match pattern_given pattern, fap_varkw callback with
            | Some src, None => check_pattern_args src callback
            | _, _ => ret tt
            end (with_trace w [registering])) as [[[]|e] w1] eqn:Hstage;
    [| discriminate].
  assert (w1 = with_trace w [registering]) as ->.
  { destruct (pattern_given pattern), (fap_varkw callback);
      try (by injection Hstage as Hw); by eapply Hcheck. }
  rewrite bind_lift.
  destruct (compile_pattern pattern) as [re|e]; [| discriminate].
  rewrite bind_get_world. unfold store_commands. intros [= <-].
  exists re. by repeat split.
Qed.

Lemma fold_left_maps (bases : list Base) (f : Dispatcher -> list nat)
    (acc : list nat) :
  fold_left (fun acc b =>
               match b with
               | DispatcherClass d => acc ++ f d
               | PlainClass => acc
               end) bases acc
  = acc ++ flat_map (fun b => match b with
                              | DispatcherClass d => f d
                              | PlainClass => []
                              end) bases.
Proof.
  revert acc. induction bases as [|[|d] bases IH]; intros acc; cbn.
  - by rewrite app_nil_r.
  - apply IH.
  - rewrite IH. by rewrite <- app_assoc.
Qed.

(** The class made by [DispatcherMeta.__new__]: a new empty table in
    front of the layers of its bases. *)
Lemma DispatcherMeta_new_spec (bases : list Base) (w w' : World)
    (cls : Dispatcher) :
  DispatcherMeta_new bases w = (Ret cls, w') ->
  commands_maps cls
  = length (command_layers w)
      :: flat_map (fun b => match b with
                            | DispatcherClass d => commands_maps d
                            | PlainClass => []
                            end) bases
  /\ command_layers w' = command_layers w ++ [∅].
Proof.
  unfold DispatcherMeta_new. intros [= <- <-]. cbn.
  by rewrite fold_left_maps.
Qed.

Lemma DispatcherMeta_new_inherits (bases : list Base) (w w' : World)
    (cls a : Dispatcher) (b : Base) :
  DispatcherMeta_new bases w = (Ret cls, w') ->
  b ∈ bases -> base_inherits b a ->
  own_commands a ∈ tail (commands_maps cls).
Proof.
  intros Hnew Hb Ha. apply DispatcherMeta_new_spec in Hnew as [-> _]. cbn.
  apply list_elem_of_In, in_flat_map. exists b.
  split; [by apply list_elem_of_In |].
  destruct b as [|d]; [done |]. by apply list_elem_of_In.
Qed.

(** C4. Let [B] be made by [DispatcherMeta.__new__] from bases one of
    which is [A] or descends from it, and take any later world.  When [B]
    registers a command, a lookup through [B] resolves to that definition,
    the own table of [A] is exactly what it was, and a lookup through [A]
    still resolves to what [A] had under that name.  When [A] registers a
    command under a name that [B] has defined, the entry goes to the own
    table of [A] and a lookup through [B] still resolves to the definition
    of [B]. *)
Theorem descendant_command_shadows_ancestor
    (A B : Dispatcher) (bases : list Base) (base : Base) (w0 w1 : World) :
  commands_maps A <> [] ->
  own_commands A < length (command_layers w0) ->
  base ∈ bases -> base_inherits base A ->
  DispatcherMeta_new bases w0 = (Ret B, w1) ->
  forall w : World,
    length (command_layers w1) <= length (command_layers w) ->
    (forall channels roles pattern callback w' defA,
        layer (command_layers w) (own_commands A) !! command_name callback
        = Some defA ->
        set_command B channels roles pattern callback w = (Ret tt, w') ->
        exists re,
          compile_pattern pattern = Ret re
          /\ dispatcher_get w' B (command_name callback)
             = Some (entry channels roles re callback)
          /\ layer (command_layers w') (own_commands A)
             = layer (command_layers w) (own_commands A)
          /\ dispatcher_get w' A (command_name callback) = Some defA)
    /\ (forall channels roles pattern callback w' defB,
          layer (command_layers w) (own_commands B) !! command_name callback
          = Some defB ->
          set_command A channels roles pattern callback w = (Ret tt, w') ->
          exists re,
            compile_pattern pattern = Ret re
            /\ layer (command_layers w') (own_commands A)
                 !! command_name callback
               = Some (entry channels roles re callback)
            /\ dispatcher_get w' A (command_name callback)
               = Some (entry channels roles re callback)
            /\ dispatcher_get w' B (command_name callback) = Some defB).
Proof.
  intros HA Ha Hbase Hinh Hnew w Hlen.
  pose proof (DispatcherMeta_new_inherits _ _ _ _ _ _ Hnew Hbase Hinh) as Htail.
  apply DispatcherMeta_new_spec in Hnew as [HB Hw1].
  rewrite Hw1, length_app in Hlen. cbn in Hlen.
  destruct (commands_maps A) as [|a restA] eqn:HmA; [done |].
  unfold own_commands in *. rewrite HmA in *. rewrite HB in *. cbn in *.
  set (b := length (command_layers w0)) in *.
  assert (Hab : a <> b) by lia.
  split.
  - intros channels roles pattern callback w' defA HdefA Hrun.
    apply set_command_ret in Hrun as (re & Hre & Hlayers & _).
    exists re. split; [exact Hre |]. rewrite HB in Hlayers.
    unfold dispatcher_get. rewrite !chain_get_getitem, Hlayers, HB, HmA.
    split; [apply chain_getitem_setitem; lia |].
    split; [by apply layer_setitem_other |].
    cbn - [chain_setitem]. rewrite layer_setitem_other by done.
    by rewrite HdefA.
  - intros channels roles pattern callback w' defB HdefB Hrun.
    apply set_command_ret in Hrun as (re & Hre & Hlayers & _).
    exists re. split; [exact Hre |]. rewrite HmA in Hlayers.
    unfold dispatcher_get. rewrite !chain_get_getitem, Hlayers, HB, HmA.
    split.
    { cbn. rewrite layer_insert_eq by lia. apply lookup_insert_eq. }
    split; [apply chain_getitem_setitem; lia |].
    cbn - [chain_setitem]. rewrite layer_setitem_other by done.
    by rewrite HdefB.
Qed.

Lemma descendant_command_shadows_ancestor_witness :
  (commands_maps the_class <> []
   /\ own_commands the_class < length (command_layers fresh_world)
   /\ DispatcherClass the_class ∈ [PlainClass; DispatcherClass the_class]
   /\ base_inherits (DispatcherClass the_class) the_class
   /\ DispatcherMeta_new [PlainClass; DispatcherClass the_class] fresh_world
      = (Ret child_class, two_class_world))
  /\ (length (command_layers two_class_world)
        <= length (command_layers parent_registered)
      /\ layer (command_layers parent_registered) (own_commands the_class)
           !! command_name child_ping
         = Some (entry None None None parent_ping)
      /\ set_command child_class None None None child_ping parent_registered
         = (Ret tt,
            (set_command child_class None None None child_ping
               parent_registered).2)
      /\ exists re,
          compile_pattern None = Ret re
          /\ dispatcher_get
               (set_command child_class None None None child_ping
                  parent_registered).2 child_class (command_name child_ping)
             = Some (entry None None re child_ping)
          /\ layer (command_layers
                      (set_command child_class None None None child_ping
                         parent_registered).2) (own_commands the_class)
             = layer (command_layers parent_registered)
                 (own_commands the_class)
          /\ dispatcher_get
               (set_command child_class None None None child_ping
                  parent_registered).2 the_class (command_name child_ping)
             = Some (entry None None None parent_ping))
  /\ (length (command_layers two_class_world)
        <= length (command_layers child_registered)
      /\ layer (command_layers child_registered) (own_commands child_class)
           !! command_name parent_ping
         = Some (entry None None None child_ping)
      /\ set_command the_class None None None parent_ping child_registered
         = (Ret tt,
            (set_command the_class None None None parent_ping
               child_registered).2)
      /\ exists re,
          compile_pattern None = Ret re
          /\ layer (command_layers
                      (set_command the_class None None None parent_ping
                         child_registered).2) (own_commands the_class)
               !! command_name parent_ping
             = Some (entry None None re parent_ping)
          /\ dispatcher_get
               (set_command the_class None None None parent_ping
                  child_registered).2 the_class (command_name parent_ping)
             = Some (entry None None re parent_ping)
          /\ dispatcher_get
               (set_command the_class None None None parent_ping
                  child_registered).2 child_class (command_name parent_ping)
             = Some (entry None None None child_ping)).
Proof.
  assert (H1 : commands_maps the_class <> []) by discriminate.
  assert (H2 : own_commands the_class < length (command_layers fresh_world))
    by (cbn; lia).
  assert (H3 : DispatcherClass the_class ∈ [PlainClass; DispatcherClass the_class])
    by (apply list_elem_of_further, list_elem_of_here).
  assert (H4 : base_inherits (DispatcherClass the_class) the_class)
    by apply list_elem_of_here.
  assert (H5 : DispatcherMeta_new [PlainClass; DispatcherClass the_class]
                 fresh_world = (Ret child_class, two_class_world))
    by reflexivity.
  assert (L1 : length (command_layers two_class_world)
               <= length (command_layers parent_registered))
    by (vm_compute; lia).
  assert (L2 : length (command_layers two_class_world)
               <= length (command_layers child_registered))
    by (vm_compute; lia).
  assert (D1 : layer (command_layers parent_registered) (own_commands the_class)
                 !! command_name child_ping
               = Some (entry None None None parent_ping))
    by (vm_compute; reflexivity).
  assert (D2 : layer (command_layers child_registered) (own_commands child_class)
                 !! command_name parent_ping
               = Some (entry None None None child_ping))
    by (vm_compute; reflexivity).
  assert (R1 : set_command child_class None None None child_ping
                 parent_registered
               = (Ret tt,
                  (set_command child_class None None None child_ping
                     parent_registered).2))
    by (vm_compute; reflexivity).
  assert (R2 : set_command the_class None None None parent_ping
                 child_registered
               = (Ret tt,
                  (set_command the_class None None None parent_ping
                     child_registered).2))
    by (vm_compute; reflexivity).
  split; [by repeat split |]. split.
  - split; [exact L1 |]. split; [exact D1 |]. split; [exact R1 |].
    exact (proj1 (descendant_command_shadows_ancestor the_class child_class
                    _ _ fresh_world two_class_world H1 H2 H3 H4 H5
                    parent_registered L1)
             None None None child_ping _ _ D1 R1).
  - split; [exact L2 |]. split; [exact D2 |]. split; [exact R2 |].
    exact (proj2 (descendant_command_shadows_ancestor the_class child_class
                    _ _ fresh_world two_class_world H1 H2 H3 H4 H5
                    child_registered L2)
             None None None parent_ping _ _ D2 R2).
Defined.

(** ** Invocation by prefix (C6) *)

Lemma split_on_zero (sep : ascii) (s : string) : split_on sep 0 s = [s].
Proof.
  induction s as [|c s IH]; cbn; [reflexivity |].
  rewrite andb_false_r. by rewrite IH.
Qed.

Lemma split_on_no_space (n : nat) (s : string) :
  has_space s = false -> split_on " " n s = [s].
Proof.
  induction s as [|c s IH]; cbn; [reflexivity |].
  intros H. apply orb_false_elim in H as [Hc Hs].
  rewrite Hc. cbn. by rewrite IH.
Qed.

Lemma split_on_first_space (n : nat) (name rest : string) :
  has_space name = false ->
  split_on " " (S n) (name +:+ String " " rest) = name :: split_on " " n rest.
Proof.
  induction name as [|c name IH]; intros H.
  - reflexivity.
  - cbn in H. apply orb_false_elim in H as [Hc Hs].
    rewrite append_cons. cbn [split_on]. rewrite Hc. cbn [andb].
    by rewrite IH.
Qed.

(** Every text is a name without space, alone or followed by one space
    and the rest. *)
Lemma first_space_split (s : string) :
  exists name,
    has_space name = false
    /\ (s = name \/ exists rest, s = name +:+ String " " rest).
Proof.
  induction s as [|c s (name & Hname & Hs)].
  - exists EmptyString. split; [reflexivity | by left].
  - destruct (Ascii.eqb c " ") eqn:Hc.
    + apply Ascii.eqb_eq in Hc as ->. exists EmptyString.
      split; [reflexivity |]. right. by exists s.
    + exists (String c name). split; [cbn; by rewrite Hc, Hname |].
      destruct Hs as [-> | [rest ->]]; [by left |]. right. by exists rest.
Qed.

Lemma startswith_one (c : ascii) (rest : string) :
  startswith (String c rest) (String c EmptyString) = true.
Proof.
  unfold startswith. cbn. destruct (ascii_dec c c); [| done]. by destruct rest.
Qed.

(** C6, as the code has it: with a prefix of one character, the command
    name is the text between the prefix and the first space and the payload
    is the text after that space; without a space the name is all the text
    after the prefix and the payload is empty.  Every text that starts with
    the prefix is of one of these two forms. *)
Theorem prefix_invocation_splits_at_first_space
    (c : ascii) (self : Client) (message : Message) (name : string) :
  has_space name = false ->
  (forall payload,
      content message = String c (name +:+ String " " payload) ->
      detect (String c EmptyString) self message = Ret (Some (name, payload)))
  /\ (content message = String c name ->
      detect (String c EmptyString) self message
      = Ret (Some (name, EmptyString)))
  /\ (forall rest,
        content message = String c rest ->
        startswith (content message) (String c EmptyString) = true
        /\ exists name',
            has_space name' = false
            /\ (rest = name' \/ exists payload, rest = name' +:+ String " " payload)).
Proof.
  intros Hname. split; [| split].
  - intros payload Hc. unfold detect. rewrite Hc, startswith_one.
    cbn [str_drop1]. rewrite split_on_first_space by done.
    by rewrite split_on_zero.
  - intros Hc. unfold detect. rewrite Hc, startswith_one.
    cbn [str_drop1]. by rewrite split_on_no_space.
  - intros rest Hc. rewrite Hc. split; [apply startswith_one |].
    apply first_space_split.
Qed.

Lemma prefix_invocation_splits_at_first_space_witness :
  has_space "help" = false
  /\ content (text_in "general" "!help math") = String "!" ("help" +:+ String " " "math")
  /\ detect "!" the_bot (text_in "general" "!help math")
     = Ret (Some ("help", "math")).
Proof.
  assert (H : has_space "help" = false) by reflexivity.
  split; [exact H |]. split; [reflexivity |].
  exact (proj1 (prefix_invocation_splits_at_first_space "!" the_bot
                  (text_in "general" "!help math") "help" H)
           "math" eq_refl).
Defined.

(** C6 as stated fails twice.  With the prefix [!!] and the text [!!ping]
    the name that [on_message] extracts is [!ping]: one character is
    dropped, whatever the length of the prefix.  With the prefix [!] and a
    line break after [ping] the name is the whole rest of the text: only
    the space character delimits it. *)
Lemma first_token_claim_fails :
  ~ (forall (PREFIX : string) (self : Client) (message : Message),
        startswith (content message) PREFIX = true ->
        exists payload,
          detect PREFIX self message
          = Ret (Some (first_token_after PREFIX (content message), payload)))
  /\ detect "!!" the_bot (text_in "general" "!!ping")
     = Ret (Some ("!ping", EmptyString))
  /\ first_token_after "!!" "!!ping" = "ping"
  /\ detect "!" the_bot (text_in "general" ("!ping" +:+ chr 10 +:+ "pong"))
     = Ret (Some ("ping" +:+ chr 10 +:+ "pong", EmptyString))
  /\ first_token_after "!" ("!ping" +:+ chr 10 +:+ "pong") = "ping".
Proof.
  split; [| repeat split; reflexivity].
  intros H.
  destruct (H "!!" the_bot (text_in "general" "!!ping") eq_refl) as [payload Hp].
  vm_compute in Hp. discriminate.
Qed.

(** ** The pattern stage (C9, C10) *)

Lemma resolve_and_run_allowed (show_scope : list string -> string)
    (self : Client) (cmd_name payload : string) (message : Message)
    (cmd : Command) (w : World) :
  dispatcher_get w (cls_of self) cmd_name = Some cmd ->
  channel_allowed cmd message = true ->
  role_allowed cmd message = true ->
  resolve_and_run show_scope self cmd_name payload message w
  = run_command cmd_name payload cmd message w.
Proof.
  intros Hget Hch Hrole. unfold resolve_and_run.
  by rewrite bind_get_world, Hget, Hch, Hrole.
Qed.

Lemma run_command_no_match (cmd_name payload : string) (cmd : Command)
    (message : Message) (p : Re.Pattern) (w : World) :
  regexp cmd = Some p ->
  Re.re_match (Re.prog p) payload = None ->
  run_command cmd_name payload cmd message w
  = (Ret tt,
     with_trace w
       [syntax_warning;
        Sent (channel_name message) (usage_text message cmd_name p)]).
Proof.
  intros Hp Hm. unfold run_command. rewrite Hp, Hm, bind_emit.
  unfold emit. by rewrite with_trace_app.
Qed.

Lemma run_command_match (cmd_name payload : string) (cmd : Command)
    (message : Message) (p : Re.Pattern) (m : Re.Match)
    (kwargs : list (string * pyval)) (w : World) :
  regexp cmd = Some p ->
  Re.re_match (Re.prog p) payload = Some m ->
  cast_using_type_hints (cb_type_hints (callback cmd))
    (Re.groupdict (Re.prog p) m) = Ret kwargs ->
  run_command cmd_name payload cmd message w
  = (Ret tt,
     with_trace w
       (Log DEBUG "Dispatch to '%s' with kwargs %s"
          :: call_events cmd message kwargs)).
Proof.
  intros Hp Hm Hcast. unfold run_command. rewrite Hp, Hm, bind_lift, Hcast.
  rewrite bind_emit. unfold try_except, call_events.
  rewrite call_command_spec.
  destruct (cb_call (callback cmd) message kwargs) as [e|].
  - rewrite !bind_emit. unfold emit. by rewrite !with_trace_app.
  - by rewrite with_trace_app.
Qed.

(** [pattern.match] succeeds exactly when the pattern matches some
    initial part of the text, in front of whatever follows. *)
Lemma re_match_prefix (r : Re.regex) (text : string) :
  is_Some (Re.re_match r text)
  <-> exists s t, text = s +:+ t /\ Re.Matches r s t.
Proof.
  unfold Re.re_match. split.
  - intros [m Hm]. apply ReFacts.rmatch_sound in Hm as (s & t & c & -> & Hr & _).
    by exists s, t.
  - intros (s & t & -> & Hr).
    pose proof (ReFacts.rmatch_complete r s t Hr Re.Match
                  (fun rest caps => Some {| Re.m_rest := rest; Re.m_groups := caps |})
                  (fun caps => ltac:(discriminate)) ∅) as Hne.
    destruct (Re.rmatch r (s +:+ t) ∅ _) as [m|]; [by exists m | done].
Qed.

(** The text that a successful match leaves is what follows the part it
    matched. *)
Lemma re_match_rest (r : Re.regex) (text : string) (m : Re.Match) :
  Re.re_match r text = Some m ->
  exists s, text = s +:+ Re.m_rest m /\ Re.Matches r s (Re.m_rest m).
Proof.
  unfold Re.re_match. intros Hm.
  apply ReFacts.rmatch_sound in Hm as (s & t & c & -> & Hr & [= <-]).
  by exists s.
Qed.

(** C9. For a message that passes the forwards, resolves to a command and
    passes both scope checks, where the command has a pattern: the match
    succeeds exactly when the pattern matches an initial part of the
    payload (anything may follow, unless the pattern says otherwise with
    [$]).  When it fails, [on_message] returns after the usage reply, whose
    text contains the text of the pattern, and no handler of a command is
    called.  When it succeeds, what it leaves of the payload is ignored and
    the handler is called with the cast groups. *)
Theorem pattern_stage_matches_prefix_or_denies
    (PREFIX : string) (show_scope : list string -> string) (self : Client)
    (message : Message) (w : World) (cmd_name payload : string)
    (cmd : Command) (p : Re.Pattern) :
  let subs := forwarder_get w (cls_of self) (channel_name message) in
  author_id message <> user_id self ->
  forward_result subs message = Ret true ->
  detect PREFIX self message = Ret (Some (cmd_name, payload)) ->
  dispatcher_get w (cls_of self) cmd_name = Some cmd ->
  channel_allowed cmd message = true ->
  role_allowed cmd message = true ->
  regexp cmd = Some p ->
  (is_Some (Re.re_match (Re.prog p) payload)
   <-> exists s t, payload = s +:+ t /\ Re.Matches (Re.prog p) s t)
  /\ (Re.re_match (Re.prog p) payload = None ->
      on_message PREFIX show_scope self message w
      = (Ret tt,
         with_trace w
           (received :: forward_events (invoked subs message) message
              ++ [syntax_warning;
                  Sent (channel_name message)
                    (usage_text message cmd_name p)]))
      /\ (exists before after,
             usage_text message cmd_name p
             = before +:+ Re.pattern p +:+ after)
      /\ existsb is_dispatched
           (skipn (length (trace w))
              (trace (on_message PREFIX show_scope self message w).2))
         = false)
  /\ (forall m kwargs,
        Re.re_match (Re.prog p) payload = Some m ->
        cast_using_type_hints (cb_type_hints (callback cmd))
          (Re.groupdict (Re.prog p) m) = Ret kwargs ->
        (exists s,
            payload = s +:+ Re.m_rest m
            /\ Re.Matches (Re.prog p) s (Re.m_rest m))
        /\ on_message PREFIX show_scope self message w
           = (Ret tt,
              with_trace w
                (received :: forward_events (invoked subs message) message
                   ++ Log DEBUG "Dispatch to '%s' with kwargs %s"
                   :: call_events cmd message kwargs))).
Proof.
  intros subs Hauthor Hfw Hdetect Hget Hch Hrole Hp.
  split; [apply re_match_prefix |]. split.
  2: { intros m kwargs Hm Hcast. split; [by apply re_match_rest |].
       rewrite on_message_spec by done. fold subs. rewrite Hfw, Hdetect.
       rewrite (resolve_and_run_allowed _ _ _ _ _ cmd) by done.
       rewrite (run_command_match _ _ _ _ p m kwargs) by done.
       by rewrite with_trace_app. }
  intros Hm.
  assert (Hrun : on_message PREFIX show_scope self message w
                 = (Ret tt,
                    with_trace w
                      (received :: forward_events (invoked subs message) message
                         ++ [syntax_warning;
                             Sent (channel_name message)
                               (usage_text message cmd_name p)]))).
  { rewrite on_message_spec by done. fold subs. rewrite Hfw, Hdetect.
    rewrite (resolve_and_run_allowed _ _ _ _ _ cmd) by done.
    rewrite (run_command_no_match _ _ _ _ p) by done.
    by rewrite with_trace_app. }
  split; [exact Hrun |]. split.
  - exists (addressed message cmd_name
              +:+ " n'a pas pu " +:+ chr 234 +:+ "tre ex" +:+ chr 233 +:+ "cut"
              +:+ chr 233 +:+ "e car elle r" +:+ chr 233
              +:+ "pond au pattern suivant: ```"), (dquote +:+ "```").
    unfold usage_text. by rewrite !append_assoc.
  - rewrite Hrun. cbn [snd with_trace trace].
    rewrite skipn_app, skipn_all, Nat.sub_diag. cbn [skipn app existsb is_dispatched orb].
    rewrite existsb_app. cbn. rewrite orb_false_r.
    clear. induction (invoked subs message) as [|sub l IH]; [done | exact IH].
Qed.

Lemma pattern_stage_matches_prefix_or_denies_witness :
  (author_id (text_in "general" "!add") <> user_id the_bot
   /\ forward_result
        (forwarder_get add_registered (cls_of the_bot)
           (channel_name (text_in "general" "!add")))
        (text_in "general" "!add") = Ret true
   /\ detect "!" the_bot (text_in "general" "!add")
      = Ret (Some ("add", EmptyString))
   /\ dispatcher_get add_registered (cls_of the_bot) "add"
      = Some (entry None None (Some add_compiled) add_handler)
   /\ channel_allowed (entry None None (Some add_compiled) add_handler)
        (text_in "general" "!add") = true
   /\ role_allowed (entry None None (Some add_compiled) add_handler)
        (text_in "general" "!add") = true
   /\ regexp (entry None None (Some add_compiled) add_handler)
      = Some add_compiled
   /\ Re.re_match (Re.prog add_compiled) EmptyString = None)
  /\ on_message "!" show_nothing the_bot (text_in "general" "!add")
       add_registered
     = (Ret tt,
        with_trace add_registered
          (received
             :: forward_events
                  (invoked
                     (forwarder_get add_registered (cls_of the_bot)
                        (channel_name (text_in "general" "!add")))
                     (text_in "general" "!add"))
                  (text_in "general" "!add")
             ++ [syntax_warning;
                 Sent (channel_name (text_in "general" "!add"))
                   (usage_text (text_in "general" "!add") "add" add_compiled)])).
Proof.
  assert (H1 : author_id (text_in "general" "!add") <> user_id the_bot)
    by discriminate.
  assert (H2 : forward_result
                 (forwarder_get add_registered (cls_of the_bot)
                    (channel_name (text_in "general" "!add")))
                 (text_in "general" "!add") = Ret true)
    by reflexivity.
  assert (H3 : detect "!" the_bot (text_in "general" "!add")
               = Ret (Some ("add", EmptyString))) by reflexivity.
  assert (H4 : dispatcher_get add_registered (cls_of the_bot) "add"
               = Some (entry None None (Some add_compiled) add_handler))
    by reflexivity.
  assert (H5 : channel_allowed (entry None None (Some add_compiled) add_handler)
                 (text_in "general" "!add") = true) by reflexivity.
  assert (H6 : role_allowed (entry None None (Some add_compiled) add_handler)
                 (text_in "general" "!add") = true) by reflexivity.
  assert (H7 : regexp (entry None None (Some add_compiled) add_handler)
               = Some add_compiled) by reflexivity.
  assert (H8 : Re.re_match (Re.prog add_compiled) EmptyString = None)
    by reflexivity.
  split; [exact (conj H1 (conj H2 (conj H3 (conj H4 (conj H5 (conj H6 (conj H7 H8))))))) |].
  exact (proj1 (proj1 (proj2 (pattern_stage_matches_prefix_or_denies "!"
                                show_nothing the_bot (text_in "general" "!add")
                                add_registered "add" EmptyString _ add_compiled
                                H1 H2 H3 H4 H5 H6 H7)) H8)).
Defined.






(** ** The scenarios of the specification, evaluated *)

Example args_re_compiled :
  Re.compile args_re_source
  = Ret {| Re.pattern := args_re_source; Re.prog := args_re |}.
Proof. reflexivity. Qed.

Example add_pattern_compiled : Re.compile add_pattern = Ret add_compiled.
Proof. reflexivity. Qed.

Example help_pattern_compiled : Re.compile help_pattern = Ret help_compiled.
Proof. reflexivity. Qed.

(** [!help math]: the payload is [math] and the handler gets
    [cmd_name = "math"]. *)
Example help_math :
  detect "!" the_bot (text_in "general" "!help math")
  = Ret (Some ("help", "math"))
  /\ on_message "!" show_nothing the_bot (text_in "general" "!help math")
       help_registered
     = (Ret tt,
        with_trace help_registered
          [received;
           Log DEBUG "Dispatch to '%s' with kwargs %s";
           Dispatched true help_handler (text_in "general" "!help math")
             [("cmd_name", VStr "math")]]).
Proof. split; reflexivity. Qed.

(** [match], not [fullmatch] and not [search]: text may follow the match,
    none may precede it. *)
Example match_is_anchored_at_the_start_only :
  is_Some (Re.re_match (Re.prog add_compiled) "12 and more")
  /\ Re.re_fullmatch (Re.prog add_compiled) "12 and more" = None
  /\ Re.re_match (Re.RSet (Re.CLit "b")) "ab" = None
  /\ Re.re_match (Re.RSeq (Re.RSet (Re.CLit "a")) Re.REnd) "ab" = None.
Proof. repeat split; try reflexivity. by eexists. Qed.

(** An unknown command is answered with a denial that names it. *)
Example unknown_command :
  on_message "!" show_nothing the_bot (text_in "general" "!frobnicate")
    help_registered
  = (Ret tt,
     with_trace help_registered
       [received;
        Log WARNING ("Command " +:+ dquote +:+ "{cmd_name}" +:+ dquote
                     +:+ " not found.");
        Sent "general" (unknown_text (text_in "general" "!frobnicate")
                          "frobnicate")]).
Proof. reflexivity. Qed.

(** * Further properties of the code *)

(** ** The denials of [on_message] *)

Lemma str_in_spec (x : string) (l : list string) :
  str_in x l = true <-> x ∈ l.
Proof.
  unfold str_in. rewrite existsb_exists. split.
  - intros (y & Hy & Heq). apply String.eqb_eq in Heq as ->.
    by apply list_elem_of_In.
  - intros Hx. exists x. split; [by apply list_elem_of_In | apply String.eqb_refl].
Qed.

Lemma str_in_false (x : string) (l : list string) :
  x ∉ l -> str_in x l = false.
Proof.
  intros Hx. destruct (str_in x l) eqn:H; [| done].
  by apply str_in_spec in H.
Qed.

(** [on_message] from the point where the forwards let the message
    through and the text names a command. *)
Lemma on_message_resolves (PREFIX : string)
    (show_scope : list string -> string) (self : Client) (message : Message)
    (w : World) (cmd_name payload : string) :
  let subs := forwarder_get w (cls_of self) (channel_name message) in
  author_id message <> user_id self ->
  forward_result subs message = Ret true ->
  detect PREFIX self message = Ret (Some (cmd_name, payload)) ->
  on_message PREFIX show_scope self message w
  = resolve_and_run show_scope self cmd_name payload message
      (with_trace w (received :: forward_events (invoked subs message) message)).
Proof.
  intros subs Hauthor Hfw Hdetect.
  rewrite on_message_spec by done. fold subs. by rewrite Hfw, Hdetect.
Qed.

(** A name that the registry of the client's class does not resolve is
    answered with one reply that names it, addressed to the author, and
    nothing else happens: no scope is checked, no handler is called. *)
Theorem unknown_command_is_denied (PREFIX : string)
    (show_scope : list string -> string) (self : Client) (message : Message)
    (w : World) (cmd_name payload : string) :
  let subs := forwarder_get w (cls_of self) (channel_name message) in
  author_id message <> user_id self ->
  forward_result subs message = Ret true ->
  detect PREFIX self message = Ret (Some (cmd_name, payload)) ->
  dispatcher_get w (cls_of self) cmd_name = None ->
  on_message PREFIX show_scope self message w
  = (Ret tt,
     with_trace w
       (received :: forward_events (invoked subs message) message
          ++ [not_found_warning;
              Sent (channel_name message) (unknown_text message cmd_name)]))
  /\ exists after,
       unknown_text message cmd_name
       = "<@" +:+ author_id message +:+ ">, la commande " +:+ dquote
           +:+ cmd_name +:+ after.
Proof.
  intros subs Hauthor Hfw Hdetect Hget. split.
  - rewrite (on_message_resolves _ _ _ _ _ cmd_name payload) by done.
    unfold resolve_and_run. rewrite bind_get_world.
    change (dispatcher_get (with_trace w _) (cls_of self) cmd_name)
      with (dispatcher_get w (cls_of self) cmd_name).
    rewrite Hget, bind_emit. unfold emit. by rewrite !with_trace_app.
  - eexists. unfold unknown_text, addressed. rewrite !append_assoc. reflexivity.
Qed.

Lemma unknown_command_is_denied_witness :
  (author_id (text_in "general" "!frobnicate") <> user_id the_bot
   /\ forward_result
        (forwarder_get help_registered (cls_of the_bot)
           (channel_name (text_in "general" "!frobnicate")))
        (text_in "general" "!frobnicate") = Ret true
   /\ detect "!" the_bot (text_in "general" "!frobnicate")
      = Ret (Some ("frobnicate", EmptyString))
   /\ dispatcher_get help_registered (cls_of the_bot) "frobnicate" = None)
  /\ on_message "!" show_nothing the_bot (text_in "general" "!frobnicate")
       help_registered
     = (Ret tt,
        with_trace help_registered
          (received
             :: forward_events
                  (invoked
                     (forwarder_get help_registered (cls_of the_bot)
                        (channel_name (text_in "general" "!frobnicate")))
                     (text_in "general" "!frobnicate"))
                  (text_in "general" "!frobnicate")
             ++ [not_found_warning;
                 Sent (channel_name (text_in "general" "!frobnicate"))
                   (unknown_text (text_in "general" "!frobnicate")
                      "frobnicate")])).
Proof.
  assert (H1 : author_id (text_in "general" "!frobnicate") <> user_id the_bot)
    by discriminate.
  assert (H2 : forward_result
                 (forwarder_get help_registered (cls_of the_bot)
                    (channel_name (text_in "general" "!frobnicate")))
                 (text_in "general" "!frobnicate") = Ret true) by reflexivity.
  assert (H3 : detect "!" the_bot (text_in "general" "!frobnicate")
               = Ret (Some ("frobnicate", EmptyString))) by reflexivity.
  assert (H4 : dispatcher_get help_registered (cls_of the_bot) "frobnicate"
               = None) by reflexivity.
  split; [exact (conj H1 (conj H2 (conj H3 H4))) |].
  exact (proj1 (unknown_command_is_denied "!" show_nothing the_bot
                  (text_in "general" "!frobnicate") help_registered
                  "frobnicate" EmptyString H1 H2 H3 H4)).
Defined.

(** A command restricted to channels is denied in any other channel, with
    one reply that lists the allowed channels; the roles of the author and
    the pattern of the command play no part, and no handler is called. *)
Theorem channel_scope_is_checked_first (PREFIX : string)
    (show_scope : list string -> string) (self : Client) (message : Message)
    (w : World) (cmd_name payload : string) (cmd : Command)
    (allowed : list string) :
  let subs := forwarder_get w (cls_of self) (channel_name message) in
  author_id message <> user_id self ->
  forward_result subs message = Ret true ->
  detect PREFIX self message = Ret (Some (cmd_name, payload)) ->
  dispatcher_get w (cls_of self) cmd_name = Some cmd ->
  channels cmd = Some allowed ->
  channel_name message ∉ allowed ->
  on_message PREFIX show_scope self message w
  = (Ret tt,
     with_trace w
       (received :: forward_events (invoked subs message) message
          ++ [channel_warning;
              Sent (channel_name message)
                (channel_text show_scope message cmd_name cmd)]))
  /\ exists before,
       channel_text show_scope message cmd_name cmd
       = before +:+ show_scope allowed +:+ ".".
Proof.
  intros subs Hauthor Hfw Hdetect Hget Hch Hnot. split.
  - rewrite (on_message_resolves _ _ _ _ _ cmd_name payload) by done.
    unfold resolve_and_run. rewrite bind_get_world.
    change (dispatcher_get (with_trace w _) (cls_of self) cmd_name)
      with (dispatcher_get w (cls_of self) cmd_name).
    rewrite Hget. unfold channel_allowed. rewrite Hch, str_in_false by done.
    cbn [negb]. rewrite bind_emit. unfold emit. by rewrite !with_trace_app.
  - unfold channel_text. rewrite Hch. cbn [default].
    exists (addressed message cmd_name
              +:+ " n'est disponible que dans les salons suivants: ").
    by rewrite !append_assoc.
Qed.

Lemma channel_scope_is_checked_first_witness :
  (author_id (text_in "general" "!kick bob") <> user_id the_bot
   /\ forward_result
        (forwarder_get scoped_registered (cls_of the_bot)
           (channel_name (text_in "general" "!kick bob")))
        (text_in "general" "!kick bob") = Ret true
   /\ detect "!" the_bot (text_in "general" "!kick bob")
      = Ret (Some ("kick", "bob"))
   /\ dispatcher_get scoped_registered (cls_of the_bot) "kick"
      = Some kick_entry
   /\ channels kick_entry = Some ["staff"]
   /\ (channel_name (text_in "general" "!kick bob") ∉ ["staff"]))
  /\ on_message "!" show_nothing the_bot (text_in "general" "!kick bob")
       scoped_registered
     = (Ret tt,
        with_trace scoped_registered
          (received
             :: forward_events
                  (invoked
                     (forwarder_get scoped_registered (cls_of the_bot)
                        (channel_name (text_in "general" "!kick bob")))
                     (text_in "general" "!kick bob"))
                  (text_in "general" "!kick bob")
             ++ [channel_warning;
                 Sent (channel_name (text_in "general" "!kick bob"))
                   (channel_text show_nothing (text_in "general" "!kick bob")
                      "kick" kick_entry)])).
Proof.
  assert (H1 : author_id (text_in "general" "!kick bob") <> user_id the_bot)
    by discriminate.
  assert (H2 : forward_result
                 (forwarder_get scoped_registered (cls_of the_bot)
                    (channel_name (text_in "general" "!kick bob")))
                 (text_in "general" "!kick bob") = Ret true) by reflexivity.
  assert (H3 : detect "!" the_bot (text_in "general" "!kick bob")
               = Ret (Some ("kick", "bob"))) by reflexivity.
  assert (H4 : dispatcher_get scoped_registered (cls_of the_bot) "kick"
               = Some kick_entry) by reflexivity.
  assert (H5 : channels kick_entry = Some ["staff"]) by reflexivity.
  assert (H6 : channel_name (text_in "general" "!kick bob") ∉ ["staff"]).
  { intros Hin. apply list_elem_of_singleton in Hin. discriminate. }
  split; [exact (conj H1 (conj H2 (conj H3 (conj H4 (conj H5 H6))))) |].
  exact (proj1 (channel_scope_is_checked_first "!" show_nothing the_bot
                  (text_in "general" "!kick bob") scoped_registered
                  "kick" "bob" kick_entry ["staff"] H1 H2 H3 H4 H5 H6)).
Defined.

(** In an allowed channel, a command restricted to roles is denied to an
    author who holds none of them, with one reply that lists the roles; no
    handler is called. *)
Theorem role_scope_is_checked_second (PREFIX : string)
    (show_scope : list string -> string) (self : Client) (message : Message)
    (w : World) (cmd_name payload : string) (cmd : Command)
    (allowed : list string) :
  let subs := forwarder_get w (cls_of self) (channel_name message) in
  author_id message <> user_id self ->
  forward_result subs message = Ret true ->
  detect PREFIX self message = Ret (Some (cmd_name, payload)) ->
  dispatcher_get w (cls_of self) cmd_name = Some cmd ->
  channel_allowed cmd message = true ->
  roles cmd = Some allowed ->
  (forall role, role ∈ author_roles message -> role ∉ allowed) ->
  on_message PREFIX show_scope self message w
  = (Ret tt,
     with_trace w
       (received :: forward_events (invoked subs message) message
          ++ [role_warning;
              Sent (channel_name message)
                (role_text show_scope message cmd_name cmd)]))
  /\ exists before,
       role_text show_scope message cmd_name cmd
       = before +:+ show_scope allowed +:+ ".".
Proof.
  intros subs Hauthor Hfw Hdetect Hget Hch Hroles Hnone. split.
  - rewrite (on_message_resolves _ _ _ _ _ cmd_name payload) by done.
    unfold resolve_and_run. rewrite bind_get_world.
    change (dispatcher_get (with_trace w _) (cls_of self) cmd_name)
      with (dispatcher_get w (cls_of self) cmd_name).
    rewrite Hget, Hch. cbn [negb].
    assert (Hdeny : role_allowed cmd message = false).
    { unfold role_allowed. rewrite Hroles.
      destruct (existsb _ (author_roles message)) eqn:Hex; [| done].
      apply existsb_exists in Hex as (role & Hin & Hrole).
      apply str_in_spec in Hrole. apply list_elem_of_In in Hin.
      by destruct (Hnone role Hin). }
    rewrite Hdeny. cbn [negb]. rewrite bind_emit. unfold emit.
    by rewrite !with_trace_app.
  - unfold role_text. rewrite Hroles. cbn [default].
    exists (addressed message cmd_name
              +:+ " n'est disponible que pour les roles suivants: ").
    by rewrite !append_assoc.
Qed.

Lemma role_scope_is_checked_second_witness :
  (author_id (text_in "staff" "!kick bob") <> user_id the_bot
   /\ forward_result
        (forwarder_get scoped_registered (cls_of the_bot)
           (channel_name (text_in "staff" "!kick bob")))
        (text_in "staff" "!kick bob") = Ret true
   /\ detect "!" the_bot (text_in "staff" "!kick bob")
      = Ret (Some ("kick", "bob"))
   /\ dispatcher_get scoped_registered (cls_of the_bot) "kick"
      = Some kick_entry
   /\ channel_allowed kick_entry (text_in "staff" "!kick bob") = true
   /\ roles kick_entry = Some ["admin"]
   /\ (forall role,
          role ∈ author_roles (text_in "staff" "!kick bob") ->
          role ∉ ["admin"]))
  /\ on_message "!" show_nothing the_bot (text_in "staff" "!kick bob")
       scoped_registered
     = (Ret tt,
        with_trace scoped_registered
          (received
             :: forward_events
                  (invoked
                     (forwarder_get scoped_registered (cls_of the_bot)
                        (channel_name (text_in "staff" "!kick bob")))
                     (text_in "staff" "!kick bob"))
                  (text_in "staff" "!kick bob")
             ++ [role_warning;
                 Sent (channel_name (text_in "staff" "!kick bob"))
                   (role_text show_nothing (text_in "staff" "!kick bob")
                      "kick" kick_entry)])).
Proof.
  assert (H1 : author_id (text_in "staff" "!kick bob") <> user_id the_bot)
    by discriminate.
  assert (H2 : forward_result
                 (forwarder_get scoped_registered (cls_of the_bot)
                    (channel_name (text_in "staff" "!kick bob")))
                 (text_in "staff" "!kick bob") = Ret true) by reflexivity.
  assert (H3 : detect "!" the_bot (text_in "staff" "!kick bob")
               = Ret (Some ("kick", "bob"))) by reflexivity.
  assert (H4 : dispatcher_get scoped_registered (cls_of the_bot) "kick"
               = Some kick_entry) by reflexivity.
  assert (H5 : channel_allowed kick_entry (text_in "staff" "!kick bob") = true)
    by reflexivity.
  assert (H6 : roles kick_entry = Some ["admin"]) by reflexivity.
  assert (H7 : forall role,
             role ∈ author_roles (text_in "staff" "!kick bob") ->
             role ∉ ["admin"]).
  { intros role Hin Hadmin. apply list_elem_of_singleton in Hin, Hadmin.
    congruence. }
  split; [exact (conj H1 (conj H2 (conj H3 (conj H4 (conj H5 (conj H6 H7)))))) |].
  exact (proj1 (role_scope_is_checked_second "!" show_nothing the_bot
                  (text_in "staff" "!kick bob") scoped_registered
                  "kick" "bob" kick_entry ["admin"] H1 H2 H3 H4 H5 H6 H7)).
Defined.

(** ** Commands without pattern, and what a handler may do to the engine *)

Lemma run_command_no_pattern (cmd_name payload : string) (cmd : Command)
    (message : Message) (w : World) :
  regexp cmd = None ->
  run_command cmd_name payload cmd message w
  = (Ret tt, with_trace w (payload_dispatch :: call_events cmd message [])).
Proof.
  intros Hp. unfold run_command. rewrite Hp, bind_emit.
  unfold try_except, call_events. rewrite call_command_spec.
  destruct (cb_call (callback cmd) message []) as [e|].
  - rewrite !bind_emit. unfold emit. by rewrite !with_trace_app.
  - by rewrite with_trace_app.
Qed.



(** ** The other ways of invoking a command *)

(** In a server channel, a text that starts neither with the prefix nor
    with a mention of the client is no command: after the forwards nothing
    happens, and [on_message] ends as the forwards did. *)
Theorem plain_text_in_server_channel_is_ignored (PREFIX : string)
    (show_scope : list string -> string) (self : Client) (message : Message)
    (w : World) :
  let subs := forwarder_get w (cls_of self) (channel_name message) in
  author_id message <> user_id self ->
  startswith (content message) PREFIX = false ->
  startswith (content message) (mention self) = false ->
  channel_is_server message = true ->
  on_message PREFIX show_scope self message w
  = (after_forwards (forward_result subs message),
     with_trace w
       (received :: forward_events (invoked subs message) message)).
Proof.
  intros subs Hauthor Hprefix Hmention Hserver.
  rewrite on_message_spec by done. fold subs.
  unfold detect. rewrite Hprefix, Hmention, Hserver.
  by destruct (forward_result subs message) as [[|]|e].
Qed.

Lemma plain_text_in_server_channel_is_ignored_witness :
  (author_id (text_in "general" "hello there") <> user_id the_bot
   /\ startswith (content (text_in "general" "hello there")) "!" = false
   /\ startswith (content (text_in "general" "hello there")) (mention the_bot)
      = false
   /\ channel_is_server (text_in "general" "hello there") = true)
  /\ on_message "!" show_nothing the_bot (text_in "general" "hello there")
       three_forwards
     = (after_forwards
          (forward_result
             (forwarder_get three_forwards (cls_of the_bot)
                (channel_name (text_in "general" "hello there")))
             (text_in "general" "hello there")),
        with_trace three_forwards
          (received
             :: forward_events
                  (invoked
                     (forwarder_get three_forwards (cls_of the_bot)
                        (channel_name (text_in "general" "hello there")))
                     (text_in "general" "hello there"))
                  (text_in "general" "hello there"))).
Proof.
  assert (H1 : author_id (text_in "general" "hello there") <> user_id the_bot)
    by discriminate.
  assert (H2 : startswith (content (text_in "general" "hello there")) "!"
               = false) by reflexivity.
  assert (H3 : startswith (content (text_in "general" "hello there"))
                 (mention the_bot) = false) by reflexivity.
  assert (H4 : channel_is_server (text_in "general" "hello there") = true)
    by reflexivity.
  split; [exact (conj H1 (conj H2 (conj H3 H4))) |].
  exact (plain_text_in_server_channel_is_ignored "!" show_nothing the_bot
           (text_in "general" "hello there") three_forwards H1 H2 H3 H4).
Defined.

(** A text that starts with a mention of the client and not with the
    prefix: whatever stands before the first space is skipped, the command
    name is the text between the first and the second space, the payload is
    everything after the second space.  A mention that no space follows
    names no command: the unpacking raises [ValueError], and that exception
    leaves [on_message] once the forwards have run. *)
Theorem mention_invocation (PREFIX : string)
    (show_scope : list string -> string) (self : Client) (message : Message)
    (w : World) :
  let subs := forwarder_get w (cls_of self) (channel_name message) in
  startswith (content message) PREFIX = false ->
  startswith (content message) (mention self) = true ->
  (forall first name payload,
      has_space first = false -> has_space name = false ->
      content message = first +:+ String " " (name +:+ String " " payload) ->
      detect PREFIX self message = Ret (Some (name, payload)))
  /\ (forall first name,
        has_space first = false -> has_space name = false ->
        content message = first +:+ String " " name ->
        detect PREFIX self message = Ret (Some (name, EmptyString)))
  /\ (has_space (content message) = false ->
      detect PREFIX self message = Raise (ValueError NotEnoughValues)
      /\ (author_id message <> user_id self ->
          forward_result subs message = Ret true ->
          on_message PREFIX show_scope self message w
          = (Raise (ValueError NotEnoughValues),
             with_trace w
               (received :: forward_events (invoked subs message) message)))).
Proof.
  intros subs Hprefix Hmention. unfold detect. rewrite Hprefix, Hmention.
  split; [| split].
  - intros first name payload Hfirst Hname ->.
    rewrite split_on_first_space by done. cbn [tail].
    rewrite split_on_first_space by done. by rewrite split_on_zero.
  - intros first name Hfirst Hname ->.
    rewrite split_on_first_space by done. cbn [tail].
    by rewrite split_on_no_space.
  - intros Hbare.
    assert (Hdetect : detect PREFIX self message
                      = Raise (ValueError NotEnoughValues)).
    { unfold detect. rewrite Hprefix, Hmention.
      by rewrite split_on_no_space. }
    split; [by rewrite split_on_no_space |].
    intros Hauthor Hfw. rewrite on_message_spec by done. fold subs.
    by rewrite Hfw, Hdetect.
Qed.

Lemma mention_invocation_witness :
  (startswith (content (text_in "general" "<@42> help math and more")) "!"
   = false
   /\ startswith (content (text_in "general" "<@42> help math and more"))
        (mention the_bot) = true
   /\ has_space "<@42>" = false /\ has_space "help" = false
   /\ content (text_in "general" "<@42> help math and more")
      = "<@42>" +:+ String " " ("help" +:+ String " " "math and more"))
  /\ detect "!" the_bot (text_in "general" "<@42> help math and more")
     = Ret (Some ("help", "math and more"))
  /\ (startswith (content (text_in "general" "<@42>")) "!" = false
      /\ startswith (content (text_in "general" "<@42>")) (mention the_bot)
         = true
      /\ has_space (content (text_in "general" "<@42>")) = false
      /\ author_id (text_in "general" "<@42>") <> user_id the_bot
      /\ forward_result
           (forwarder_get help_registered (cls_of the_bot)
              (channel_name (text_in "general" "<@42>")))
           (text_in "general" "<@42>") = Ret true)
  /\ on_message "!" show_nothing the_bot (text_in "general" "<@42>")
       help_registered
     = (Raise (ValueError NotEnoughValues),
        with_trace help_registered
          (received
             :: forward_events
                  (invoked
                     (forwarder_get help_registered (cls_of the_bot)
                        (channel_name (text_in "general" "<@42>")))
                     (text_in "general" "<@42>"))
                  (text_in "general" "<@42>"))).
Proof.
  assert (A1 : startswith
                 (content (text_in "general" "<@42> help math and more")) "!"
               = false) by reflexivity.
  assert (A2 : startswith
                 (content (text_in "general" "<@42> help math and more"))
                 (mention the_bot) = true) by reflexivity.
  assert (A3 : has_space "<@42>" = false) by reflexivity.
  assert (A4 : has_space "help" = false) by reflexivity.
  assert (A5 : content (text_in "general" "<@42> help math and more")
               = "<@42>" +:+ String " " ("help" +:+ String " " "math and more"))
    by reflexivity.
  assert (B1 : startswith (content (text_in "general" "<@42>")) "!" = false)
    by reflexivity.
  assert (B2 : startswith (content (text_in "general" "<@42>"))
                 (mention the_bot) = true) by reflexivity.
  assert (B3 : has_space (content (text_in "general" "<@42>")) = false)
    by reflexivity.
  assert (B4 : author_id (text_in "general" "<@42>") <> user_id the_bot)
    by discriminate.
  assert (B5 : forward_result
                 (forwarder_get help_registered (cls_of the_bot)
                    (channel_name (text_in "general" "<@42>")))
                 (text_in "general" "<@42>") = Ret true) by reflexivity.
  split; [exact (conj A1 (conj A2 (conj A3 (conj A4 A5)))) |].
  split.
  - exact (proj1 (mention_invocation "!" show_nothing the_bot
                    (text_in "general" "<@42> help math and more")
                    help_registered A1 A2)
             "<@42>" "help" "math and more" A3 A4 A5).
  - split; [exact (conj B1 (conj B2 (conj B3 (conj B4 B5)))) |].
    exact (proj2 (proj2 (proj2 (mention_invocation "!" show_nothing the_bot
                                  (text_in "general" "<@42>")
                                  help_registered B1 B2)) B3) B4 B5).
Defined.

(** In a private channel no prefix is needed: a text that starts neither
    with the prefix nor with a mention is a command, its name the text up
    to the first space and its payload the text after that space. *)
Theorem private_message_needs_no_prefix (PREFIX : string) (self : Client)
    (message : Message) (name : string) :
  startswith (content message) PREFIX = false ->
  startswith (content message) (mention self) = false ->
  channel_is_server message = false ->
  has_space name = false ->
  (forall payload,
      content message = name +:+ String " " payload ->
      detect PREFIX self message = Ret (Some (name, payload)))
  /\ (content message = name ->
      detect PREFIX self message = Ret (Some (name, EmptyString))).
Proof.
  intros Hprefix Hmention Hserver Hname. unfold detect.
  rewrite Hprefix, Hmention, Hserver. split.
  - intros payload ->. rewrite split_on_first_space by done.
    by rewrite split_on_zero.
  - intros ->. by rewrite split_on_no_space.
Qed.

Lemma private_message_needs_no_prefix_witness :
  (startswith (content (dm_text "help math")) "!" = false
   /\ startswith (content (dm_text "help math")) (mention the_bot) = false
   /\ channel_is_server (dm_text "help math") = false
   /\ has_space "help" = false
   /\ content (dm_text "help math") = "help" +:+ String " " "math")
  /\ detect "!" the_bot (dm_text "help math") = Ret (Some ("help", "math")).
Proof.
  assert (H1 : startswith (content (dm_text "help math")) "!" = false)
    by reflexivity.
  assert (H2 : startswith (content (dm_text "help math")) (mention the_bot)
               = false) by reflexivity.
  assert (H3 : channel_is_server (dm_text "help math") = false) by reflexivity.
  assert (H4 : has_space "help" = false) by reflexivity.
  assert (H5 : content (dm_text "help math") = "help" +:+ String " " "math")
    by reflexivity.
  split; [exact (conj H1 (conj H2 (conj H3 (conj H4 H5)))) |].
  exact (proj1 (private_message_needs_no_prefix "!" the_bot
                  (dm_text "help math") "help" H1 H2 H3 H4) "math" H5).
Defined.

(** ** Forwards that raise *)

Lemma forward_loop_reaches (pre post : list SubBot) (sub : SubBot)
    (message : Message) :
  Forall (passes message) pre ->
  invoked (pre ++ sub :: post) message
  = pre ++ invoked (sub :: post) message
  /\ forward_result (pre ++ sub :: post) message
     = forward_result (sub :: post) message.
Proof.
  induction 1 as [|p pre [Hr Ha] _ [IH1 IH2]]; [done |].
  cbn [app invoked forward_result]. rewrite Hr, Ha. cbn [orb negb].
  rewrite IH1, IH2. split; [done |].
  unfold raises in Hr. destruct (cb_call (fw_callback p) message []); [| done].
  by rewrite bool_decide_eq_false in Hr; destruct Hr.
Qed.

(** The calls of the forwards are not guarded: when the handler of a
    subscription raises, the subscriptions before it have been called, the
    ones after it are not, no command is looked up, and the exception
    leaves [on_message]. *)
Theorem raising_forward_ends_the_message (PREFIX : string)
    (show_scope : list string -> string) (self : Client) (message : Message)
    (w : World) (pre post : list SubBot) (sub : SubBot) (e : Exn) :
  author_id message <> user_id self ->
  forwarder_get w (cls_of self) (channel_name message) = pre ++ sub :: post ->
  Forall (passes message) pre ->
  cb_call (fw_callback sub) message [] = Some e ->
  on_message PREFIX show_scope self message w
  = (Raise e,
     with_trace w (received :: forward_events (pre ++ [sub]) message)).
Proof.
  intros Hauthor Hsubs Hpre Hcall.
  rewrite on_message_spec by done. rewrite Hsubs.
  destruct (forward_loop_reaches pre post sub message Hpre) as [-> ->].
  cbn [invoked forward_result]. unfold raises. rewrite Hcall.
  by rewrite bool_decide_eq_true_2 by eauto.
Qed.

Lemma raising_forward_ends_the_message_witness :
  (author_id (text_in "general" "!ping") <> user_id the_bot
   /\ forwarder_get broken_forwards (cls_of the_bot)
        (channel_name (text_in "general" "!ping"))
      = [subbot_of (true, spy "s1")]
          ++ subbot_of (true, broken_spy) :: [subbot_of (true, spy "s3")]
   /\ Forall (passes (text_in "general" "!ping")) [subbot_of (true, spy "s1")]
   /\ cb_call (fw_callback (subbot_of (true, broken_spy)))
        (text_in "general" "!ping") [] = Some (OtherError "RuntimeError"))
  /\ on_message "!" show_nothing the_bot (text_in "general" "!ping")
       broken_forwards
     = (Raise (OtherError "RuntimeError"),
        with_trace broken_forwards
          (received
             :: forward_events
                  ([subbot_of (true, spy "s1")] ++ [subbot_of (true, broken_spy)])
                  (text_in "general" "!ping"))).
Proof.
  assert (H1 : author_id (text_in "general" "!ping") <> user_id the_bot)
    by discriminate.
  assert (H2 : forwarder_get broken_forwards (cls_of the_bot)
                 (channel_name (text_in "general" "!ping"))
               = [subbot_of (true, spy "s1")]
                   ++ subbot_of (true, broken_spy)
                   :: [subbot_of (true, spy "s3")]) by reflexivity.
  assert (H3 : Forall (passes (text_in "general" "!ping"))
                 [subbot_of (true, spy "s1")]).
  { constructor; [| constructor]. split; reflexivity. }
  assert (H4 : cb_call (fw_callback (subbot_of (true, broken_spy)))
                 (text_in "general" "!ping") []
               = Some (OtherError "RuntimeError")) by reflexivity.
  split; [exact (conj H1 (conj H2 (conj H3 H4))) |].
  exact (raising_forward_ends_the_message "!" show_nothing the_bot
           (text_in "general" "!ping") broken_forwards _ _ _ _ H1 H2 H3 H4).
Defined.

(** ** What [on_message] never does *)

Lemma count_events_app (p : Event -> bool) (a b : list Event) :
  count_events p (a ++ b) = count_events p a + count_events p b.
Proof. unfold count_events. by rewrite List.filter_app, length_app. Qed.

Lemma count_events_log (p : Event -> bool) (lvl : Level) (fmt : string)
    (evs : list Event) :
  p (Log lvl fmt) = false ->
  count_events p (Log lvl fmt :: evs) = count_events p evs.
Proof. intros Hp. unfold count_events. cbn. by rewrite Hp. Qed.

Lemma forward_events_quiet (subs : list SubBot) (message : Message) :
  count_events is_sent (forward_events subs message) = 0
  /\ count_events is_dispatched (forward_events subs message) = 0
  /\ Forall (replies_to message) (forward_events subs message).
Proof.
  induction subs as [|sub subs (IH1 & IH2 & IH3)]; [by repeat split |].
  cbn. split; [exact IH1 |]. split; [exact IH2 |].
  constructor; [intros c t [=] |]. constructor; [intros c t [=] | exact IH3].
Qed.

Lemma replies_to_log (message : Message) (lvl : Level) (fmt : string) :
  replies_to message (Log lvl fmt).
Proof. intros c t [=]. Qed.

Lemma replies_to_dispatched (message : Message) (a : bool) (cb : Callback)
    (m : Message) (kwargs : list (string * pyval)) :
  replies_to message (Dispatched a cb m kwargs).
Proof. intros c t [=]. Qed.

Lemma replies_to_sent (message : Message) (text : string) :
  replies_to message (Sent (channel_name message) text).
Proof. by intros c t [= <- _]. Qed.

Lemma call_events_bounds (cmd : Command) (message : Message)
    (kwargs : list (string * pyval)) :
  count_events is_sent (call_events cmd message kwargs) <= 1
  /\ count_events is_dispatched (call_events cmd message kwargs) = 1
  /\ Forall (replies_to message) (call_events cmd message kwargs).
Proof.
  unfold call_events.
  destruct (cb_call (callback cmd) message kwargs); cbn; repeat split; try lia;
    repeat constructor; auto using replies_to_log, replies_to_dispatched,
      replies_to_sent.
Qed.

(** The events of the stages after the detection. *)
Lemma resolve_and_run_bounds (show_scope : list string -> string)
    (self : Client) (cmd_name payload : string) (message : Message)
    (w : World) :
  exists r evs,
    resolve_and_run show_scope self cmd_name payload message w
    = (r, with_trace w evs)
    /\ count_events is_sent evs <= 1
    /\ count_events is_dispatched evs <= 1
    /\ Forall (replies_to message) evs.
Proof.
  unfold resolve_and_run. rewrite bind_get_world.
  destruct (dispatcher_get w (cls_of self) cmd_name) as [cmd|].
  2: { do 2 eexists. rewrite bind_emit. unfold emit. rewrite with_trace_app.
       split; [reflexivity |]. cbn. repeat split; try lia.
       constructor; [apply replies_to_log |].
       constructor; [apply replies_to_sent | constructor]. }
  destruct (channel_allowed cmd message); cbn [negb].
  2: { do 2 eexists. rewrite bind_emit. unfold emit. rewrite with_trace_app.
       split; [reflexivity |]. cbn. repeat split; try lia.
       constructor; [apply replies_to_log |].
       constructor; [apply replies_to_sent | constructor]. }
  destruct (role_allowed cmd message); cbn [negb].
  2: { do 2 eexists. rewrite bind_emit. unfold emit. rewrite with_trace_app.
       split; [reflexivity |]. cbn. repeat split; try lia.
       constructor; [apply replies_to_log |].
       constructor; [apply replies_to_sent | constructor]. }
  destruct (call_events_bounds cmd message []) as (Hs0 & Hd0 & Hr0).
  destruct (regexp cmd) as [p|] eqn:Hp.
  2: { do 2 eexists. rewrite run_command_no_pattern by done.
       split; [reflexivity |]. unfold payload_dispatch.
       rewrite !count_events_log by reflexivity.
       split; [done |]. split; [lia |].
       constructor; [apply replies_to_log | done]. }
  destruct (Re.re_match (Re.prog p) payload) as [m|] eqn:Hm.
  2: { do 2 eexists. rewrite (run_command_no_match _ _ _ _ p) by done.
       split; [reflexivity |]. cbn. repeat split; try lia.
       constructor; [apply replies_to_log |].
       constructor; [apply replies_to_sent | constructor]. }
  destruct (cast_using_type_hints (cb_type_hints (callback cmd))
              (Re.groupdict (Re.prog p) m)) as [kwargs|e] eqn:Hcast.
  - destruct (call_events_bounds cmd message kwargs) as (Hs & Hd & Hr).
    do 2 eexists. rewrite (run_command_match _ _ _ _ p m kwargs) by done.
    split; [reflexivity |].
    rewrite !count_events_log by reflexivity.
    split; [done |]. split; [lia |].
    constructor; [apply replies_to_log | done].
  - exists (Raise e), []. rewrite (run_command_cast_raises _ _ _ _ p m e) by done.
    rewrite with_trace_nil. split; [reflexivity |]. cbn. repeat split; try lia.
    constructor.
Qed.

Lemma on_message_appends (PREFIX : string)
    (show_scope : list string -> string) (self : Client) (message : Message)
    (w : World) :
  exists evs,
    (on_message PREFIX show_scope self message w).2 = with_trace w evs
    /\ count_events is_sent evs <= 1
    /\ count_events is_dispatched evs <= 1
    /\ Forall (replies_to message) evs.
Proof.
  destruct (decide (author_id message = user_id self)) as [Hself | Hauthor].
  { exists []. unfold on_message. rewrite Hself, String.eqb_refl.
    cbn. rewrite with_trace_nil. repeat split; try (cbn; lia). constructor. }
  rewrite on_message_spec by done.
  set (subs := forwarder_get w (cls_of self) (channel_name message)).
  destruct (forward_events_quiet (invoked subs message) message)
    as (Hs & Hd & Hr).
  assert (Hquiet : forall r : outcome unit,
    exists evs,
      (r, with_trace w
            (received :: forward_events (invoked subs message) message)).2
      = with_trace w evs
      /\ count_events is_sent evs <= 1
      /\ count_events is_dispatched evs <= 1
      /\ Forall (replies_to message) evs).
  { intros r. eexists. split; [reflexivity |]. unfold received.
    rewrite !count_events_log, Hs, Hd by reflexivity.
    split; [lia |]. split; [lia |].
    constructor; [apply replies_to_log | done]. }
  destruct (forward_result subs message) as [[|]|e]; [| apply Hquiet ..].
  destruct (detect PREFIX self message) as [[[cmd_name payload]|]|e];
    [| apply Hquiet ..].
  destruct (resolve_and_run_bounds show_scope self cmd_name payload message
              (with_trace w
                 (received :: forward_events (invoked subs message) message)))
    as (r & evs & -> & Hs' & Hd' & Hr').
  eexists. cbn [snd]. rewrite with_trace_app. split; [reflexivity |].
  unfold received. cbn [app].
  rewrite !count_events_log, !count_events_app, Hs, Hd by reflexivity.
  split; [lia |]. split; [lia |].
  constructor; [apply replies_to_log |]. by apply Forall_app.
Qed.

(** Handling a message never writes to the registries: whatever the
    message, the world after [on_message] is the world before it with more
    events in the trace.  Among these events there is at most one reply of
    the engine, sent to the channel of the message, and at most one call
    of a command's handler. *)
Theorem on_message_only_appends_events (PREFIX : string)
    (show_scope : list string -> string) (self : Client) (message : Message)
    (w : World) :
  exists evs,
    (on_message PREFIX show_scope self message w).2 = with_trace w evs
    /\ count_events is_sent evs <= 1
    /\ count_events is_dispatched evs <= 1
    /\ Forall (replies_to message) evs.
Proof. apply on_message_appends. Qed.

(** ** Lookups through the bases of a class *)

Section ChainMore.
Context {V : Type}.
Implicit Types (store : list (gmap string V)) (maps : list nat).

Lemma chain_getitem_app store (maps1 maps2 : list nat) (key : string) :
  chain_getitem store (maps1 ++ maps2) key
  = first_some (chain_getitem store maps1 key) (chain_getitem store maps2 key).
Proof.
  induction maps1 as [|l ls IH]; [reflexivity |]. cbn.
  by destruct (layer store l !! key).
Qed.

Lemma chain_getitem_layer store maps (key : string) (v : V) :
  chain_getitem store maps key = Some v ->
  exists l, l ∈ maps /\ layer store l !! key = Some v.
Proof.
  induction maps as [|l ls IH]; [done |]. cbn.
  destruct (layer store l !! key) as [v'|] eqn:Hl.
  - intros [= <-]. exists l. split; [apply list_elem_of_here | done].
  - intros H. destruct (IH H) as (l' & Hin & Hl').
    exists l'. split; [by apply list_elem_of_further | done].
Qed.

Lemma chain_getitem_ext store store' maps (key : string) :
  (forall l, l ∈ maps -> layer store l !! key = layer store' l !! key) ->
  chain_getitem store maps key = chain_getitem store' maps key.
Proof.
  induction maps as [|l ls IH]; intros H; [reflexivity |]. cbn.
  rewrite <- (H l) by apply list_elem_of_here.
  destruct (layer store l !! key); [done |].
  apply IH. intros l' Hl'. apply H. by apply list_elem_of_further.
Qed.

Lemma layer_app_l store (more : list (gmap string V)) (l : nat) :
  l < length store -> layer (store ++ more) l = layer store l.
Proof. intros Hl. unfold layer. by rewrite lookup_app_l. Qed.

Lemma layer_fresh_empty store (l : nat) :
  layer (store ++ [∅]) (length store) = ∅.
Proof.
  unfold layer. rewrite lookup_app_r by lia. by rewrite Nat.sub_diag.
Qed.

Lemma layer_some store (l : nat) (key : string) (v : V) :
  layer store l !! key = Some v ->
  exists m, store !! l = Some m /\ m !! key = Some v.
Proof.
  unfold layer. destruct (store !! l) as [m|]; cbn; [eauto |].
  by rewrite lookup_empty.
Qed.
End ChainMore.

Lemma bases_get_chain (w : World) (bases : list Base) (name : string) :
  chain_getitem (command_layers w)
    (flat_map (fun b => match b with
                        | DispatcherClass d => commands_maps d
                        | PlainClass => []
                        end) bases) name
  = bases_get w bases name.
Proof.
  induction bases as [|[|d] bases IH]; cbn; [done | exact IH |].
  rewrite chain_getitem_app, IH. unfold dispatcher_get.
  by rewrite chain_get_getitem.
Qed.

Lemma bases_forward_chain (w : World) (bases : list Base) (channel : string) :
  chain_getitem (forward_layers w)
    (flat_map (fun b => match b with
                        | DispatcherClass d => forwards_maps d
                        | PlainClass => []
                        end) bases) channel
  = bases_forward w bases channel.
Proof.
  induction bases as [|[|d] bases IH]; cbn; [done | exact IH |].
  by rewrite chain_getitem_app, IH, chain_get_getitem.
Qed.

Lemma DispatcherMeta_new_full (bases : list Base) (w w' : World)
    (cls : Dispatcher) :
  DispatcherMeta_new bases w = (Ret cls, w') ->
  commands_maps cls
  = length (command_layers w)
      :: flat_map (fun b => match b with
                            | DispatcherClass d => commands_maps d
                            | PlainClass => []
                            end) bases
  /\ forwards_maps cls
     = length (forward_layers w)
         :: flat_map (fun b => match b with
                               | DispatcherClass d => forwards_maps d
                               | PlainClass => []
                               end) bases
  /\ w' = {| command_layers := command_layers w ++ [∅];
             forward_layers := forward_layers w ++ [∅];
             forward_lists := forward_lists w;
             trace := trace w |}.
Proof.
  unfold DispatcherMeta_new. intros [= <- <-]. cbn.
  by rewrite !fold_left_maps.
Qed.

Lemma new_class_lookups (bases : list Base) (w0 w1 : World)
    (cls : Dispatcher) :
  DispatcherMeta_new bases w0 = (Ret cls, w1) ->
  forall (w : World) (name : string),
    dispatcher_get w cls name
    = first_some (layer (command_layers w) (own_commands cls) !! name)
        (bases_get w bases name)
    /\ chain_get (forward_layers w) (forwards_maps cls) name
       = first_some (layer (forward_layers w) (own_forwards cls) !! name)
           (bases_forward w bases name).
Proof.
  intros Hnew w name.
  apply DispatcherMeta_new_full in Hnew as (Hc & Hf & _).
  unfold dispatcher_get, own_commands, own_forwards.
  rewrite !chain_get_getitem, Hc, Hf. cbn.
  rewrite bases_get_chain, bases_forward_chain.
  split.
  - by destruct (layer (command_layers w) (length (command_layers w0)) !! name).
  - by destruct (layer (forward_layers w) (length (forward_layers w0)) !! name).
Qed.

(** A class made by [DispatcherMeta.__new__] resolves a name, in any later
    state of the registries, to the entry of its own table if there is one,
    and else to what the first of its bases that resolves the name
    resolves it to.  The layers of the bases are shared, not copied: what a
    base registers after the class was made is seen through the class.
    The same holds for the lists of the forward registry. *)
Theorem lookup_goes_through_the_bases_in_order (bases : list Base)
    (w0 w1 : World) (cls : Dispatcher) :
  DispatcherMeta_new bases w0 = (Ret cls, w1) ->
  forall (w : World) (name : string),
    dispatcher_get w cls name
    = first_some (layer (command_layers w) (own_commands cls) !! name)
        (bases_get w bases name)
    /\ chain_get (forward_layers w) (forwards_maps cls) name
       = first_some (layer (forward_layers w) (own_forwards cls) !! name)
           (bases_forward w bases name).
Proof. apply new_class_lookups. Qed.

Lemma lookup_goes_through_the_bases_in_order_witness :
  DispatcherMeta_new [PlainClass; DispatcherClass the_class] fresh_world
  = (Ret child_class, two_class_world)
  /\ dispatcher_get parent_registered child_class "ping"
     = first_some
         (layer (command_layers parent_registered) (own_commands child_class)
            !! "ping")
         (bases_get parent_registered [PlainClass; DispatcherClass the_class]
            "ping")
  /\ dispatcher_get parent_registered child_class "ping"
     = Some (entry None None None parent_ping).
Proof.
  assert (H : DispatcherMeta_new [PlainClass; DispatcherClass the_class]
                fresh_world = (Ret child_class, two_class_world))
    by reflexivity.
  split; [exact H |]. split; [| reflexivity].
  exact (proj1 (lookup_goes_through_the_bases_in_order _ _ _ _ H
                  parent_registered "ping")).
Defined.

(** ** Making a class *)

Lemma lookup_snoc_inv {A : Type} (l : list A) (x y : A) (i : nat) :
  (l ++ [x]) !! i = Some y ->
  l !! i = Some y \/ (i = length l /\ y = x).
Proof.
  intros H. destruct (decide (i < length l)) as [Hlt | Hge].
  - left. by rewrite lookup_app_l in H.
  - right. rewrite lookup_app_r in H by lia.
    destruct (i - length l) as [|k] eqn:Hk; cbn in H; [| done].
    injection H as <-. split; [lia | done].
Qed.

Lemma chain_getitem_grow {V : Type} (store : list (gmap string V))
    (more : list (gmap string V)) (maps : list nat) (key : string) :
  Forall (fun l => l < length store) maps ->
  chain_getitem (store ++ more) maps key = chain_getitem store maps key.
Proof.
  intros Hmaps. apply chain_getitem_ext. intros l Hl.
  rewrite Forall_forall in Hmaps. by rewrite layer_app_l by auto.
Qed.

Lemma class_in_lookups_grow (w : World) (d : Dispatcher)
    (cl : list (gmap string Command)) (fl : list (gmap string nat))
    (tr : list Event) (name : string) :
  class_in w d ->
  dispatcher_get
    {| command_layers := command_layers w ++ cl;
       forward_layers := forward_layers w ++ fl;
       forward_lists := forward_lists w; trace := tr |} d name
  = dispatcher_get w d name
  /\ forwarder_get
       {| command_layers := command_layers w ++ cl;
          forward_layers := forward_layers w ++ fl;
          forward_lists := forward_lists w; trace := tr |} d name
     = forwarder_get w d name.
Proof.
  intros (_ & _ & Hc & Hf). unfold dispatcher_get, forwarder_get.
  rewrite !chain_get_getitem. cbn.
  by rewrite !chain_getitem_grow by done.
Qed.

Lemma bases_get_grow (w : World) (bases : list Base)
    (cl : list (gmap string Command)) (fl : list (gmap string nat))
    (tr : list Event) (name : string) :
  Forall (base_in w) bases ->
  bases_get
    {| command_layers := command_layers w ++ cl;
       forward_layers := forward_layers w ++ fl;
       forward_lists := forward_lists w; trace := tr |} bases name
  = bases_get w bases name
  /\ bases_forward
       {| command_layers := command_layers w ++ cl;
          forward_layers := forward_layers w ++ fl;
          forward_lists := forward_lists w; trace := tr |} bases name
     = bases_forward w bases name.
Proof.
  induction 1 as [|[|d] bases Hd _ [IH1 IH2]]; cbn; [done | done |].
  rewrite IH1, IH2.
  destruct (class_in_lookups_grow w d cl fl tr name Hd) as [-> _].
  destruct Hd as (_ & _ & _ & Hf). rewrite !chain_get_getitem. cbn.
  by rewrite chain_getitem_grow by done.
Qed.

Lemma new_class_facts (bases : list Base) (w w' : World)
    (cls : Dispatcher) :
  Forall (base_in w) bases ->
  DispatcherMeta_new bases w = (Ret cls, w') ->
  class_in w' cls
  /\ (forall name,
         dispatcher_get w' cls name = bases_get w bases name
         /\ forwarder_get w' cls name
            = list_at w (bases_forward w bases name))
  /\ (forall d,
         class_in w d ->
         class_in w' d
         /\ (own_commands cls ∉ commands_maps d)
         /\ (own_forwards cls ∉ forwards_maps d)
         /\ forall name,
              dispatcher_get w' d name = dispatcher_get w d name
              /\ forwarder_get w' d name = forwarder_get w d name)
  /\ (lists_ok w -> lists_ok w').
Proof.
  intros Hbases Hnew.
  pose proof (new_class_lookups _ _ _ _ Hnew) as Hlook.
  apply DispatcherMeta_new_full in Hnew as (Hc & Hf & ->).
  assert (Hgrow : forall d, class_in w d ->
            class_in
              {| command_layers := command_layers w ++ [∅];
                 forward_layers := forward_layers w ++ [∅];
                 forward_lists := forward_lists w; trace := trace w |} d).
  { intros d (H1 & H2 & H3 & H4). repeat split; [done | done | |]; cbn;
      rewrite length_app; cbn;
      (eapply Forall_impl; [eassumption | cbn; intros; lia]). }
  split; [| split; [| split]].
  - repeat split; cbn.
    + by rewrite Hc.
    + by rewrite Hf.
    + rewrite Hc. constructor; [rewrite length_app; cbn; lia |].
      apply Forall_forall. intros l Hl. rewrite length_app. cbn.
      apply list_elem_of_In, in_flat_map in Hl as (b & Hb & Hl).
      apply list_elem_of_In in Hb. rewrite Forall_forall in Hbases.
      specialize (Hbases b Hb). destruct b as [|d]; [done |].
      destruct Hbases as (_ & _ & Hd & _). rewrite Forall_forall in Hd.
      apply list_elem_of_In in Hl. specialize (Hd l Hl). cbn in Hd. lia.
    + rewrite Hf. constructor; [rewrite length_app; cbn; lia |].
      apply Forall_forall. intros l Hl. rewrite length_app. cbn.
      apply list_elem_of_In, in_flat_map in Hl as (b & Hb & Hl).
      apply list_elem_of_In in Hb. rewrite Forall_forall in Hbases.
      specialize (Hbases b Hb). destruct b as [|d]; [done |].
      destruct Hbases as (_ & _ & _ & Hd). rewrite Forall_forall in Hd.
      apply list_elem_of_In in Hl. specialize (Hd l Hl). cbn in Hd. lia.
  - intros name. unfold forwarder_get.
    destruct (Hlook {| command_layers := command_layers w ++ [∅];
                       forward_layers := forward_layers w ++ [∅];
                       forward_lists := forward_lists w; trace := trace w |}
                name) as [-> ->].
    unfold own_commands, own_forwards. rewrite Hc, Hf. cbn.
    rewrite !layer_fresh_empty by exact 0. rewrite !lookup_empty. cbn.
    destruct (bases_get_grow w bases [∅] [∅] (trace w) name Hbases)
      as [-> ->].
    done.
  - intros d Hd. split; [by apply Hgrow |].
    destruct Hd as (H1 & H2 & H3 & H4).
    unfold own_commands, own_forwards. rewrite Hc, Hf. cbn.
    rewrite Forall_forall in H3. rewrite Forall_forall in H4.
    split; [intros Hin; specialize (H3 _ Hin); cbn in H3; lia |].
    split; [intros Hin; specialize (H4 _ Hin); cbn in H4; lia |].
    intros name. apply class_in_lookups_grow. repeat split; try done.
    all: by apply Forall_forall.
  - intros [Hbound Hinj]. split; cbn.
    + intros l m c a Hl Hm.
      apply lookup_snoc_inv in Hl as [Hl | [_ ->]]; [by eapply Hbound |].
      by rewrite lookup_empty in Hm.
    + intros l l' m m' c c' a Hl Hl' Hm Hm'.
      apply lookup_snoc_inv in Hl as [Hl | [_ ->]];
        [| by rewrite lookup_empty in Hm].
      apply lookup_snoc_inv in Hl' as [Hl' | [_ ->]];
        [| by rewrite lookup_empty in Hm'].
      by eapply Hinj.
Qed.

(** [DispatcherMeta.__new__] gives the new class two tables of its own,
    empty and in no other class's chain, so that the class starts with
    exactly what its bases resolve; every class that was there keeps its
    lookups; and the forward store stays sound. *)
Theorem new_class_starts_from_its_bases (bases : list Base) (w w' : World)
    (cls : Dispatcher) :
  Forall (base_in w) bases ->
  DispatcherMeta_new bases w = (Ret cls, w') ->
  class_in w' cls
  /\ (forall name,
         dispatcher_get w' cls name = bases_get w bases name
         /\ forwarder_get w' cls name
            = list_at w (bases_forward w bases name))
  /\ (forall d,
         class_in w d ->
         class_in w' d
         /\ (own_commands cls ∉ commands_maps d)
         /\ (own_forwards cls ∉ forwards_maps d)
         /\ forall name,
              dispatcher_get w' d name = dispatcher_get w d name
              /\ forwarder_get w' d name = forwarder_get w d name)
  /\ (lists_ok w -> lists_ok w').
Proof. apply new_class_facts. Qed.

Lemma new_class_starts_from_its_bases_witness :
  (Forall (base_in parent_seeded) [PlainClass; DispatcherClass the_class]
   /\ DispatcherMeta_new [PlainClass; DispatcherClass the_class] parent_seeded
      = (Ret child_class,
         (DispatcherMeta_new [PlainClass; DispatcherClass the_class]
            parent_seeded).2))
  /\ dispatcher_get
       (DispatcherMeta_new [PlainClass; DispatcherClass the_class]
          parent_seeded).2 child_class "ping"
     = bases_get parent_seeded [PlainClass; DispatcherClass the_class] "ping"
  /\ bases_get parent_seeded [PlainClass; DispatcherClass the_class] "ping"
     = Some (entry None None None parent_ping).
Proof.
  assert (H1 : Forall (base_in parent_seeded)
                 [PlainClass; DispatcherClass the_class]).
  { constructor; [exact I |]. constructor; [| constructor].
    repeat split; try discriminate; repeat constructor. }
  assert (H2 : DispatcherMeta_new [PlainClass; DispatcherClass the_class]
                 parent_seeded
               = (Ret child_class,
                  (DispatcherMeta_new [PlainClass; DispatcherClass the_class]
                     parent_seeded).2)) by reflexivity.
  split; [exact (conj H1 H2) |]. split; [| reflexivity].
  exact (proj1 (proj1 (proj2 (new_class_starts_from_its_bases _ _ _ _ H1 H2))
                  "ping")).
Defined.

(** ** Forwards for several channels *)

Lemma add_forward_cons (cls : Dispatcher) (channel : string)
    (rest : list string) (allow : bool) (cb : Callback) (w : World) :
  add_forward cls (channel :: rest) allow cb w
  = bind (add_forward cls [channel] allow cb)
      (fun _ => add_forward cls rest allow cb) w.
Proof.
  cbn [add_forward]. unfold bind, emit, get_world, ret.
  destruct (chain_contains _ _ _);
    repeat (match goal with
            | |- context [match ?m ?x with _ => _ end] =>
                destruct (m x) as [[[]|?] ?]
            end; try reflexivity).
Qed.

Lemma forward_entry_after_bind (fl : list (gmap string nat)) (own : nat)
    (channel : string) (n l : nat) (m : gmap string nat) (c : string)
    (a : nat) :
  own < length fl ->
  <[own := <[channel := n]> (layer fl own)]> fl !! l = Some m ->
  m !! c = Some a ->
  (l = own /\ c = channel /\ a = n)
  \/ (exists m0, fl !! l = Some m0 /\ m0 !! c = Some a).
Proof.
  intros Hown Hl Hm. destruct (decide (l = own)) as [-> | Hne].
  - rewrite list_lookup_insert_eq in Hl by done. injection Hl as <-.
    destruct (decide (c = channel)) as [-> | Hc].
    + rewrite lookup_insert_eq in Hm. injection Hm as <-. by left.
    + rewrite lookup_insert_ne in Hm by done. right.
      by apply layer_some in Hm.
  - rewrite list_lookup_insert_ne in Hl by done. right. eauto.
Qed.

Lemma add_forward_step (cls : Dispatcher) (channel : string) (allow : bool)
    (cb : Callback) (w : World) :
  class_in w cls -> lists_ok w ->
  exists w',
    add_forward cls [channel] allow cb w = (Ret tt, w')
    /\ lists_ok w'
    /\ (forall d, class_in w d -> class_in w' d)
    /\ command_layers w' = command_layers w
    /\ trace w'
       = trace w ++ [Log INFO "Forward message from {channel} to {callback}."]
    /\ forwarder_get w' cls channel
       = forwarder_get w cls channel
           ++ [{| allow_commands := allow; fw_callback := cb |}]
    /\ (forall d c, c <> channel ->
          forwarder_get w' d c = forwarder_get w d c).
Proof.
  intros (_ & Hne & _ & Hf) [Hbound Hinj].
  destruct (forwards_maps cls) as [|own rest] eqn:Hmaps; [done |].
  apply Forall_cons in Hf as [Hown _].
  cbn [add_forward]. rewrite bind_emit, bind_get_world.
  unfold forwarder_get. rewrite Hmaps.
  cbn [forward_layers with_trace].
  destruct (chain_contains (forward_layers w) (own :: rest) channel) eqn:Hc.
  - apply chain_contains_spec in Hc as [a Ha].
    destruct (chain_getitem_layer _ _ _ _ Ha) as (l & _ & Hl).
    apply layer_some in Hl as (m & Hl & Hm).
    pose proof (Hbound _ _ _ _ Hl Hm) as Hlt.
    rewrite bind_ret. unfold bind, append_to_list, ret. cbn.
    rewrite Hmaps, Ha.
    eexists. split; [reflexivity |]. cbn.
    split; [| split; [| split; [| split; [| split]]]]; try done.
    + split; cbn.
      * intros l0 m0 c0 a0 H1 H2. rewrite length_insert. by eapply Hbound.
      * exact Hinj.
    + rewrite !chain_get_getitem, Ha. by rewrite list_lookup_insert_eq.
    + intros d c Hcne. rewrite !chain_get_getitem.
      destruct (chain_getitem (forward_layers w) (forwards_maps d) c)
        as [a'|] eqn:Ha'; [| done].
      destruct (chain_getitem_layer _ _ _ _ Ha') as (l' & _ & Hl').
      apply layer_some in Hl' as (m' & Hl' & Hm').
      rewrite list_lookup_insert_ne; [done |].
      intros <-. destruct (Hinj _ _ _ _ _ _ _ Hl Hl' Hm Hm') as [_ Heq].
      by subst.
  - assert (Hnone : chain_getitem (forward_layers w) (own :: rest) channel
                    = None).
    { destruct (chain_getitem (forward_layers w) (own :: rest) channel)
        eqn:Hg; [| done].
      assert (chain_contains (forward_layers w) (own :: rest) channel = true)
        by (apply chain_contains_spec; eauto).
      congruence. }
    unfold bind, bind_new_list, append_to_list, ret.
    cbn - [chain_setitem chain_getitem].
    rewrite Hmaps, chain_getitem_setitem by done.
    eexists. split; [reflexivity |]. cbn - [chain_getitem].
    assert (Hfresh : forall l m c a,
              forward_layers w !! l = Some m -> m !! c = Some a ->
              a <> length (forward_lists w)).
    { intros l m c a H1 H2. specialize (Hbound _ _ _ _ H1 H2). lia. }
    split; [| split; [| split; [| split; [| split]]]]; try done.
    + split; cbn.
      * intros l m c a Hl Hm. rewrite length_insert, length_app. cbn.
        destruct (forward_entry_after_bind _ _ _ _ _ _ _ _ Hown Hl Hm)
          as [(_ & _ & ->) | (m0 & Hl0 & Hm0)]; [lia |].
        specialize (Hbound _ _ _ _ Hl0 Hm0). lia.
      * intros l l' m m' c c' a Hl Hl' Hm Hm'.
        destruct (forward_entry_after_bind _ _ _ _ _ _ _ _ Hown Hl Hm)
          as [(-> & -> & ->) | (m0 & Hl0 & Hm0)];
          destruct (forward_entry_after_bind _ _ _ _ _ _ _ _ Hown Hl' Hm')
          as [(-> & -> & Ha) | (m0' & Hl0' & Hm0')].
        -- done.
        -- by destruct (Hfresh _ _ _ _ Hl0' Hm0').
        -- by destruct (Hfresh _ _ _ _ Hl0 Hm0).
        -- by eapply Hinj.
    + intros d (H1 & H2 & H3 & H4). repeat split; try done. cbn.
      by rewrite length_insert.
    + rewrite !chain_get_getitem, Hnone.
      cbn [chain_getitem]. rewrite layer_insert_eq by done.
      rewrite lookup_insert_eq.
      rewrite list_lookup_insert_eq by (rewrite length_app; cbn; lia).
      rewrite lookup_app_r by lia. by rewrite Nat.sub_diag.
    + intros d c Hcne. rewrite !chain_get_getitem.
      assert (Hsame : chain_getitem
                        (<[own := <[channel := length (forward_lists w)]>
                                    (layer (forward_layers w) own)]>
                           (forward_layers w)) (forwards_maps d) c
                      = chain_getitem (forward_layers w) (forwards_maps d) c).
      { apply chain_getitem_ext. intros l _.
        destruct (decide (l = own)) as [-> | Hl].
        - rewrite layer_insert_eq by done. by rewrite lookup_insert_ne.
        - by rewrite layer_insert_ne. }
      rewrite Hsame.
      destruct (chain_getitem (forward_layers w) (forwards_maps d) c)
        as [a'|] eqn:Ha'; [| done].
      destruct (chain_getitem_layer _ _ _ _ Ha') as (l' & _ & Hl').
      apply layer_some in Hl' as (m' & Hl' & Hm').
      pose proof (Hbound _ _ _ _ Hl' Hm') as Hlt.
      rewrite list_lookup_insert_ne by lia. by rewrite lookup_app_l.
Qed.

Lemma times_named_cons (c channel : string) (rest : list string) :
  times_named c (channel :: rest)
  = (if String.eqb c channel then 1 else 0) + times_named c rest.
Proof. unfold times_named. cbn. by destruct (String.eqb c channel). Qed.

Lemma lists_ok_fresh : lists_ok fresh_world.
Proof.
  split.
  - intros [|[|l]] m c a Hl Hm; cbn in Hl; try done.
    injection Hl as <-. by rewrite lookup_empty in Hm.
  - intros [|[|l]] l' m m' c c' a Hl _ Hm; cbn in Hl; try done.
    injection Hl as <-. by rewrite lookup_empty in Hm.
Qed.

Lemma class_in_the_class : class_in fresh_world the_class.
Proof. repeat split; try discriminate; repeat constructor. Qed.

Lemma add_forward_facts (cls : Dispatcher)
    (channels : list string) (allow : bool) (cb : Callback) (w : World) :
  class_in w cls -> lists_ok w ->
  exists w',
    add_forward cls channels allow cb w = (Ret tt, w')
    /\ lists_ok w'
    /\ (forall d, class_in w d -> class_in w' d)
    /\ command_layers w' = command_layers w
    /\ trace w' = trace w ++ replicate (length channels) forwarding
    /\ (forall c,
          forwarder_get w' cls c
          = forwarder_get w cls c
              ++ replicate (times_named c channels)
                   {| allow_commands := allow; fw_callback := cb |})
    /\ (forall d c, c ∉ channels ->
          forwarder_get w' d c = forwarder_get w d c).
Proof.
  revert w. induction channels as [|channel rest IH]; intros w Hcls Hok.
  - exists w. cbn. rewrite app_nil_r.
    split; [done |]. split; [done |]. split; [done |]. split; [done |].
    split; [done |]. split; [| done].
    intros c. by rewrite app_nil_r.
  - destruct (add_forward_step cls channel allow cb w Hcls Hok)
      as (w1 & Hrun1 & Hok1 & Hcls1 & Hcmd1 & Htr1 & Hown1 & Hframe1).
    destruct (IH w1 (Hcls1 _ Hcls) Hok1)
      as (w2 & Hrun2 & Hok2 & Hcls2 & Hcmd2 & Htr2 & Hown2 & Hframe2).
    exists w2. rewrite add_forward_cons, (bind_eq _ _ _ _ _ Hrun1).
    split; [exact Hrun2 |]. split; [exact Hok2 |].
    split; [by auto |]. split; [congruence |].
    split; [by rewrite Htr2, Htr1, <- app_assoc |].
    split.
    + intros c. rewrite Hown2, times_named_cons.
      destruct (String.eqb_spec c channel) as [-> | Hne].
      * rewrite Hown1, <- app_assoc. reflexivity.
      * by rewrite Hframe1.
    + intros d c Hc. apply not_elem_of_cons in Hc as [Hne Hc].
      by rewrite Hframe2, Hframe1.
Qed.

(** [add_forward] on a class whose layers exist, in a sound forward store,
    never raises, whatever the channels are and however often one is
    named.  The list that the class resolves a channel to grows at its end
    by one subscription for each time the channel is named; a channel that
    is not named resolves to the same subscriptions as before, for every
    class; the command registry is untouched; one record is logged for
    each channel named; and the store is sound again afterwards. *)
Theorem forward_appends_once_per_naming (cls : Dispatcher)
    (channels : list string) (allow : bool) (cb : Callback) (w : World) :
  class_in w cls -> lists_ok w ->
  exists w',
    add_forward cls channels allow cb w = (Ret tt, w')
    /\ lists_ok w'
    /\ (forall d, class_in w d -> class_in w' d)
    /\ command_layers w' = command_layers w
    /\ trace w' = trace w ++ replicate (length channels) forwarding
    /\ (forall c,
          forwarder_get w' cls c
          = forwarder_get w cls c
              ++ replicate (times_named c channels)
                   {| allow_commands := allow; fw_callback := cb |})
    /\ (forall d c, c ∉ channels ->
          forwarder_get w' d c = forwarder_get w d c).
Proof. apply add_forward_facts. Qed.

Lemma forward_appends_once_per_naming_witness :
  (class_in fresh_world the_class /\ lists_ok fresh_world)
  /\ exists w',
       add_forward the_class ["general"; "dev"; "general"] false (spy "s")
         fresh_world = (Ret tt, w')
       /\ lists_ok w'
       /\ (forall d, class_in fresh_world d -> class_in w' d)
       /\ command_layers w' = command_layers fresh_world
       /\ trace w' = trace fresh_world ++ replicate 3 forwarding
       /\ (forall c,
             forwarder_get w' the_class c
             = forwarder_get fresh_world the_class c
                 ++ replicate
                      (times_named c ["general"; "dev"; "general"])
                      {| allow_commands := false; fw_callback := spy "s" |})
       /\ (forall d c, c ∉ ["general"; "dev"; "general"] ->
             forwarder_get w' d c = forwarder_get fresh_world d c).
Proof.
  split; [exact (conj class_in_the_class lists_ok_fresh) |].
  exact (forward_appends_once_per_naming the_class
           ["general"; "dev"; "general"] false (spy "s") fresh_world
           class_in_the_class lists_ok_fresh).
Defined.

(** ** Registration of a command, stage by stage *)

Lemma signature_check_spec (callback : Callback) :
  (length (fap_args callback) <? 1)%nat
  && negb (bool_decide (is_Some (fap_varargs callback))) = false
  <-> accepts_message callback.
Proof.
  unfold accepts_message. split.
  - intros H. apply andb_false_iff in H as [H | H].
    + left. by destruct (fap_args callback).
    + right. apply negb_false_iff in H. by apply bool_decide_eq_true in H.
  - intros [H | H].
    + by destruct (fap_args callback).
    + rewrite (bool_decide_eq_true_2 _ H). apply andb_false_r.
Qed.

Lemma groups_fit_spec (pattern : option string) (callback : Callback)
    (src : string) :
  pattern_given pattern = Some src -> fap_varkw callback = None ->
  groups_fit pattern callback
  <-> missings_of src callback = ∅
      /\ (list_to_set (fap_kwonlyargs callback)
            ∖ list_to_set (Re.findall args_re src) : gset string) = ∅.
Proof.
  intros Hsrc Hkw. unfold groups_fit, missings_of. rewrite Hsrc, Hkw.
  split.
  - intros Heq. rewrite Heq. split; apply difference_diag_L.
  - intros [H1 H2]. apply set_eq. intros x. split; intros Hx.
    + destruct (decide (x ∈ (list_to_set (fap_kwonlyargs callback)
                              : gset string))) as [| Hn]; [done |].
      assert (Hin : x ∈ (list_to_set (Re.findall args_re src)
                           ∖ list_to_set (fap_kwonlyargs callback)
                         : gset string))
        by (by apply elem_of_difference).
      rewrite H1 in Hin. by apply not_elem_of_empty in Hin.
    + destruct (decide (x ∈ (list_to_set (Re.findall args_re src)
                              : gset string))) as [| Hn]; [done |].
      assert (Hin : x ∈ (list_to_set (fap_kwonlyargs callback)
                           ∖ list_to_set (Re.findall args_re src)
                         : gset string))
        by (by apply elem_of_difference).
      rewrite H2 in Hin. by apply not_elem_of_empty in Hin.
Qed.

(** Every run of [set_command] ends in one of two ways: it returns, having
    written its entry, or it raises for one of the four reasons of
    [refusal], having added its log record and nothing else. *)
Lemma set_command_cases (cls : Dispatcher)
    (channels roles : option (list string)) (pattern : option string)
    (callback : Callback) (w : World) :
  (exists re,
      accepts_message callback /\ groups_fit pattern callback
      /\ compile_pattern pattern = Ret re
      /\ set_command cls channels roles pattern callback w
         = (Ret tt, stored cls (entry channels roles re callback) w))
  \/ (exists e,
        refusal pattern callback e
        /\ set_command cls channels roles pattern callback w
           = (Raise e, with_trace w [registering])).
Proof.
  destruct ((length (fap_args callback) <? 1)%nat
            && negb (bool_decide (is_Some (fap_varargs callback))))
    eqn:Hsig.
  { right. exists (ValueError IncorrectSignature). split.
    - constructor. intros Hacc. apply signature_check_spec in Hacc.
      congruence.
    - unfold set_command. by rewrite bind_emit, Hsig. }
  apply signature_check_spec in Hsig.
  rewrite set_command_checked by done.
  assert (Hrest : forall (Hfit : groups_fit pattern callback),
    (exists re,
        accepts_message callback /\ groups_fit pattern callback
        /\ compile_pattern pattern = Ret re
        /\ bind (ret tt)
             (fun _ =>
                compiled <- lift (compile_pattern pattern) ;;
                w0 <- get_world ;;
                store_commands
                  (chain_setitem (command_layers w0) (commands_maps cls)
                     (command_name callback)
                     {| channels := channels; roles := roles;
                        regexp := compiled; callback := callback |}))
             (with_trace w [registering])
           = (Ret tt, stored cls (entry channels roles re callback) w))
    \/ (exists e,
          refusal pattern callback e
          /\ bind (ret tt)
               (fun _ =>
                  compiled <- lift (compile_pattern pattern) ;;
                  w0 <- get_world ;;
                  store_commands
                    (chain_setitem (command_layers w0) (commands_maps cls)
                       (command_name callback)
                       {| channels := channels; roles := roles;
                          regexp := compiled; callback := callback |}))
               (with_trace w [registering])
             = (Raise e, with_trace w [registering]))).
  { intros Hfit. rewrite bind_ret, bind_lift.
    destruct (compile_pattern pattern) as [re|e] eqn:Hre.
    - left. exists re. by repeat split.
    - right. exists e. split; [by apply refused_compile | done]. }
  destruct (pattern_given pattern) as [src|] eqn:Hsrc;
    [| apply Hrest; unfold groups_fit; by rewrite Hsrc].
  destruct (fap_varkw callback) as [kw|] eqn:Hkw;
    [apply Hrest; unfold groups_fit; by rewrite Hsrc, Hkw |].
  pose proof (groups_fit_spec pattern callback src Hsrc Hkw) as Hspec.
  unfold check_pattern_args. fold (missings_of src callback).
  case_bool_decide as Hmiss.
  { right. eexists. split; [by eapply refused_groups | done]. }
  case_bool_decide as Hun.
  { right. eexists. split; [| done].
    apply (refused_warning _ _ src);
      [exact Hsig | exact Hsrc | exact Hkw | exact Hmiss |].
    intros Hfit. apply Hspec in Hfit as [_ Hfit]. done. }
  apply Hrest. apply Hspec.
  split; first [assumption | by apply dec_stable].
Qed.

(** [set_command] returns exactly when the handler takes the message
    (a positional parameter or [*args]), the pattern compiles, and, for a
    non-empty pattern and a handler without [**kwargs], the named groups
    of the pattern are exactly the keyword-only parameters of the handler:
    a keyword-only parameter that no group names makes the registration
    fail as much as a group without parameter does.  A pattern that is
    [None] or empty, and a handler that takes [**kwargs], are not
    compared. *)
Theorem registration_succeeds_iff (cls : Dispatcher)
    (channels roles : option (list string)) (pattern : option string)
    (callback : Callback) (w : World) :
  (exists w', set_command cls channels roles pattern callback w = (Ret tt, w'))
  <-> accepts_message callback
      /\ groups_fit pattern callback
      /\ exists re, compile_pattern pattern = Ret re.
Proof.
  destruct (set_command_cases cls channels roles pattern callback w)
    as [(re & Hacc & Hfit & Hre & Hrun) | (e & Hwhy & Hrun)].
  - split; [intros _; eauto | intros _; eauto].
  - split.
    + intros [w' Hw']. congruence.
    + intros (Hacc & Hfit & re & Hre).
      destruct Hwhy as [Hno | src _ Hsrc Hkw Hmiss | src _ _ _ _ Hno
                        | e _ _ Hraise].
      * by destruct Hno.
      * by apply (groups_fit_spec _ _ _ Hsrc Hkw) in Hfit as [Hfit _].
      * by destruct Hno.
      * congruence.
Qed.

(** When [set_command] raises, it does so for one of four reasons, checked
    in this order: the signature, a named group without parameter, a
    keyword-only parameter without group (the warning that cannot be
    formatted), a pattern that does not compile.  In each case the
    registries and their lists are as before: only the log record of the
    registration was added. *)
Theorem failed_registration_changes_nothing (cls : Dispatcher)
    (channels roles : option (list string)) (pattern : option string)
    (callback : Callback) (w w' : World) (e : Exn) :
  set_command cls channels roles pattern callback w = (Raise e, w') ->
  w' = with_trace w [registering] /\ refusal pattern callback e.
Proof.
  intros Hrun.
  destruct (set_command_cases cls channels roles pattern callback w)
    as [(re & _ & _ & _ & Hrun') | (e' & Hwhy & Hrun')];
    rewrite Hrun in Hrun'; [discriminate |].
  injection Hrun' as -> ->. by split.
Qed.

Lemma failed_registration_changes_nothing_witness :
  set_command the_class None None (Some kick_pattern) kick_handler fresh_world
  = (Raise (NameError "unused"),
     (set_command the_class None None (Some kick_pattern) kick_handler
        fresh_world).2)
  /\ (set_command the_class None None (Some kick_pattern) kick_handler
        fresh_world).2
     = with_trace fresh_world [registering]
  /\ refusal (Some kick_pattern) kick_handler (NameError "unused").
Proof.
  assert (H : set_command the_class None None (Some kick_pattern) kick_handler
                fresh_world
              = (Raise (NameError "unused"),
                 (set_command the_class None None (Some kick_pattern)
                    kick_handler fresh_world).2)) by reflexivity.
  split; [exact H |].
  exact (failed_registration_changes_nothing _ _ _ _ _ _ _ _ H).
Defined.

Lemma dispatcher_get_stored (cls d : Dispatcher) (cmd : Command) (w : World)
    (name : string) :
  name <> command_name (callback cmd)
  \/ (own_commands cls ∉ commands_maps d) ->
  dispatcher_get (stored cls cmd w) d name = dispatcher_get w d name.
Proof.
  intros Hwhy. unfold dispatcher_get, stored. rewrite !chain_get_getitem.
  cbn [command_layers]. unfold own_commands in Hwhy.
  destruct (commands_maps cls) as [|own rest]; [done |]. cbn in Hwhy.
  apply chain_getitem_ext. intros l Hl. cbn [chain_setitem].
  destruct (decide (l = own)) as [-> | Hne];
    [| by rewrite layer_insert_ne].
  destruct Hwhy as [Hname | Hnot]; [| done].
  destruct (decide (own < length (command_layers w))) as [Hlt | Hge].
  - rewrite layer_insert_eq by done. by rewrite lookup_insert_ne.
  - by rewrite list_insert_ge by lia.
Qed.

(** After a registration that returns, on a class whose layers exist, the
    class resolves the handler's name (its [__name__] without the
    underscores around it) to the new entry, which holds the scopes as
    given and the compiled pattern.  Every other name resolves as before,
    for every class; a class whose chain does not hold the registering
    class's own table resolves every name as before; the forward registry
    is untouched; and one record was logged. *)
Theorem registered_command_is_found (cls : Dispatcher)
    (channels roles : option (list string)) (pattern : option string)
    (callback : Callback) (w w' : World) :
  class_in w cls ->
  set_command cls channels roles pattern callback w = (Ret tt, w') ->
  (exists re,
      compile_pattern pattern = Ret re
      /\ dispatcher_get w' cls (command_name callback)
         = Some (entry channels roles re callback))
  /\ (forall d name,
        name <> command_name callback ->
        dispatcher_get w' d name = dispatcher_get w d name)
  /\ (forall d,
        own_commands cls ∉ commands_maps d ->
        forall name, dispatcher_get w' d name = dispatcher_get w d name)
  /\ (forall d c, forwarder_get w' d c = forwarder_get w d c)
  /\ (forall d, class_in w d -> class_in w' d)
  /\ (lists_ok w -> lists_ok w')
  /\ trace w' = trace w ++ [registering].
Proof.
  intros (Hne & _ & Hc & _) Hrun.
  destruct (set_command_cases cls channels roles pattern callback w)
    as [(re & _ & _ & Hre & Hrun') | (e' & _ & Hrun')];
    rewrite Hrun in Hrun'; [| discriminate].
  injection Hrun' as ->.
  split; [| split; [| split; [| split; [| split; [| split]]]]].
  - exists re. split; [exact Hre |].
    unfold dispatcher_get, stored. rewrite chain_get_getitem.
    cbn - [chain_setitem chain_getitem].
    destruct (commands_maps cls) as [|own rest]; [done |].
    apply Forall_cons in Hc as [Hown _].
    by apply chain_getitem_setitem.
  - intros d name Hname.
    apply (dispatcher_get_stored cls d (entry channels roles re callback)).
    by left.
  - intros d Hd name.
    apply (dispatcher_get_stored cls d (entry channels roles re callback)).
    by right.
  - done.
  - intros d (H1 & H2 & H3 & H4). repeat split; try done.
    cbn. by rewrite length_setitem.
  - done.
  - done.
Qed.

Lemma registered_command_is_found_witness :
  (class_in fresh_world the_class
   /\ set_command the_class (Some ["general"]) None (Some help_pattern)
        help_handler fresh_world
      = (Ret tt, (set_command the_class (Some ["general"]) None
                    (Some help_pattern) help_handler fresh_world).2))
  /\ (exists re,
        compile_pattern (Some help_pattern) = Ret re
        /\ dispatcher_get
             (set_command the_class (Some ["general"]) None
                (Some help_pattern) help_handler fresh_world).2
             the_class (command_name help_handler)
           = Some (entry (Some ["general"]) None re help_handler))
  /\ command_name help_handler = "help".
Proof.
  assert (H : set_command the_class (Some ["general"]) None
                (Some help_pattern) help_handler fresh_world
              = (Ret tt, (set_command the_class (Some ["general"]) None
                            (Some help_pattern) help_handler fresh_world).2))
    by reflexivity.
  split; [exact (conj class_in_the_class H) |].
  split; [| reflexivity].
  exact (proj1 (registered_command_is_found _ _ _ _ _ _ _
                  class_in_the_class H)).
Defined.

(** ** The name under which a handler is filed *)

Lemma lstrip_by_spec (p : ascii -> bool) (s : string) :
  (exists pre, s = pre +:+ lstrip_by p s /\ all_by p pre = true)
  /\ (forall c rest, lstrip_by p s = String c rest -> p c = false).
Proof.
  induction s as [|d s [(pre & Hpre & Hall) Hhead]]; cbn.
  - split; [by exists EmptyString | done].
  - destruct (p d) eqn:Hd.
    + split; [| exact Hhead].
      exists (String d pre). rewrite append_cons, <- Hpre. cbn.
      by rewrite Hd, Hall.
    + split; [by exists EmptyString |]. by intros c rest [= <- _].
Qed.

Lemma rstrip_by_spec (p : ascii -> bool) (s : string) :
  (exists post, s = rstrip_by p s +:+ post /\ all_by p post = true)
  /\ (forall init c,
        rstrip_by p s = init +:+ String c EmptyString -> p c = false)
  /\ (forall c rest, rstrip_by p s = String c rest -> exists t, s = String c t).
Proof.
  induction s as [|d s ((post & Hpost & Hall) & Hlast & _)]; cbn.
  - split; [by exists EmptyString |]. split; [| done].
    by intros [|? ?] c.
  - destruct (rstrip_by p s) as [|e r] eqn:Hr.
    + rewrite append_nil_l in Hpost. subst post.
      destruct (p d) eqn:Hd.
      * split; [exists (String d s); cbn; by rewrite Hd, Hall |].
        split; [by intros [|? ?] c | done].
      * split; [by exists s |]. split.
        -- intros [|c0 init] c; rewrite ?append_nil_l, ?append_cons.
           ++ by intros [= <-].
           ++ intros [= _ H]. by destruct init.
        -- intros c rest [= <- _]. eauto.
    + split; [exists post; by rewrite append_cons, <- Hpost |]. split.
      * intros [|c0 init] c; rewrite ?append_nil_l, ?append_cons.
        -- done.
        -- intros [= _ H]. by apply (Hlast init c).
      * intros c rest [= <- _]. eauto.
Qed.

(** The name under which [set_command] files a handler is the handler's
    [__name__] with all the underscores at its two ends taken off and
    nothing else: the name is underscores, the command name, underscores,
    and the command name neither starts nor ends with an underscore.  A
    name made of underscores only is filed under the empty name. *)
Theorem command_name_strips_underscores (callback : Callback) :
  (exists pre post,
      cb_name callback = pre +:+ command_name callback +:+ post
      /\ all_by is_underscore pre = true
      /\ all_by is_underscore post = true)
  /\ (forall c rest, command_name callback = String c rest -> c <> "_"%char)
  /\ (forall init c,
        command_name callback = init +:+ String c EmptyString ->
        c <> "_"%char)
  /\ (all_by is_underscore (cb_name callback) = true ->
      command_name callback = EmptyString).
Proof.
  unfold command_name, strip_by.
  destruct (lstrip_by_spec is_underscore (cb_name callback))
    as [(pre & Hpre & Hallpre) Hhead].
  destruct (rstrip_by_spec is_underscore
              (lstrip_by is_underscore (cb_name callback)))
    as ((post & Hpost & Hallpost) & Hlast & Hfirst).
  assert (Hno : forall c, is_underscore c = false -> c <> "_"%char).
  { intros c Hc ->. discriminate. }
  split; [| split; [| split]].
  - exists pre, post. by rewrite <- Hpost.
  - intros c rest Hc. destruct (Hfirst c rest Hc) as [t Ht].
    apply Hno. by eapply Hhead.
  - intros init c Hc. apply Hno. by eapply Hlast.
  - intros Hall.
    assert (Hl : lstrip_by is_underscore (cb_name callback) = EmptyString).
    { clear -Hall. induction (cb_name callback) as [|d s IH]; [done |].
      cbn in *. apply andb_true_iff in Hall as [-> Hs]. by apply IH. }
    by rewrite Hl.
Qed.

(** ** Where the cast fails *)

Lemma cast_one_raises (type_hints : gmap string PyType) (key : string)
    (value : option string) (e : Exn) :
  cast_one type_hints key value = Raise e
  <-> exists s ty,
        value = Some s /\ type_hints !! key = Some ty /\ ty s = Raise e.
Proof.
  unfold cast_one. split.
  - destruct value as [s|]; [| done].
    destruct (type_hints !! key) as [ty|] eqn:Hk; [| done].
    intros H. by exists s, ty.
  - intros (s & ty & -> & -> & H). exact H.
Qed.

(** [cast_using_type_hints] raises an exception exactly when some entry
    holds a string under a key with a recorded type whose constructor
    raises that exception on the string, and every entry before it is
    cast without failure: the exception is that of the first entry that
    fails, in the order of the groups, and the entries after it are not
    looked at.  The utility raises nothing of its own. *)
Theorem cast_raises_at_first_failing_entry
    (type_hints : gmap string PyType)
    (kwargs : list (string * option string)) (e : Exn) :
  cast_using_type_hints type_hints kwargs = Raise e
  <-> exists before key s ty after,
        kwargs = before ++ (key, Some s) :: after
        /\ type_hints !! key = Some ty
        /\ ty s = Raise e
        /\ exists res, cast_using_type_hints type_hints before = Ret res.
Proof.
  split.
  - induction kwargs as [|[key value] rest IH]; cbn; [done |].
    destruct (cast_one type_hints key value) as [v|e'] eqn:Hone.
    + destruct (cast_using_type_hints type_hints rest) as [vs|e'] eqn:Hrest;
        [done |].
      intros [= ->].
      destruct (IH eq_refl) as (before & k & s & ty & after & -> & Hk & Hty
                                & res & Hres).
      exists ((key, value) :: before), k, s, ty, after.
      split; [done |]. split; [done |]. split; [done |].
      exists ((key, v) :: res). cbn. by rewrite Hone, Hres.
    + intros [= ->]. apply cast_one_raises in Hone as (s & ty & -> & Hk & Hty).
      exists [], key, s, ty, rest. split; [done |]. split; [done |].
      split; [done |]. by exists [].
  - intros (before & key & s & ty & after & -> & Hk & Hty & res & Hres).
    revert res Hres. induction before as [|[k v] before IH]; intros res Hres.
    + cbn. unfold cast_one. by rewrite Hk, Hty.
    + cbn in Hres |- *.
      destruct (cast_one type_hints k v) as [x|]; [| done].
      destruct (cast_using_type_hints type_hints before) as [vs|] eqn:Hb;
        [| done].
      by rewrite (IH vs eq_refl).
Qed.

(** ** The built-in [help] *)

Lemma compile_keeps_source (src : string) (p : Re.Pattern) :
  Re.compile src = Ret p -> Re.pattern p = src.
Proof.
  unfold Re.compile.
  destruct (Re.parse_alt _ src 0) as [[[r rest] n]|e]; [| done].
  destruct rest; [| done].
  destruct (Re.has_dup _); [done |]. by intros [= <-].
Qed.

Lemma compile_pattern_spec (pattern : option string)
    (re : option Re.Pattern) :
  compile_pattern pattern = Ret re ->
  match pattern_given pattern with
  | None => re = None
  | Some src => src <> EmptyString /\ exists p, re = Some p /\ Re.pattern p = src
  end.
Proof.
  unfold compile_pattern.
  destruct (pattern_given pattern) as [src|] eqn:Hsrc; [| by intros [= <-]].
  destruct (Re.compile src) as [p|e] eqn:Hp; [| done].
  intros [= <-]. split.
  - intros ->. by destruct pattern as [[|? ?]|].
  - exists p. split; [done | by apply compile_keeps_source].
Qed.

(** [help_] asked for a name that the registry does not resolve raises
    [NameError] for the name [command] and sends nothing: the reply that
    says that the command does not exist is never sent. *)
Theorem help_for_unknown_name_raises
    (kwonlydefaults : Callback -> option (list string))
    (help_text : pyval -> Command -> string -> string)
    (listing : World -> Dispatcher -> string)
    (thenumberone : Client) (message : Message) (cmd_name : string)
    (w : World) :
  cmd_name <> EmptyString ->
  dispatcher_get w (cls_of thenumberone) cmd_name = None ->
  help_ kwonlydefaults help_text listing thenumberone message
    (VStr cmd_name) w
  = (Raise (NameError "command"), w).
Proof.
  intros Hne Hget. unfold help_. cbn [truthy].
  apply String.eqb_neq in Hne. rewrite Hne. cbn [negb].
  rewrite bind_get_world. cbn [dispatcher_get_value]. by rewrite Hget.
Qed.

Lemma help_for_unknown_name_raises_witness :
  ("frobnicate" <> EmptyString
   /\ dispatcher_get module_world (cls_of the_bot) "frobnicate" = None)
  /\ help_ (fun _ => None) (fun _ _ cli => cli) (fun _ _ => EmptyString)
       the_bot (text_in "general" "!help frobnicate") (VStr "frobnicate")
       module_world
     = (Raise (NameError "command"), module_world).
Proof.
  assert (H1 : "frobnicate" <> EmptyString) by discriminate.
  assert (H2 : dispatcher_get module_world (cls_of the_bot) "frobnicate"
               = None) by reflexivity.
  split; [exact (conj H1 H2) |].
  exact (help_for_unknown_name_raises _ _ _ the_bot
           (text_in "general" "!help frobnicate") "frobnicate" module_world
           H1 H2).
Defined.

(** [help_] asked for a command that [set_command] has just registered on
    the client's class.  When the command was registered without pattern
    ([None] or the empty text), [help_] raises [AttributeError] and sends
    nothing: there is no help for such a command.  When it was registered
    with a pattern, [help_] sends one message, built from the entry and
    from the usage line of the pattern's named groups; the usage line is
    always bound there, since a stored pattern is never empty. *)
Theorem help_after_registration
    (kwonlydefaults : Callback -> option (list string))
    (help_text : pyval -> Command -> string -> string)
    (listing : World -> Dispatcher -> string)
    (thenumberone : Client) (message : Message)
    (channels roles : option (list string)) (pattern : option string)
    (callback : Callback) (w w' : World) :
  class_in w (cls_of thenumberone) ->
  command_name callback <> EmptyString ->
  set_command (cls_of thenumberone) channels roles pattern callback w
  = (Ret tt, w') ->
  match pattern_given pattern with
  | None =>
      help_ kwonlydefaults help_text listing thenumberone message
        (VStr (command_name callback)) w'
      = (Raise (OtherError "AttributeError"), w')
  | Some src =>
      exists p,
        compile_pattern pattern = Ret (Some p)
        /\ help_ kwonlydefaults help_text listing thenumberone message
             (VStr (command_name callback)) w'
           = (Ret tt,
              with_trace w'
                [Sent (channel_name message)
                   (help_text (VStr (command_name callback))
                      (entry channels roles (Some p) callback)
                      (cli_of (kwonlydefaults callback)
                         (Re.findall args_re src)))])
  end.
Proof.
  intros (Hne & _ & Hc & _) Hname Hrun.
  destruct (set_command_cases (cls_of thenumberone) channels roles pattern
              callback w)
    as [(re & _ & _ & Hre & Hrun') | (e' & _ & Hrun')];
    rewrite Hrun in Hrun'; [| discriminate].
  injection Hrun' as ->.
  assert (Hget : dispatcher_get
                   (stored (cls_of thenumberone)
                      (entry channels roles re callback) w)
                   (cls_of thenumberone) (command_name callback)
                 = Some (entry channels roles re callback)).
  { unfold dispatcher_get, stored. rewrite chain_get_getitem.
    cbn - [chain_setitem chain_getitem].
    destruct (commands_maps (cls_of thenumberone)) as [|own rest]; [done |].
    apply Forall_cons in Hc as [Hown _].
    by apply chain_getitem_setitem. }
  pose proof (compile_pattern_spec _ _ Hre) as Hspec.
  unfold help_. cbn [truthy].
  apply String.eqb_neq in Hname. rewrite Hname. cbn [negb].
  rewrite bind_get_world. cbn [dispatcher_get_value]. rewrite Hget.
  unfold entry at 1. cbn [regexp].
  destruct (pattern_given pattern) as [src|].
  - destruct Hspec as (Hsrc & p & -> & Hp). exists p. split; [done |].
    rewrite Hp. apply String.eqb_neq in Hsrc. by rewrite Hsrc.
  - by rewrite Hspec.
Qed.

Lemma help_after_registration_witness :
  (class_in fresh_world (cls_of the_bot)
   /\ command_name ping_handler <> EmptyString
   /\ set_command (cls_of the_bot) None None None ping_handler fresh_world
      = (Ret tt,
         (set_command the_class None None None ping_handler fresh_world).2))
  /\ help_ (fun _ => None) (fun _ _ cli => cli) (fun _ _ => EmptyString)
       the_bot (text_in "general" "!help ping")
       (VStr (command_name ping_handler))
       (set_command the_class None None None ping_handler fresh_world).2
     = (Raise (OtherError "AttributeError"),
        (set_command the_class None None None ping_handler fresh_world).2).
Proof.
  assert (H1 : command_name ping_handler <> EmptyString) by discriminate.
  assert (H2 : set_command (cls_of the_bot) None None None ping_handler
                 fresh_world
               = (Ret tt,
                  (set_command the_class None None None ping_handler
                     fresh_world).2)) by reflexivity.
  split; [exact (conj class_in_the_class (conj H1 H2)) |].
  exact (help_after_registration (fun _ => None) (fun _ _ cli => cli)
           (fun _ _ => EmptyString) the_bot (text_in "general" "!help ping")
           None None None ping_handler fresh_world _ class_in_the_class H1 H2).
Defined.

(** ** Start-up *)

Lemma endswith_spec (s suffix : string) :
  endswith s suffix = true <-> exists stem, s = stem +:+ suffix.
Proof.
  induction s as [|c s IH]; cbn [endswith].
  - rewrite orb_false_r. split.
    + intros H. apply String.eqb_eq in H as <-. by exists EmptyString.
    + intros [[|? ?] H]; [| done]. rewrite append_nil_l in H. subst.
      by rewrite String.eqb_refl.
  - rewrite orb_true_iff, IH. split.
    + intros [H | [stem ->]].
      * apply String.eqb_eq in H as <-. by exists EmptyString.
      * by exists (String c stem).
    + intros [[|d stem] H].
      * left. rewrite append_nil_l in H. subst. apply String.eqb_refl.
      * right. rewrite append_cons in H. injection H as -> ->. by exists stem.
Qed.

Lemma str_take_append (s t : string) : str_take (String.length s) (s +:+ t) = s.
Proof.
  induction s as [|c s IH]; [by destruct t |].
  rewrite append_cons. cbn. by rewrite IH.
Qed.

Lemma drop_end_append (s t : string) :
  drop_end (String.length t) (s +:+ t) = s.
Proof.
  unfold drop_end. rewrite length_append.
  replace (String.length s + String.length t - String.length t)
    with (String.length s) by lia.
  apply str_take_append.
Qed.

Lemma drop_end_py (stem : string) : drop_end 3 (stem +:+ ".py") = stem.
Proof. exact (drop_end_append stem ".py"). Qed.

Lemma append_inj_r (s s' t : string) : s +:+ t = s' +:+ t -> s = s'.
Proof.
  intros H.
  rewrite <- (drop_end_append s t), <- (drop_end_append s' t). by rewrite H.
Qed.

(** [on_ready] takes a directory entry for a plugin exactly when it is a
    file whose name is a stem followed by [.py], the stem not being
    [__init__]; the module it imports is [plugins.] followed by the stem.
    An entry named [.py] alone is taken, with the empty stem. *)
Theorem plugin_of_spec (sep : string) (isfile : string -> bool)
    (file module : string) :
  plugin_of sep isfile file = Some module
  <-> exists stem,
        file = stem +:+ ".py"
        /\ stem <> "__init__"
        /\ isfile ("plugins" +:+ sep +:+ file) = true
        /\ module = "plugins." +:+ stem.
Proof.
  unfold plugin_of. split.
  - destruct (isfile _) eqn:Hfile; [| done].
    destruct (String.eqb file "__init__.py") eqn:Hinit; [done |].
    destruct (endswith file ".py") eqn:Hpy; [| done].
    apply endswith_spec in Hpy as [stem ->]. cbn [andb negb].
    intros [= <-]. exists stem.
    split; [done |]. split; [| split; [done |]].
    + intros ->. by rewrite String.eqb_refl in Hinit.
    + by rewrite drop_end_py.
  - intros (stem & -> & Hstem & -> & ->).
    assert (Hinit : String.eqb (stem +:+ ".py") "__init__.py" = false).
    { apply String.eqb_neq. intros H. apply Hstem.
      by apply (append_inj_r stem "__init__" ".py"). }
    rewrite Hinit.
    assert (Hpy : endswith (stem +:+ ".py") ".py" = true)
      by (apply endswith_spec; by exists stem).
    rewrite Hpy. cbn [andb negb].
    by rewrite drop_end_py.
Qed.

Lemma imports_app (l1 l2 : list Startup) :
  imports (l1 ++ l2) = imports l1 ++ imports l2.
Proof. apply omap_app. Qed.

Lemma load_plugins_imports (sep : string) (isfile : string -> bool)
    (import_ : list string -> string -> option Exn) (files : list string)
    (log : list Startup) :
  imports (load_plugins sep isfile import_ files log).2
  = imports log
      ++ attempted import_ (imports log) (omap (plugin_of sep isfile) files).
Proof.
  revert log. induction files as [|file rest IH]; intros log; cbn.
  - by rewrite app_nil_r.
  - destruct (plugin_of sep isfile file) as [module|]; cbn.
    + destruct (import_ (imports log) module) as [e|] eqn:Himp.
      * cbn. by rewrite imports_app.
      * rewrite IH, imports_app. cbn. by rewrite <- app_assoc.
    + rewrite IH, imports_app. cbn. by rewrite app_nil_r.
Qed.

(** The first [on_ready] of a client imports the plugins of the directory
    in the order of the listing, and stops at the first import that
    raises: the modules after it are not imported.  Whatever happens while
    the plugins are loaded, also when the directory cannot be listed,
    stays inside: [on_ready] ends as its last statement ends, with
    [IndexError] when the client is on no server. *)
Theorem plugins_load_until_the_first_failure (PREFIX sep : string)
    (listdir : outcome (list string)) (isfile : string -> bool)
    (import_ : list string -> string -> option Exn)
    (servers : list (list string))
    (purge_from : option string -> option Exn) (self : Bot) :
  connected_ self = false ->
  (on_ready PREFIX sep listdir isfile import_ servers purge_from self).1
  = purge_result servers purge_from
  /\ imports
       (startup_log
          (on_ready PREFIX sep listdir isfile import_ servers purge_from
             self).2)
     = imports (startup_log self)
         ++ match listdir with
            | Ret files =>
                attempted import_ (imports (startup_log self))
                  (omap (plugin_of sep isfile) files)
            | Raise _ => []
            end.
Proof.
  intros Hfirst. unfold on_ready, purge_result. rewrite Hfirst.
  split; [by destruct servers |].
  set (log0 := startup_log self ++ _).
  assert (Hlog0 : imports log0 = imports (startup_log self)).
  { unfold log0. rewrite imports_app. cbn. by rewrite app_nil_r. }
  set (loaded := match listdir with
                 | Ret files => load_plugins sep isfile import_ files log0
                 | Raise e => (Raise e, log0)
                 end).
  assert (Hloaded : imports loaded.2
                    = imports (startup_log self)
                        ++ match listdir with
                           | Ret files =>
                               attempted import_ (imports (startup_log self))
                                 (omap (plugin_of sep isfile) files)
                           | Raise _ => []
                           end).
  { unfold loaded. destruct listdir as [files|e]; cbn [snd].
    - by rewrite load_plugins_imports, Hlog0.
    - by rewrite Hlog0, app_nil_r. }
  assert (Hlog1 : forall r : outcome unit, imports
            (match r with
             | Ret _ => loaded.2
             | Raise _ => loaded.2 ++ [Note ERROR ":(" EmptyString]
             end) = imports loaded.2).
  { intros [|]; [done |]. rewrite imports_app. cbn. by rewrite app_nil_r. }
  destruct servers as [|chans rest]; cbn [snd startup_log].
  - rewrite imports_app, Hlog1, Hloaded. cbn. by rewrite app_nil_r.
  - rewrite !imports_app, Hlog1, Hloaded. cbn. by rewrite !app_nil_r.
Qed.

Lemma plugins_load_until_the_first_failure_witness :
  connected_ {| connected_ := false; startup_log := [] |} = false
  /\ imports
       (startup_log
          (on_ready "!" "/"
             (Ret ["a.py"; "__init__.py"; "notes.txt"; "b.py"; "c.py"])
             (fun _ => true)
             (fun _ m => if String.eqb m "plugins.b"
                         then Some (OtherError "ImportError") else None)
             [] (fun _ => None)
             {| connected_ := false; startup_log := [] |}).2)
     = ["plugins.a"; "plugins.b"].
Proof.
  split; [reflexivity |].
  exact (proj2 (plugins_load_until_the_first_failure "!" "/"
                  (Ret ["a.py"; "__init__.py"; "notes.txt"; "b.py"; "c.py"])
                  (fun _ => true)
                  (fun _ m => if String.eqb m "plugins.b"
                              then Some (OtherError "ImportError") else None)
                  [] (fun _ => None)
                  {| connected_ := false; startup_log := [] |} eq_refl)).
Defined.

(** Whatever the first [on_ready] does and however it ends, the client is
    marked as connected afterwards, and every later [on_ready] returns at
    once and does nothing: plugins whose loading failed, or was cut short,
    are not tried again. *)
Theorem on_ready_runs_once (PREFIX sep : string)
    (listdir : outcome (list string)) (isfile : string -> bool)
    (import_ : list string -> string -> option Exn)
    (servers : list (list string))
    (purge_from : option string -> option Exn) (self : Bot) :
  let after :=
    (on_ready PREFIX sep listdir isfile import_ servers purge_from self).2 in
  connected_ after = true
  /\ forall listdir' isfile' import_' servers' purge_from',
       on_ready PREFIX sep listdir' isfile' import_' servers' purge_from'
         after
       = (Ret tt, after).
Proof.
  intros after.
  assert (Hflag : connected_ after = true).
  { unfold after, on_ready.
    destruct (connected_ self) eqn:Hc; [done |]. by destruct servers. }
  split; [exact Hflag |]. intros. unfold on_ready. by rewrite Hflag.
Qed.

(** ** The registries in every reachable state *)

Lemma class_in_with_trace (w : World) (evs : list Event) (d : Dispatcher) :
  class_in w d -> class_in (with_trace w evs) d.
Proof. done. Qed.

Lemma lists_ok_with_trace (w : World) (evs : list Event) :
  lists_ok w -> lists_ok (with_trace w evs).
Proof. done. Qed.

Lemma built_sound (classes : list Dispatcher) (w : World) :
  built classes w ->
  lists_ok w /\ forall cls, cls ∈ classes -> class_in w cls.
Proof.
  induction 1 as [| classes w w' bases cls _ [IHok IHcls] Hbases Hnew
                  | classes w w' cls channels roles pattern callback r
                      _ [IHok IHcls] Hcls Hrun
                  | classes w w' cls channels allow callback r
                      _ [IHok IHcls] Hcls Hrun
                  | classes w w' PREFIX show_scope self message r
                      _ [IHok IHcls] Hrun].
  - split.
    + split; intros l; intros; by destruct l.
    + intros cls Hin. by apply elem_of_nil in Hin.
  - assert (Hall : Forall (base_in w) bases).
    { apply Forall_forall. intros [|d] Hd; [exact I |].
      apply IHcls. by apply Hbases. }
    destruct (new_class_facts bases w w' cls Hall Hnew)
      as (Hnewcls & _ & Hold & Hok).
    split; [by apply Hok |].
    intros d Hd. apply elem_of_cons in Hd as [-> | Hd]; [done |].
    by apply Hold, IHcls.
  - destruct (set_command_cases cls channels roles pattern callback w)
      as [(re & _ & _ & _ & Hrun') | (e & _ & Hrun')];
      rewrite Hrun in Hrun'; injection Hrun' as _ ->.
    + split; [exact IHok |].
      intros d Hd. destruct (IHcls d Hd) as (H1 & H2 & H3 & H4).
      repeat split; try done. cbn. by rewrite length_setitem.
    + split; [exact IHok | exact IHcls].
  - destruct (add_forward_facts cls channels allow callback w
                (IHcls cls Hcls) IHok)
      as (w2 & Hrun' & Hok & Hkeep & _).
    rewrite Hrun in Hrun'. injection Hrun' as _ ->.
    split; [exact Hok |]. intros d Hd. by apply Hkeep, IHcls.
  - destruct (on_message_appends PREFIX show_scope self message w)
      as (evs & Hw' & _).
    rewrite Hrun in Hw'. cbn in Hw'. subst w'.
    split; [exact IHok | exact IHcls].
Qed.

(** In every state that the program can reach by making classes,
    registering commands and forwards (whether the registration returns or
    raises) and handling messages, the tables of every class exist and
    the forward registry is sound: every list that a table refers to
    exists, and no list is referred to from two entries.  In such a state
    [add_forward] never raises, for any class and any channels. *)
Theorem registries_stay_sound (classes : list Dispatcher) (w : World) :
  built classes w ->
  lists_ok w
  /\ (forall cls, cls ∈ classes -> class_in w cls)
  /\ (forall cls channels allow callback,
        cls ∈ classes ->
        (add_forward cls channels allow callback w).1 = Ret tt).
Proof.
  intros Hbuilt. destruct (built_sound classes w Hbuilt) as [Hok Hcls].
  split; [exact Hok |]. split; [exact Hcls |].
  intros cls channels allow callback Hin.
  destruct (add_forward_facts cls channels allow callback w (Hcls cls Hin) Hok)
    as (w2 & -> & _).
  reflexivity.
Qed.

Lemma built_family : built [the_class] fresh_world.
Proof.
  apply (built_class [] empty_world fresh_world [PlainClass] the_class).
  - constructor.
  - intros d Hd. apply list_elem_of_singleton in Hd. discriminate.
  - reflexivity.
Qed.

Lemma registries_stay_sound_witness :
  built [the_class] fresh_world
  /\ lists_ok fresh_world
  /\ (forall cls, cls ∈ [the_class] -> class_in fresh_world cls)
  /\ (forall cls channels allow callback,
        cls ∈ [the_class] ->
        (add_forward cls channels allow callback fresh_world).1 = Ret tt).
Proof.
  split; [exact built_family |].
  exact (registries_stay_sound [the_class] fresh_world built_family).
Defined.
